(** * Keyword scoring and opportunity prioritisation of the Etsy shop agents

    A shallow embedding of
    - [agents/keyword_optimizer/keyword_optimizer_agent.py]
      ([KeywordOptimizerAgent]: the keyword catalogue, [_analyze_single_keyword],
      [_get_replacement_suggestions], [_determine_action]; the portfolio:
      [analyze_keyword_portfolio], [optimize_listing_keywords],
      [_suggest_additional_keywords], [_identify_portfolio_gaps],
      [_identify_quick_wins], [_generate_strategic_recommendations],
      [generate_portfolio_report]), and
    - [agents/market_research/market_research_agent.py]
      ([EtsyMarketResearcher]: feasibility filter, effort / impact / confidence
      scores, timeline buckets, RICE priority, grouping of the report;
      [_identify_capability_gaps], [_generate_next_actions],
      [generate_opportunity_report]),
    together with the part of the Python runtime these two files rely on:
    exceptions, arbitrary-precision [int], binary64 [float] with
    round-to-nearest-even, [round] to one decimal, [str.lower], [str.strip],
    substrings and slices, [Counter], [set] iteration and the stable sort.

    Layout: Part I holds the definitions, Part II the supporting lemmas,
    Part III the properties of the two agents the specification states,
    Part IV further properties of the two agents. *)

From Stdlib Require Import ZArith QArith Qround Qpower Qreduction Qabs Lqa Lia Ascii.
From stdpp Require Import gmap strings list.

(* ===================================================================== *)
(** * Part I. Definitions                                                  *)
(* ===================================================================== *)

(** ** Exceptions

    The two agents raise nothing themselves; what can escape them are the
    built-in exceptions of the operators they use. *)

Inductive exn : Set :=
  | ZeroDivisionError
  | OverflowError
  | ValueError
  | KeyError.

Inductive result (A : Type) : Type :=
  | Ok (a : A)
  | Raise (e : exn).

Arguments Ok {A} a.
Arguments Raise {A} e.

#[export] Instance result_bind : MBind result := λ A B k m,
  match m with
  | Ok a => k a
  | Raise e => Raise e
  end.

(** [for x in xs: ys.append(f(x))], stopping at the first exception. *)
Fixpoint map_result {A B : Type} (f : A -> result B) (xs : list A) : result (list B) :=
  match xs with
  | [] => Ok []
  | x :: xs' =>
      y ← f x;
      ys ← map_result f xs';
      Ok (y :: ys)
  end.

(** [for x in xs: state = step(state, x)], stopping at the first
    exception. *)
Fixpoint fold_result {A S : Type} (step : S -> A -> result S) (state : S) (xs : list A)
    : result S :=
  match xs with
  | [] => Ok state
  | x :: xs' =>
      state' ← step state x;
      fold_result step state' xs'
  end.

(** ** Binary64 floating point

    A Python [float] is an IEEE-754 binary64.  A finite float is represented
    by the rational it denotes (the sign of a zero is not kept: no operation
    used by the two agents can observe it).  Every arithmetic operation is
    the exact rational operation followed by [round], rounding to nearest
    with ties to even at 53 bits of precision, exponents from [-1074] up,
    overflow to infinity at [2^1024]. *)

Module Binary64.
Local Open Scope Q_scope.

Definition pow2 (e : Z) : Q := 2 ^ e.

(** [floor (log2 x)] for a positive rational. *)
Definition ilog2 (x : Q) : Z :=
  let k := (Z.log2 (Qnum x) - Z.log2 (Zpos (Qden x)))%Z in
  if Qle_bool (pow2 k) x then k else (k - 1)%Z.

(** Exponent of the unit in the last place of the binade of [x]. *)
Definition rexp (x : Q) : Z := Z.max (ilog2 x - 52) (-1074).

(** Nearest integer, ties to even. *)
Definition rne (q : Q) : Z :=
  let f := Qfloor q in
  match Qcompare (q - inject_Z f) (1 # 2) with
  | Lt => f
  | Gt => (f + 1)%Z
  | Eq => if Z.even f then f else (f + 1)%Z
  end.

Definition round_pos (x : Q) : Q :=
  let e := rexp x in inject_Z (rne (x / pow2 e)) * pow2 e.

Inductive float : Type :=
  | Finite (q : Q)
  | Infinity (negative : bool)
  | NaN.

Definition overflow (s : bool) (v : Q) : float :=
  if Qle_bool (pow2 1024) v then Infinity s
  else Finite (Qred (if s then - v else v)).

Definition round (x : Q) : float :=
  match Qcompare x 0 with
  | Eq => Finite 0
  | Gt => overflow false (round_pos x)
  | Lt => overflow true (round_pos (- x))
  end.

(** Largest finite binary64, as an integer: [(2^53 - 1) * 2^971]. *)
Definition max_float : Z := ((2 ^ 53 - 1) * 2 ^ 971)%Z.


(** Neither negative nor [NaN]. *)
Definition nonneg (x : float) : Prop :=
  match x with
  | Finite q => 0 <= q
  | Infinity s => s = false
  | NaN => False
  end.

(** Denotes an integer. *)
Definition integral (q : Q) : Prop := exists n : Z, q == inject_Z n.

Definition is_zero (x : float) : bool :=
  match x with
  | Finite q => Qeq_bool q 0
  | _ => false
  end.

Definition fcompare (x y : float) : option comparison :=
  match x, y with
  | NaN, _ | _, NaN => None
  | Finite a, Finite b => Some (Qcompare a b)
  | Infinity s, Infinity s' =>
      Some (match s, s' with
            | true, false => Lt
            | false, true => Gt
            | _, _ => Eq
            end)
  | Infinity s, Finite _ => Some (if s then Lt else Gt)
  | Finite _, Infinity s => Some (if s then Gt else Lt)
  end.

Definition flt (x y : float) : bool :=
  match fcompare x y with
  | Some Lt => true
  | _ => false
  end.

Definition fle (x y : float) : bool :=
  match fcompare x y with
  | Some Lt | Some Eq => true
  | _ => false
  end.

Definition feq (x y : float) : bool :=
  match fcompare x y with
  | Some Eq => true
  | _ => false
  end.

Definition fopp (x : float) : float :=
  match x with
  | Finite q => Finite (- q)
  | Infinity s => Infinity (negb s)
  | NaN => NaN
  end.

(** Sign of the product (or quotient) of an infinity of sign [s] with a
    finite [b]; [None] when [b] is zero. *)
Definition inf_sign (s : bool) (b : Q) : option bool :=
  match Qcompare b 0 with
  | Eq => None
  | Lt => Some (negb s)
  | Gt => Some s
  end.

Definition fmul (x y : float) : float :=
  match x, y with
  | NaN, _ | _, NaN => NaN
  | Finite a, Finite b => round (a * b)
  | Infinity s, Finite b | Finite b, Infinity s =>
      match inf_sign s b with
      | Some s' => Infinity s'
      | None => NaN
      end
  | Infinity s, Infinity s' => Infinity (xorb s s')
  end.

(** IEEE division; the callers below exclude a zero divisor first, as
    Python does. *)
Definition fdiv (x y : float) : float :=
  match x, y with
  | NaN, _ | _, NaN => NaN
  | Finite a, Finite b => round (a / b)
  | Infinity s, Finite b => Infinity (if Qle_bool 0 b then s else negb s)
  | Finite _, Infinity _ => Finite 0
  | Infinity _, Infinity _ => NaN
  end.

Definition fadd (x y : float) : float :=
  match x, y with
  | NaN, _ | _, NaN => NaN
  | Finite a, Finite b => round (a + b)
  | Infinity s, Finite _ | Finite _, Infinity s => Infinity s
  | Infinity s, Infinity s' => if Bool.eqb s s' then Infinity s else NaN
  end.

Definition fsub (x y : float) : float := fadd x (fopp y).

(** Truncation toward zero of a rational. *)
Definition Qtrunc (q : Q) : Z :=
  if Qle_bool 0 q then Qfloor q else Qceiling q.

(** C's [fmod]: the exact remainder, with the sign of the dividend. *)
Definition fmod (x y : float) : float :=
  match x, y with
  | Finite a, Finite b =>
      if Qeq_bool b 0 then NaN
      else Finite (Qred (a - inject_Z (Qtrunc (a / b)) * b))
  | Finite a, Infinity _ => Finite a
  | _, _ => NaN
  end.

(** C's [floor]: exact on finite floats. *)
Definition ffloor (x : float) : float :=
  match x with
  | Finite q => Finite (inject_Z (Qfloor q))
  | _ => x
  end.

End Binary64.

(** ** Python operators on numbers *)

Module Py.
Import Binary64.

(** A decimal literal denotes the nearest binary64. *)
Definition float_literal (q : Q) : float := round q.

(** [float(n)] for an [int]: correctly rounded, [OverflowError] beyond the
    binary64 range. *)
Definition float_of_int (n : Z) : result float :=
  match round (inject_Z n) with
  | Infinity _ => Raise OverflowError
  | x => Ok x
  end.

(** [a / b] on two [int]s: the correctly rounded quotient. *)
Definition int_truediv (a b : Z) : result float :=
  if (b =? 0)%Z then Raise ZeroDivisionError
  else
    match round (inject_Z a / inject_Z b)%Q with
    | Infinity _ => Raise OverflowError
    | x => Ok x
    end.

(** [x / y] on two [float]s. *)
Definition float_truediv (x y : float) : result float :=
  if is_zero y then Raise ZeroDivisionError else Ok (fdiv x y).

(** [x // y] on two [float]s, following CPython's [float_floor_div]:
    [mod = fmod(x, y)], [div = (x - mod) / y], corrected by one when the
    remainder and the divisor differ in sign, then snapped to the nearest
    integral value. *)
Definition float_floordiv (x y : float) : result float :=
  if is_zero y then Raise ZeroDivisionError
  else
    let md := fmod x y in
    let div := fdiv (fsub x md) y in
    let div :=
      if negb (is_zero md) && xorb (flt y (Finite 0)) (flt md (Finite 0))
      then fsub div (Finite 1)
      else div in
    if negb (is_zero div) then
      let floordiv := ffloor div in
      Ok (if flt (Finite (1 # 2)) (fsub div floordiv)
          then fadd floordiv (Finite 1)
          else floordiv)
    else Ok (Finite 0).

(** [int(x)] on a [float]. *)
Definition int_of_float (x : float) : result Z :=
  match x with
  | Finite q => Ok (Qtrunc q)
  | Infinity _ => Raise OverflowError
  | NaN => Raise ValueError
  end.

(** Mixed arithmetic converts the [int] operand first. *)
Definition float_mul_int (x : float) (n : Z) : result float :=
  y ← float_of_int n; Ok (fmul x y).

Definition int_mul_float (n : Z) (x : float) : result float :=
  y ← float_of_int n; Ok (fmul y x).

Definition float_truediv_int (x : float) (n : Z) : result float :=
  y ← float_of_int n; float_truediv x y.

Definition float_floordiv_int (x : float) (n : Z) : result float :=
  y ← float_of_int n; float_floordiv x y.

(** A value that is an [int] on one path and a [float] on another. *)
Inductive number : Type :=
  | Int (n : Z)
  | Float (x : float).

(** Python's [==] on numbers. *)
Definition number_eq (a b : number) : bool :=
  match a, b with
  | Int m, Int n => (m =? n)%Z
  | Int m, Float x | Float x, Int m => feq x (Finite (inject_Z m))
  | Float x, Float y => feq x y
  end.

(** Python's [<] on numbers: an [int] and a [float] are compared by value,
    without rounding the [int]. *)
Definition number_lt (a b : number) : bool :=
  match a, b with
  | Int m, Int n => (m <? n)%Z
  | Int m, Float x => flt (Finite (inject_Z m)) x
  | Float x, Int n => flt x (Finite (inject_Z n))
  | Float x, Float y => flt x y
  end.

(** Python's [<] on the pairs [(number, int)]: the first components decide
    unless they are equal. *)
Definition pair_lt (a b : number * Z) : bool :=
  if number_eq (fst a) (fst b) then (snd a <? snd b)%Z else number_lt (fst a) (fst b).

(** [round(x, 1)] on a [float]: the decimal with one digit after the point
    nearest to the exact value of [x] (ties to the even digit), read back
    as a binary64.  Infinities and NaN round to themselves. *)
Definition round1 (x : float) : float :=
  match x with
  | Finite q => round (inject_Z (rne (q * 10)) / 10)%Q
  | _ => x
  end.

(** [round(x, 1)] on a number; an [int] rounds to itself. *)
Definition number_round1 (x : number) : number :=
  match x with
  | Int n => Int n
  | Float y => Float (round1 y)
  end.

(** [sorted(xs, key=..., reverse=True)] and [xs.sort(key=..., reverse=True)]
    on keys computed beforehand and compared with [lt]: the stable sort by
    decreasing key; an element goes in front of the first one whose key is
    not greater than its own. *)
Fixpoint insert_desc_by {K A : Type} (lt : K -> K -> bool) (x : K * A) (l : list (K * A))
    : list (K * A) :=
  match l with
  | [] => [x]
  | y :: l' => if lt (fst x) (fst y) then y :: insert_desc_by lt x l' else x :: l
  end.

Definition sorted_desc_by {K A : Type} (lt : K -> K -> bool) (l : list (K * A))
    : list (K * A) :=
  foldr (insert_desc_by lt) [] l.

(** [len(xs)] *)
Definition len {A : Type} (xs : list A) : Z := Z.of_nat (length xs).

(** [enumerate(xs)] *)
Definition enumerate {A : Type} (xs : list A) : list (Z * A) :=
  imap (λ i x, (Z.of_nat i, x)) xs.

(** ** Python operators on text

    A [str] is a sequence of code points; the model covers the code points
    U+0000 to U+00FF, one per [ascii]. *)

Definition is_upper (n : N) : bool :=
  ((65 <=? n) && (n <=? 90) || (192 <=? n) && (n <=? 222) && negb (n =? 215))%N.

Definition lower_char (c : ascii) : ascii :=
  let n := N_of_ascii c in
  if is_upper n then ascii_of_N (n + 32) else c.

Fixpoint lower (s : string) : string :=
  match s with
  | EmptyString => EmptyString
  | String c s' => String (lower_char c) (lower s')
  end.

Definition is_space (c : ascii) : bool :=
  let n := N_of_ascii c in
  ((9 <=? n) && (n <=? 13) || (28 <=? n) && (n <=? 32) || (n =? 133) || (n =? 160))%N.

Fixpoint lstrip (s : string) : string :=
  match s with
  | EmptyString => EmptyString
  | String c s' => if is_space c then lstrip s' else s
  end.

Fixpoint string_rev_append (s acc : string) : string :=
  match s with
  | EmptyString => acc
  | String c s' => string_rev_append s' (String c acc)
  end.

Definition string_rev (s : string) : string := string_rev_append s EmptyString.

Definition rstrip (s : string) : string := string_rev (lstrip (string_rev s)).

Definition strip (s : string) : string := rstrip (lstrip s).

(** [s.startswith(prefix)] *)
Fixpoint startswith (s prefix : string) : bool :=
  match prefix, s with
  | EmptyString, _ => true
  | String a prefix', String b s' => bool_decide (a = b) && startswith s' prefix'
  | String _ _, EmptyString => false
  end.

(** [sub in s] on two [str]s: [sub] occurs in [s] as a substring. *)
Fixpoint contains (sub s : string) : bool :=
  startswith s sub ||
  match s with
  | EmptyString => false
  | String _ s' => contains sub s'
  end.

(** [s[:n]] *)
Fixpoint str_take (n : nat) (s : string) : string :=
  match n, s with
  | S n', String c s' => String c (str_take n' s')
  | _, _ => EmptyString
  end.

(** [len(s)] *)
Definition str_len (s : string) : Z := Z.of_nat (String.length s).

End Py.

(** ** The keyword optimizer agent *)

Module KeywordOptimizer.
Import Binary64 Py.
Local Open Scope string_scope.
Local Open Scope Z_scope.

(** An entry of the keyword catalogue:
    [{"competition": ..., "relevance": ..., "trend": ...}]. *)
Record KeywordData : Type := {
  competition : string;
  relevance : Z;
  trend : string
}.

(** The [reasoning] text of an analysis.  The texts are f-strings; the model
    keeps which text it is and the values interpolated into it. *)
Inductive Reasoning : Type :=
  | LowRelevance (relevance : Z)
  | QualityDescriptor
  | DecliningHighCompetition
  | Overused (percent : float)
  | StrongPerformer (relevance : Z) (trend : string)
  | ModeratePerformance.

Record KeywordAnalysis : Type := {
  keyword : string;
  frequency_across_listings : Z;
  estimated_competition : string;
  relevance_score : number;
  replacement_suggestions : list string;
  action_recommendation : string;
  reasoning : Reasoning
}.

Definition _initialize_keyword_database : gmap string KeywordData :=
  list_to_map [
    (* Political/Protest Keywords *)
    ("resist", Build_KeywordData "High" 9 "stable");
    ("protest", Build_KeywordData "High" 8 "declining");
    ("political", Build_KeywordData "High" 7 "stable");
    ("government", Build_KeywordData "Medium" 9 "rising");
    ("bureaucrat", Build_KeywordData "Low" 10 "rising");
    ("civil servant", Build_KeywordData "Low" 9 "rising");
    ("federal employee", Build_KeywordData "Medium" 10 "rising");
    (* Product Type Keywords *)
    ("t shirt", Build_KeywordData "High" 6 "stable");
    ("tshirt", Build_KeywordData "High" 6 "stable");
    ("shirt", Build_KeywordData "High" 7 "stable");
    ("tee", Build_KeywordData "Medium" 8 "rising");
    ("apparel", Build_KeywordData "Medium" 6 "stable");
    ("clothing", Build_KeywordData "High" 5 "declining");
    ("sticker", Build_KeywordData "Medium" 9 "rising");
    ("decal", Build_KeywordData "Low" 8 "stable");
    ("mug", Build_KeywordData "High" 7 "stable");
    ("cup", Build_KeywordData "High" 6 "declining");
    ("hat", Build_KeywordData "Medium" 8 "stable");
    ("cap", Build_KeywordData "Medium" 7 "stable");
    (* Gift Keywords *)
    ("gift", Build_KeywordData "High" 8 "stable");
    ("present", Build_KeywordData "Medium" 6 "declining");
    ("birthday gift", Build_KeywordData "High" 7 "stable");
    ("retirement gift", Build_KeywordData "Medium" 9 "rising");
    ("coworker gift", Build_KeywordData "Medium" 8 "rising");
    (* Humor Keywords *)
    ("funny", Build_KeywordData "High" 8 "stable");
    ("humor", Build_KeywordData "Medium" 9 "rising");
    ("sarcastic", Build_KeywordData "Low" 9 "rising");
    ("satire", Build_KeywordData "Low" 10 "rising");
    ("witty", Build_KeywordData "Low" 8 "stable");
    (* Quality Descriptors (often low value) *)
    ("beautiful", Build_KeywordData "High" 2 "declining");
    ("perfect", Build_KeywordData "High" 2 "declining");
    ("amazing", Build_KeywordData "High" 2 "declining");
    ("awesome", Build_KeywordData "High" 3 "declining");
    ("great", Build_KeywordData "High" 2 "declining");
    ("best", Build_KeywordData "High" 3 "stable");
    ("quality", Build_KeywordData "Medium" 4 "stable");
    (* Trending Niche Keywords *)
    ("deep state", Build_KeywordData "Low" 10 "rising");
    ("rogue", Build_KeywordData "Low" 10 "rising");
    ("opsec", Build_KeywordData "Low" 10 "rising");
    ("nato", Build_KeywordData "Low" 9 "rising");
    ("cybersecurity", Build_KeywordData "Medium" 9 "rising");
    ("classified", Build_KeywordData "Low" 8 "rising")
  ].

(** [self.keyword_performance_db], set once in [__init__]. *)
Definition keyword_performance_db : gmap string KeywordData :=
  _initialize_keyword_database.

(** The record [dict.get] falls back to for a keyword outside the catalogue. *)
Definition unknown_keyword : KeywordData :=
  {| competition := "Unknown"; relevance := 5; trend := "stable" |}.

(** The local table of [_get_replacement_suggestions]. *)
Definition replacements : gmap string (list string) :=
  list_to_map [
    ("political", ["government humor"; "civic satire"; "bureaucrat gift"]);
    ("funny", ["witty"; "sarcastic"; "humor"]);
    ("protest", ["resistance gear"; "activist apparel"; "dissent"]);
    ("t shirt", ["tee"; "shirt design"; "apparel"]);
    ("tshirt", ["tee"; "graphic shirt"; "statement shirt"]);
    ("beautiful", []);
    ("perfect", []);
    ("amazing", []);
    ("awesome", ["witty"; "clever"]);
    ("great", ["quality"; "premium"]);
    ("clothing", ["apparel"; "shirt"; "tee"]);
    ("cup", ["mug"; "drinkware"; "tumbler"]);
    ("present", ["gift"; "coworker gift"; "retirement gift"]);
    ("resist", ["resistance gear"; "activist"; "dissent"]);
    ("save democracy", ["democracy defender"; "civic engagement"; "voting rights"])
  ].

Definition _get_replacement_suggestions (keyword : string) : list string :=
  default [] (replacements !! keyword).

Definition _determine_action (keyword : string) (keyword_data : KeywordData)
    (frequency_ratio : float) : string * Reasoning :=
  let relevance := relevance keyword_data in
  let competition := competition keyword_data in
  let trend := trend keyword_data in
  (* Remove low-value keywords *)
  if relevance <=? 3 then ("Remove", LowRelevance relevance)
  (* Remove overused quality descriptors *)
  else if bool_decide (keyword ∈ ["beautiful"; "perfect"; "amazing"; "awesome"; "great"])
          && (relevance <=? 4)
  then ("Remove", QualityDescriptor)
  (* Replace declining high-competition keywords *)
  else if bool_decide (competition = "High") && bool_decide (trend = "declining")
          && (relevance <=? 7)
  then ("Replace", DecliningHighCompetition)
  (* Replace overused keywords (used in >80% of listings) *)
  else if flt (float_literal (8 # 10)) frequency_ratio && (relevance <=? 8)
  then ("Replace", Overused (fmul frequency_ratio (Finite 100)))
  (* Keep high-performing keywords *)
  else if (8 <=? relevance) && bool_decide (trend ∈ ["stable"; "rising"])
  then ("Keep", StrongPerformer relevance trend)
  (* Default to keep with optimization *)
  else ("Keep", ModeratePerformance).

Definition _analyze_single_keyword (keyword : string) (frequency total_listings : Z)
    : result KeywordAnalysis :=
  let keyword_clean := strip (lower keyword) in
  (* Get keyword data from database *)
  let keyword_data := default unknown_keyword (keyword_performance_db !! keyword_clean) in
  (* Calculate relevance score *)
  let relevance_score := Int (relevance keyword_data) in
  (* Adjust relevance based on frequency (over-usage penalty) *)
  frequency_ratio ← int_truediv frequency total_listings;
  relevance_score ←
    (if flt (float_literal (7 # 10)) frequency_ratio
     then x ← int_mul_float (relevance keyword_data) (float_literal (8 # 10)); Ok (Float x)
     else Ok relevance_score);
  (* Generate replacement suggestions *)
  let replacements := _get_replacement_suggestions keyword_clean in
  (* Determine action recommendation *)
  let '(action, reasoning) := _determine_action keyword_clean keyword_data frequency_ratio in
  Ok {| keyword := keyword;
        frequency_across_listings := frequency;
        estimated_competition := competition keyword_data;
        relevance_score := relevance_score;
        replacement_suggestions := replacements;
        action_recommendation := action;
        reasoning := reasoning |}.

(** *** The portfolio: listings, keyword frequencies, optimizations *)

(** A listing of the shop: a dictionary the agent reads with
    [get('title', ...)] and [get('tags', [])]. *)
Module Listing.
Record t : Type := {
  title : option string;
  tags : option (list string)
}.
End Listing.

Record KeywordOptimization : Type := {
  listing_title : string;
  current_keywords : list string;
  keywords_to_remove : list string;
  keywords_to_replace : gmap string string;
  keywords_to_add : list string;
  optimization_priority : string;
  expected_improvement : string
}.

(** [listing.get('tags', [])] *)
Definition tags_of (listing : Listing.t) : list string :=
  default [] (Listing.tags listing).

(** [keyword_frequency[keyword.lower()] += 1] on a [Counter], which reads a
    missing key as 0. *)
Definition count_keyword (keyword_frequency : gmap string Z) (keyword : string)
    : gmap string Z :=
  <[lower keyword := default 0 (keyword_frequency !! lower keyword) + 1]> keyword_frequency.

(** The first loop of [analyze_keyword_portfolio]: all the tags, in order,
    and how often each lower-cased tag occurs. *)
Definition collect_keywords (listings_data : list Listing.t)
    : list string * gmap string Z :=
  foldl (λ state listing,
           let keywords := tags_of listing in
           ((fst state ++ keywords)%list, foldl count_keyword (snd state) keywords))
        ([], ∅) listings_data.

(** The sort key [(x.relevance_score, -x.frequency_across_listings)]. *)
Definition sort_key (x : KeywordAnalysis) : number * Z :=
  (relevance_score x, - frequency_across_listings x).

(** Iterating over a Python [set] yields each element once, in an order the
    language leaves open; [iter] is that order. *)
Definition analyze_keyword_portfolio (iter : gset string -> list string)
    (listings_data : list Listing.t) : result (list KeywordAnalysis) :=
  (* Collect all keywords and count frequency *)
  let all_keywords := fst (collect_keywords listings_data) in
  let keyword_frequency := snd (collect_keywords listings_data) in
  (* Analyze each unique keyword *)
  let unique_keywords : gset string := list_to_set (lower <$> all_keywords) in
  keyword_analyses ←
    map_result (λ keyword,
                  _analyze_single_keyword keyword
                    (default 0 (keyword_frequency !! keyword))
                    (len listings_data))
               (iter unique_keywords);
  (* Sort by priority (relevance score + frequency consideration) *)
  Ok (snd <$> sorted_desc_by pair_lt ((λ x, (sort_key x, x)) <$> keyword_analyses)).

Definition _suggest_additional_keywords (title : string) (current_keywords : list string)
    : list string :=
  let title_lower := lower title in
  let current_lower := lower <$> current_keywords in
  let suggestions : list string := [] in
  (* Product-specific suggestions *)
  let suggestions :=
    if contains "opsec" title_lower && negb (bool_decide ("cybersecurity" ∈ current_lower))
    then (suggestions ++ ["cybersecurity"; "IT security"; "security humor"])%list
    else suggestions in
  let suggestions :=
    if contains "foxtrot" title_lower || contains "delta" title_lower
       || contains "tango" title_lower
    then (suggestions ++ ["military alphabet"; "nato phonetic"; "diplomat gift"])%list
    else suggestions in
  let suggestions :=
    if contains "bureaucrat" title_lower
    then (suggestions ++ ["civil servant"; "federal worker"; "government humor"])%list
    else suggestions in
  let suggestions :=
    if contains "public service" title_lower
    then (suggestions ++ ["civic engagement"; "democracy defender"; "public sector"])%list
    else suggestions in
  (* General political merchandise *)
  let suggestions :=
    if existsb (λ word, contains word title_lower) ["political"; "protest"; "resist"]
    then (suggestions ++ ["activist gear"; "statement piece"; "political art"])%list
    else suggestions in
  (* Product type additions *)
  let suggestions :=
    if contains "sticker" title_lower && negb (bool_decide ("decal" ∈ current_lower))
    then (suggestions ++ ["decal"])%list
    else suggestions in
  let suggestions :=
    if contains "shirt" title_lower || contains "tee" title_lower
    then (suggestions ++ ["graphic tee"; "statement shirt"; "political apparel"])%list
    else suggestions in
  let suggestions :=
    if contains "hat" title_lower || contains "cap" title_lower
    then (suggestions ++ ["political hat"; "statement cap"; "protest gear"])%list
    else suggestions in
  (* Remove duplicates and current keywords *)
  let unique_suggestions :=
    foldl (λ unique_suggestions suggestion,
             if negb (bool_decide (lower suggestion ∈ current_lower))
                && negb (bool_decide (suggestion ∈ unique_suggestions))
             then (unique_suggestions ++ [suggestion])%list
             else unique_suggestions)
          [] suggestions in
  take 5 unique_suggestions.

(** One turn of the loop of [optimize_listing_keywords] over the current
    keywords; the state is [(keywords_to_remove, keywords_to_replace)]. *)
Definition optimize_keyword (state : list string * gmap string string) (keyword : string)
    : result (list string * gmap string string) :=
  (* Single listing context *)
  analysis ← _analyze_single_keyword keyword 1 1;
  if bool_decide (action_recommendation analysis = "Remove")
  then Ok ((fst state ++ [keyword])%list, snd state)
  else if bool_decide (action_recommendation analysis = "Replace")
  then match replacement_suggestions analysis with
       | best_replacement :: _ => Ok (fst state, <[keyword := best_replacement]> (snd state))
       | [] => Ok state
       end
  else Ok state.

Definition optimize_listing_keywords (listing : Listing.t) : result KeywordOptimization :=
  let title := default "Unknown Listing" (Listing.title listing) in
  let current_keywords := tags_of listing in
  (* Analyze current keywords *)
  state ← fold_result optimize_keyword ([], ∅) current_keywords;
  let keywords_to_remove := fst state in
  let keywords_to_replace := snd state in
  (* Suggest additions based on listing content *)
  let additional_keywords := _suggest_additional_keywords title current_keywords in
  let keywords_to_add := take 3 additional_keywords in
  (* Calculate priority *)
  let total_changes :=
    len keywords_to_remove + Z.of_nat (size keywords_to_replace) + len keywords_to_add in
  let rating :=
    if 5 <=? total_changes then ("High", "25-40% improvement expected")
    else if 3 <=? total_changes then ("Medium", "15-25% improvement expected")
    else ("Low", "5-15% improvement expected") in
  Ok {| listing_title := title;
        current_keywords := current_keywords;
        keywords_to_remove := keywords_to_remove;
        keywords_to_replace := keywords_to_replace;
        keywords_to_add := keywords_to_add;
        optimization_priority := fst rating;
        expected_improvement := snd rating |}.

(** The lower-cased tags of the whole portfolio, as a set. *)
Definition portfolio_keywords (listings_data : list Listing.t) : gset string :=
  list_to_set (lower <$> (listings_data ≫= tags_of)).

Definition high_value_keywords : list string :=
  ["deep state"; "transparency"; "accountability"; "oversight";
   "whistleblower"; "classified"; "security clearance"; "insider";
   "diplomatic"; "intelligence"; "briefing"; "memo"].

Definition _identify_portfolio_gaps (listings_data : list Listing.t) : list string :=
  let all_keywords := portfolio_keywords listings_data in
  (* High-value keywords missing from portfolio *)
  let valuable_missing :=
    foldl (λ valuable_missing keyword,
             if bool_decide (keyword ∉ all_keywords)
             then (valuable_missing ++ [keyword])%list
             else valuable_missing)
          [] high_value_keywords in
  take 8 valuable_missing.

(** An entry of [quick_wins].  The [action] text is
    [f"Remove {n} low-value keywords"]; the model keeps [n]. *)
Module QuickWin.
Inductive text : Type :=
  | RemoveLowValue (count : Z).
Record t : Type := {
  listing : string;
  action : text;
  impact : string;
  effort : string
}.
End QuickWin.

Definition _identify_quick_wins (optimizations : list KeywordOptimization)
    : list QuickWin.t :=
  let quick_wins :=
    foldl (λ quick_wins opt,
             if bool_decide (optimization_priority opt ∈ ["High"; "Medium"])
                && (0 <? len (keywords_to_remove opt))
             then (quick_wins ++
                   [ {| QuickWin.listing :=
                          if 50 <? str_len (listing_title opt)
                          then str_take 50 (listing_title opt) +:+ "..."
                          else listing_title opt;
                        QuickWin.action :=
                          QuickWin.RemoveLowValue (len (keywords_to_remove opt));
                        QuickWin.impact := expected_improvement opt;
                        QuickWin.effort := "5 minutes" |} ])%list
             else quick_wins)
          [] optimizations in
  take 5 quick_wins.

(** The texts of [_generate_strategic_recommendations], with the counts
    interpolated into them. *)
Inductive Recommendation : Type :=
  | PortfolioCleanup (remove_count : Z)
  | KeywordModernization (replace_count : Z)
  | KeywordDiversification
  | TrendAlignment.

Definition _generate_strategic_recommendations (keyword_analyses : list KeywordAnalysis)
    : list Recommendation :=
  let recommendations : list Recommendation := [] in
  (* Count actions needed *)
  let remove_count :=
    len (filter (λ analysis, action_recommendation analysis = "Remove") keyword_analyses) in
  let replace_count :=
    len (filter (λ analysis, action_recommendation analysis = "Replace") keyword_analyses) in
  let recommendations :=
    if 5 <? remove_count
    then (recommendations ++ [PortfolioCleanup remove_count])%list
    else recommendations in
  let recommendations :=
    if 3 <? replace_count
    then (recommendations ++ [KeywordModernization replace_count])%list
    else recommendations in
  (* Check for overused keywords *)
  let overused :=
    filter (λ analysis, 10 < frequency_across_listings analysis) keyword_analyses in
  let recommendations :=
    match overused with
    | [] => recommendations
    | _ :: _ => (recommendations ++ [KeywordDiversification])%list
    end in
  (* Check for trend alignment *)
  (recommendations ++ [TrendAlignment])%list.

Record PortfolioSummary : Type := {
  total_listings : Z;
  total_unique_keywords : Z;
  avg_keywords_per_listing : number;
  high_priority_optimizations : Z
}.

Record PortfolioReport : Type := {
  portfolio_summary : PortfolioSummary;
  keyword_analyses : list KeywordAnalysis;
  listing_optimizations : list KeywordOptimization;
  portfolio_gaps : list string;
  quick_wins : list QuickWin.t;
  strategic_recommendations : list Recommendation
}.

Definition generate_portfolio_report (iter : gset string -> list string)
    (listings_data : list Listing.t) : result PortfolioReport :=
  keyword_analyses ← analyze_keyword_portfolio iter listings_data;
  listing_optimizations ← map_result optimize_listing_keywords listings_data;
  (* Portfolio-level insights *)
  let total_keywords := foldr Z.add 0 ((λ listing, len (tags_of listing)) <$> listings_data) in
  avg_keywords_per_listing ←
    match listings_data with
    | _ :: _ => x ← int_truediv total_keywords (len listings_data); Ok (Float x)
    | [] => Ok (Int 0)
    end;
  let high_priority_listings :=
    filter (λ opt, optimization_priority opt = "High") listing_optimizations in
  (* Identify portfolio gaps *)
  let portfolio_gaps := _identify_portfolio_gaps listings_data in
  Ok {| portfolio_summary :=
          {| total_listings := len listings_data;
             total_unique_keywords := Z.of_nat (size (portfolio_keywords listings_data));
             avg_keywords_per_listing := number_round1 avg_keywords_per_listing;
             high_priority_optimizations := len high_priority_listings |};
        keyword_analyses := keyword_analyses;
        listing_optimizations := listing_optimizations;
        portfolio_gaps := portfolio_gaps;
        quick_wins := _identify_quick_wins listing_optimizations;
        strategic_recommendations := _generate_strategic_recommendations keyword_analyses |}.

End KeywordOptimizer.

(** ** The market research agent *)

Module MarketResearch.
Import Binary64 Py.
Local Open Scope string_scope.
Local Open Scope Z_scope.

(** The [opp_data] dictionaries that describe a candidate opportunity. *)
Module Opp.
Record t : Type := {
  name : string;
  category : string;
  search_volume : Z;
  competition_level : string;
  avg_price : float;
  seasonal_factor : float;
  keywords : list string;
  skill_requirements : list string;
  resource_requirements : list string
}.
End Opp.

Record MarketOpportunity : Type := {
  name : string;
  category : string;
  search_volume : Z;
  competition_level : string;
  avg_price : float;
  seasonal_factor : float;
  keywords : list string;
  skill_requirements : list string;
  resource_requirements : list string;
  effort_score : Z;
  impact_score : Z;
  confidence_score : Z;
  timeline : string
}.

Record CapabilityProfile : Type := {
  skills : gset string;
  tools_available : gset string;
  tools_not_available : gset string;
  time_availability : gmap string Z;
  budget : float;
  learning_capacity : string
}.

(** The configuration dictionary, read from a JSON file or defaulted. *)
Record Config : Type := {
  excluded_categories : list string;
  preferred_categories : list string;
  effort_weights : gmap string float;
  impact_factors : gmap string float
}.

(** The attributes of an [EtsyMarketResearcher] that the scoring reads. *)
Record EtsyMarketResearcher : Type := {
  config : Config;
  capability_profile : CapabilityProfile
}.

Definition _default_config : Config :=
  {| excluded_categories :=
       ["woodworking"; "metalworking"; "glass blowing"; "pottery wheel";
        "jewelry casting"; "leather working"; "screen printing"];
     preferred_categories :=
       ["digital products"; "printables"; "simple crafts"; "planning";
        "stickers"; "cards"; "simple sewing"; "knitting"; "crochet"];
     effort_weights :=
       list_to_map [("research_time", float_literal (2 # 10));
                    ("skill_learning", float_literal (3 # 10));
                    ("material_cost", float_literal (2 # 10));
                    ("production_time", float_literal (3 # 10))];
     impact_factors :=
       list_to_map [("market_size", float_literal (4 # 10));
                    ("competition", float_literal (3 # 10));
                    ("profit_margin", float_literal (3 # 10))] |}.

Definition _load_capability_profile : CapabilityProfile :=
  {| skills :=
       list_to_set ["digital_design"; "basic_sewing"; "writing"; "planning"; "organization"];
     tools_available :=
       list_to_set ["computer"; "printer"; "basic_sewing_supplies"; "design_software"];
     tools_not_available :=
       list_to_set ["woodworking_tools"; "pottery_wheel"; "metalworking"; "advanced_machinery"];
     time_availability :=
       list_to_map [("quick_wins", 2); ("weekend_projects", 8); ("major_initiatives", 40)];
     budget := float_literal 200;
     learning_capacity := "Medium" |}.

(** The researcher built when the configuration file is absent. *)
Definition default_researcher : EtsyMarketResearcher :=
  {| config := _default_config; capability_profile := _load_capability_profile |}.

(** The simulated market data of [research_market_opportunities]. *)
Definition potential_opportunities : list Opp.t :=
  [ {| Opp.name := "Digital Planning Printables";
       Opp.category := "digital_products";
       Opp.search_volume := 5000;
       Opp.competition_level := "Medium";
       Opp.avg_price := float_literal (1250 # 100);
       Opp.seasonal_factor := float_literal (12 # 10);
       Opp.keywords := ["digital planner"; "printable planner"; "goal setting"; "productivity"];
       Opp.skill_requirements := ["digital_design"; "planning"];
       Opp.resource_requirements := ["design_software"; "time"] |};
    {| Opp.name := "Custom Wedding Stickers";
       Opp.category := "stickers";
       Opp.search_volume := 3200;
       Opp.competition_level := "High";
       Opp.avg_price := float_literal (875 # 100);
       Opp.seasonal_factor := float_literal (15 # 10);
       Opp.keywords := ["wedding stickers"; "custom labels"; "bridal shower"];
       Opp.skill_requirements := ["digital_design"; "customer_service"];
       Opp.resource_requirements := ["design_software"; "printer"; "sticker_paper"] |};
    {| Opp.name := "Handmade Baby Bibs";
       Opp.category := "sewing";
       Opp.search_volume := 2100;
       Opp.competition_level := "Low";
       Opp.avg_price := float_literal 15;
       Opp.seasonal_factor := float_literal 1;
       Opp.keywords := ["baby bib"; "handmade"; "personalized"; "organic"];
       Opp.skill_requirements := ["basic_sewing"; "pattern_following"];
       Opp.resource_requirements := ["sewing_machine"; "fabric"; "thread"] |};
    {| Opp.name := "Wooden Cutting Boards";
       Opp.category := "woodworking";
       Opp.search_volume := 4500;
       Opp.competition_level := "Medium";
       Opp.avg_price := float_literal 35;
       Opp.seasonal_factor := float_literal (13 # 10);
       Opp.keywords := ["cutting board"; "wooden"; "handmade"; "kitchen"];
       Opp.skill_requirements := ["woodworking"; "finishing"];
       Opp.resource_requirements := ["woodworking_tools"; "wood"; "workspace"] |} ].

Definition _is_opportunity_feasible (self : EtsyMarketResearcher) (opp_data : Opp.t) : bool :=
  (* Check if category is excluded *)
  if bool_decide (Opp.category opp_data ∈ excluded_categories (config self)) then false
  else
    (* Check skill requirements *)
    let required_skills : gset string := list_to_set (Opp.skill_requirements opp_data) in
    if negb (bool_decide (required_skills ⊆ skills (capability_profile self)))
       && bool_decide (learning_capacity (capability_profile self) = "Low")
       && (1 <? Z.of_nat (size (required_skills ∖ skills (capability_profile self))))
    then false
    else
      (* Check tool requirements *)
      let required_tools : gset string := list_to_set (Opp.resource_requirements opp_data) in
      if bool_decide (set_Exists (λ tool, tool ∈ tools_not_available (capability_profile self))
                                 required_tools)
      then false
      else true.

Definition _calculate_effort_score (self : EtsyMarketResearcher) (opp_data : Opp.t) : Z :=
  let base_effort := 2 in
  (* Skill gap penalty *)
  let required_skills : gset string := list_to_set (Opp.skill_requirements opp_data) in
  let missing_skills := required_skills ∖ skills (capability_profile self) in
  let base_effort := base_effort + Z.of_nat (size missing_skills) in
  (* Competition adjustment *)
  let base_effort :=
    if bool_decide (Opp.competition_level opp_data = "High") then base_effort + 1
    else if bool_decide (Opp.competition_level opp_data = "Low") then base_effort - 1
    else base_effort in
  (* Category preference bonus *)
  let base_effort :=
    if bool_decide (Opp.category opp_data ∈ preferred_categories (config self))
    then base_effort - 1
    else base_effort in
  Z.max 1 (Z.min 5 base_effort).

(** The literal dictionary [{"Low": 0, "Medium": -1, "High": -2}]. *)
Definition competition_penalties : gmap string Z :=
  list_to_map [("Low", 0); ("Medium", -1); ("High", -2)].

Definition _calculate_impact_score (self : EtsyMarketResearcher) (opp_data : Opp.t) : result Z :=
  (* Normalize search volume to 1-5 scale *)
  let volume_score := Z.min 5 (Z.max 1 (Opp.search_volume opp_data / 1000 + 1)) in
  (* Price impact *)
  price_tens ← float_floordiv_int (Opp.avg_price opp_data) 10;
  price_int ← int_of_float price_tens;
  let price_score := Z.min 5 (Z.max 1 price_int) in
  (* Seasonal boost *)
  seasonal ← float_mul_int (Opp.seasonal_factor opp_data) 3;
  seasonal_int ← int_of_float seasonal;
  let seasonal_score := Z.min 5 seasonal_int in
  (* Competition penalty *)
  competition_penalty ←
    match competition_penalties !! Opp.competition_level opp_data with
    | Some p => Ok p
    | None => Raise KeyError
    end;
  let impact := (volume_score + price_score + seasonal_score) / 3 + competition_penalty in
  Ok (Z.max 1 (Z.min 5 impact)).

Definition _calculate_confidence_score (self : EtsyMarketResearcher) (opp_data : Opp.t) : Z :=
  let confidence := 3 in
  (* Higher confidence for areas with existing skills *)
  let required_skills : gset string := list_to_set (Opp.skill_requirements opp_data) in
  let skill_overlap := Z.of_nat (size (required_skills ∩ skills (capability_profile self))) in
  let confidence := confidence + Z.min 2 skill_overlap in
  (* Lower confidence for highly competitive markets *)
  let confidence :=
    if bool_decide (Opp.competition_level opp_data = "High") then confidence - 1
    else confidence in
  Z.max 1 (Z.min 5 confidence).

Definition _determine_timeline (self : EtsyMarketResearcher) (effort_score : Z)
    (opp_data : Opp.t) : string :=
  if effort_score <=? 2 then "Quick Win"
  else if effort_score =? 3 then "Weekend Project"
  else if effort_score =? 4 then "Major Initiative"
  else "Long-term Strategy".

Definition _create_market_opportunity (self : EtsyMarketResearcher) (opp_data : Opp.t) : result MarketOpportunity :=
  let effort_score := _calculate_effort_score self opp_data in
  impact_score ← _calculate_impact_score self opp_data;
  let confidence_score := _calculate_confidence_score self opp_data in
  let timeline := _determine_timeline self effort_score opp_data in
  Ok {| name := Opp.name opp_data;
        category := Opp.category opp_data;
        search_volume := Opp.search_volume opp_data;
        competition_level := Opp.competition_level opp_data;
        avg_price := Opp.avg_price opp_data;
        seasonal_factor := Opp.seasonal_factor opp_data;
        keywords := Opp.keywords opp_data;
        skill_requirements := Opp.skill_requirements opp_data;
        resource_requirements := Opp.resource_requirements opp_data;
        effort_score := effort_score;
        impact_score := impact_score;
        confidence_score := confidence_score;
        timeline := timeline |}.

(** RICE priority score: (Reach x Impact x Confidence) / Effort. *)
Definition _calculate_priority_score (self : EtsyMarketResearcher)
    (opportunity : MarketOpportunity) : result float :=
  reach ← int_truediv (search_volume opportunity) 1000;
  let impact := impact_score opportunity in
  let confidence := confidence_score opportunity in
  let effort := effort_score opportunity in
  ri ← float_mul_int reach impact;
  ric ← float_mul_int ri confidence;
  float_truediv_int ric effort.

(** The opportunity [o] with its three scores replaced. *)
Definition with_scores (o : MarketOpportunity) (effort impact confidence : Z)
    : MarketOpportunity :=
  {| name := name o;
     category := category o;
     search_volume := search_volume o;
     competition_level := competition_level o;
     avg_price := avg_price o;
     seasonal_factor := seasonal_factor o;
     keywords := keywords o;
     skill_requirements := skill_requirements o;
     resource_requirements := resource_requirements o;
     effort_score := effort;
     impact_score := impact;
     confidence_score := confidence;
     timeline := timeline o |}.

(** [sorted(xs, key=..., reverse=True)] on keys computed beforehand: the
    stable sort by decreasing key; an element goes in front of the first
    one whose key is not greater than its own. *)
Fixpoint insert_desc {A : Type} (x : float * A) (l : list (float * A)) : list (float * A) :=
  match l with
  | [] => [x]
  | y :: l' => if flt (fst x) (fst y) then y :: insert_desc x l' else x :: l
  end.

Definition sorted_desc {A : Type} (l : list (float * A)) : list (float * A) :=
  foldr insert_desc [] l.

(** The loop and the final [sorted] of [research_market_opportunities], on
    a given list of candidates. *)
Definition research_candidates (self : EtsyMarketResearcher) (candidates : list Opp.t) : result (list MarketOpportunity) :=
  (* Filter out opportunities that require unavailable capabilities *)
  opportunities ← map_result (_create_market_opportunity self)
                    (filter (λ opp_data, _is_opportunity_feasible self opp_data = true)
                            candidates);
  keyed ← map_result (λ x, k ← _calculate_priority_score self x; Ok (k, x)) opportunities;
  Ok (snd <$> sorted_desc keyed).

Definition research_market_opportunities (self : EtsyMarketResearcher)
    : result (list MarketOpportunity) :=
  research_candidates self potential_opportunities.

(** The four timeline buckets of [generate_opportunity_report], empty. *)
Definition empty_buckets : gmap string (list MarketOpportunity) :=
  list_to_map [("Quick Win", []); ("Weekend Project", []);
               ("Major Initiative", []); ("Long-term Strategy", [])].

(** [categorized[opp.timeline].append(opp)] *)
Definition append_to_bucket (categorized : gmap string (list MarketOpportunity))
    (opp : MarketOpportunity) : result (gmap string (list MarketOpportunity)) :=
  match categorized !! timeline opp with
  | Some opps => Ok (<[timeline opp := (opps ++ [opp])%list]> categorized)
  | None => Raise KeyError
  end.

(** The grouping loop of [generate_opportunity_report]. *)
Fixpoint categorize_from (categorized : gmap string (list MarketOpportunity))
    (opportunities : list MarketOpportunity) : result (gmap string (list MarketOpportunity)) :=
  match opportunities with
  | [] => Ok categorized
  | opp :: rest =>
      categorized' ← append_to_bucket categorized opp;
      categorize_from categorized' rest
  end.

Definition categorize (opportunities : list MarketOpportunity)
    : result (gmap string (list MarketOpportunity)) :=
  categorize_from empty_buckets opportunities.

(** What the report shows of each bucket: [opps[:5]]. *)
Definition top_of_each (categorized : gmap string (list MarketOpportunity))
    : gmap string (list MarketOpportunity) :=
  take 5 <$> categorized.

(** *** The opportunity report *)

(** An entry of [categorized_opportunities]. *)
Module Entry.
Record t : Type := {
  name : string;
  priority_score : float;
  effort_score : Z;
  impact_score : Z;
  confidence_score : Z;
  avg_price : float;
  competition : string;
  skills_needed : list string;
  resources_needed : list string
}.
End Entry.

(** An entry of [seasonal_recommendations]. *)
Module Seasonal.
Record t : Type := {
  name : string;
  seasonal_factor : float;
  keywords : list string
}.
End Seasonal.

(** An entry of [capability_gaps]: a skill gap carries [learning_effort], a
    tool gap [acquisition_cost]. *)
Module Gap.
Record t : Type := {
  type : string;
  name : string;
  opportunities_unlocked : Z;
  learning_effort : option string;
  acquisition_cost : option string
}.
End Gap.

(** An entry of [next_actions].  The [action] text is an f-string around
    the name of the opportunity; the model keeps which text it is. *)
Module Action.
Inductive text : Type :=
  | Research (name : string)
  | CreatePrototype (name : string).
Record t : Type := {
  priority : Z;
  opportunity : string;
  action : text;
  timeline : string;
  estimated_time : string
}.
End Action.

Module Report.
Record t : Type := {
  generated_date : string;
  total_opportunities : Z;
  categorized_opportunities : gmap string (list Entry.t);
  seasonal_recommendations : list Seasonal.t;
  capability_gaps : list Gap.t;
  next_actions : list Action.t
}.
End Report.

(** The skills and the tools some opportunity asks for: the first loop of
    [_identify_capability_gaps]. *)
Definition required_capabilities (opportunities : list MarketOpportunity)
    : gset string * gset string :=
  foldl (λ state opp,
           (fst state ∪ list_to_set (skill_requirements opp),
            snd state ∪ list_to_set (resource_requirements opp)))
        (∅, ∅) opportunities.

(** Iterating over a Python [set] yields each element once, in an order the
    language leaves open; [iter] is that order. *)
Definition _identify_capability_gaps (self : EtsyMarketResearcher)
    (iter : gset string -> list string) (opportunities : list MarketOpportunity)
    : list Gap.t :=
  let all_skills := fst (required_capabilities opportunities) in
  let all_tools := snd (required_capabilities opportunities) in
  let missing_skills := all_skills ∖ skills (capability_profile self) in
  let missing_tools := all_tools ∖ tools_available (capability_profile self) in
  let gaps : list Gap.t := [] in
  let gaps :=
    foldl (λ gaps skill,
             (* Count how many opportunities this skill would unlock *)
             let unlock_count :=
               len (filter (λ opp, skill ∈ skill_requirements opp) opportunities) in
             (gaps ++ [ {| Gap.type := "skill";
                           Gap.name := skill;
                           Gap.opportunities_unlocked := unlock_count;
                           Gap.learning_effort := Some "Medium";
                           Gap.acquisition_cost := None |} ])%list)
          gaps (iter missing_skills) in
  let gaps :=
    foldl (λ gaps tool,
             if bool_decide (tool ∉ tools_not_available (capability_profile self))
             then
               let unlock_count :=
                 len (filter (λ opp, tool ∈ resource_requirements opp) opportunities) in
               (gaps ++ [ {| Gap.type := "tool";
                             Gap.name := tool;
                             Gap.opportunities_unlocked := unlock_count;
                             Gap.learning_effort := None;
                             Gap.acquisition_cost := Some "Variable" |} ])%list
             else gaps)
          gaps (iter missing_tools) in
  snd <$> sorted_desc_by Z.ltb ((λ x, (Gap.opportunities_unlocked x, x)) <$> gaps).

Definition _generate_next_actions (self : EtsyMarketResearcher)
    (top_opportunities : list MarketOpportunity) : list Action.t :=
  foldl (λ actions entry,
           let i := fst entry in
           let opp := snd entry in
           let actions :=
             (actions ++ [ {| Action.priority := i + 1;
                              Action.opportunity := name opp;
                              Action.action := Action.Research (name opp);
                              Action.timeline := "This week";
                              Action.estimated_time := "2-3 hours" |} ])%list in
           if bool_decide (timeline opp = "Quick Win")
           then (actions ++ [ {| Action.priority := i + 1;
                                 Action.opportunity := name opp;
                                 Action.action := Action.CreatePrototype (name opp);
                                 Action.timeline := "Next week";
                                 Action.estimated_time := "4-6 hours" |} ])%list
           else actions)
        [] (enumerate (take 3 top_opportunities)).

(** The dictionary the report shows for an opportunity of a bucket. *)
Definition report_entry (self : EtsyMarketResearcher) (opp : MarketOpportunity)
    : result Entry.t :=
  priority_score ← _calculate_priority_score self opp;
  Ok {| Entry.name := name opp;
        Entry.priority_score := priority_score;
        Entry.effort_score := effort_score opp;
        Entry.impact_score := impact_score opp;
        Entry.confidence_score := confidence_score opp;
        Entry.avg_price := avg_price opp;
        Entry.competition := competition_level opp;
        Entry.skills_needed := skill_requirements opp;
        Entry.resources_needed := resource_requirements opp |}.

(** The keys of [categorized], in the order of the dictionary. *)
Definition timelines : list string :=
  ["Quick Win"; "Weekend Project"; "Major Initiative"; "Long-term Strategy"].

(** The dictionary comprehension over [categorized.items()]: the top 5 of
    each bucket, bucket after bucket. *)
Definition report_buckets (self : EtsyMarketResearcher)
    (categorized : gmap string (list MarketOpportunity))
    : result (gmap string (list Entry.t)) :=
  fold_result (λ shown timeline,
                 entries ← map_result (report_entry self)
                             (take 5 (default [] (categorized !! timeline)));
                 Ok (<[timeline := entries]> shown))
              ∅ timelines.

(** [now] is [datetime.datetime.now().isoformat()]. *)
Definition generate_opportunity_report (self : EtsyMarketResearcher)
    (iter : gset string -> list string) (now : string)
    (opportunities : list MarketOpportunity) : result Report.t :=
  (* Categorize opportunities by timeline *)
  categorized ← categorize opportunities;
  (* Generate seasonal recommendations *)
  let seasonal_opps :=
    filter (λ opp, flt (float_literal (11 # 10)) (seasonal_factor opp) = true)
           opportunities in
  categorized_opportunities ← report_buckets self categorized;
  Ok {| Report.generated_date := now;
        Report.total_opportunities := len opportunities;
        Report.categorized_opportunities := categorized_opportunities;
        Report.seasonal_recommendations :=
          (λ opp, {| Seasonal.name := name opp;
                     Seasonal.seasonal_factor := seasonal_factor opp;
                     Seasonal.keywords := keywords opp |}) <$> take 3 seasonal_opps;
        Report.capability_gaps := _identify_capability_gaps self iter opportunities;
        Report.next_actions := _generate_next_actions self (take 5 opportunities) |}.

End MarketResearch.

(** ** Candidates the scoring accepts

    The floats of a candidate are binary64 values; the scoring converts
    [avg_price // 10] and [seasonal_factor * 3] to [int], which needs both
    to be finite, and divides [search_volume] by 1000 as a float. *)

Module Candidate.
Import Binary64 MarketResearch.
Local Open Scope string_scope.

(** A finite binary64 whose [k]-fold is still within the binary64 range. *)
Definition in_range (k : Q) (x : float) : Prop :=
  match x with
  | Finite q => (Qabs q * k <= inject_Z max_float)%Q
  | _ => False
  end.

Definition valid_competition (opp : Opp.t) : Prop :=
  Opp.competition_level opp ∈ ["Low"; "Medium"; "High"].

Definition valid_floats (opp : Opp.t) : Prop :=
  in_range 1 (Opp.avg_price opp) ∧ in_range 3 (Opp.seasonal_factor opp).

Definition valid_volume (opp : Opp.t) : Prop :=
  (Z.abs (Opp.search_volume opp) <= max_float * 1000)%Z.

Definition valid (opp : Opp.t) : Prop :=
  valid_competition opp ∧ valid_floats opp ∧ valid_volume opp.

(** Scoring and ranking [opp] raises nothing. *)
Definition scored (self : EtsyMarketResearcher) (opp : Opp.t) : Prop :=
  exists mo p, _create_market_opportunity self opp = Ok mo /\
               _calculate_priority_score self mo = Ok p.

End Candidate.

(** ** Notions the properties are stated with *)

Module Notions.
Import Binary64 Py KeywordOptimizer.
Local Open Scope string_scope.
Local Open Scope Z_scope.

(** No element of the list has a key below the key of a later one. *)
Definition descending {K A : Type} (lt : K -> K -> bool) (l : list (K * A)) : Prop :=
  forall i j x y, (i < j)%nat -> l !! i = Some x -> l !! j = Some y ->
                  lt (fst x) (fst y) = false.

Definition not_nan (x : float) : Prop := x <> NaN.

(** The float a number compares as. *)
Definition value (a : number) : float :=
  match a with
  | Int n => Finite (inject_Z n)
  | Float x => x
  end.

(** The keys of the keyword sort whose first component is a number. *)
Definition valid_key (k : number * Z) : Prop := not_nan (value (fst k)).

(** How often [k] occurs among the lower-cased [keywords]. *)
Definition occurrences (k : string) (keywords : list string) : Z :=
  len (filter (λ t, lower t = k) keywords).

(** The sum of a list of integers. *)
Definition total (xs : list Z) : Z := foldr Z.add 0 xs.

(** The catalogue entry the analysis reads for a keyword. *)
Definition keyword_data (keyword : string) : KeywordData :=
  default unknown_keyword (keyword_performance_db !! strip (lower keyword)).

(** The action for a keyword that all the listings use: removed up to
    relevance 3, replaced up to 8, kept above. *)
Definition verdict (keyword : string) : string :=
  if relevance (keyword_data keyword) <=? 3 then "Remove"
  else if relevance (keyword_data keyword) <=? 8 then "Replace"
  else "Keep".

(** The replacement recorded for such a keyword, if any. *)
Definition replacement_of (keyword : string) : option string :=
  if bool_decide (verdict keyword = "Replace")
  then head (_get_replacement_suggestions (strip (lower keyword)))
  else None.

Definition record_replacement (m : gmap string string) (keyword : string)
    : gmap string string :=
  match replacement_of keyword with
  | Some r => <[keyword := r]> m
  | None => m
  end.

(** The gap recorded for a skill, and for a tool. *)
Definition skill_gap (opps : list MarketResearch.MarketOpportunity) (skill : string)
    : MarketResearch.Gap.t :=
  {| MarketResearch.Gap.type := "skill";
     MarketResearch.Gap.name := skill;
     MarketResearch.Gap.opportunities_unlocked :=
       len (filter (λ opp, skill ∈ MarketResearch.skill_requirements opp) opps);
     MarketResearch.Gap.learning_effort := Some "Medium";
     MarketResearch.Gap.acquisition_cost := None |}.

Definition tool_gap (opps : list MarketResearch.MarketOpportunity) (tool : string)
    : MarketResearch.Gap.t :=
  {| MarketResearch.Gap.type := "tool";
     MarketResearch.Gap.name := tool;
     MarketResearch.Gap.opportunities_unlocked :=
       len (filter (λ opp, tool ∈ MarketResearch.resource_requirements opp) opps);
     MarketResearch.Gap.learning_effort := None;
     MarketResearch.Gap.acquisition_cost := Some "Variable" |}.

(** The actions recorded for the opportunity at position [i]: the research
    and, for a quick win, the prototype. *)
Definition actions_for (entry : Z * MarketResearch.MarketOpportunity)
    : list MarketResearch.Action.t :=
  let i := fst entry in
  let opp := snd entry in
  {| MarketResearch.Action.priority := i + 1;
     MarketResearch.Action.opportunity := MarketResearch.name opp;
     MarketResearch.Action.action := MarketResearch.Action.Research (MarketResearch.name opp);
     MarketResearch.Action.timeline := "This week";
     MarketResearch.Action.estimated_time := "2-3 hours" |}
  :: (if bool_decide (MarketResearch.timeline opp = "Quick Win")
      then [ {| MarketResearch.Action.priority := i + 1;
                MarketResearch.Action.opportunity := MarketResearch.name opp;
                MarketResearch.Action.action :=
                  MarketResearch.Action.CreatePrototype (MarketResearch.name opp);
                MarketResearch.Action.timeline := "Next week";
                MarketResearch.Action.estimated_time := "4-6 hours" |} ]
      else []).

End Notions.

(** ** The statements of the specification

    Definitions that follow the words of the specification, to be compared
    with the definitions above, which follow the code. *)

Module Spec.
Import Binary64 Py.
Local Open Scope string_scope.
Local Open Scope Z_scope.

(** "[clamp(x, lo, hi)]" *)
Definition clamp (x lo hi : Z) : Z := Z.max lo (Z.min hi x).

Definition Qclamp (x lo hi : Q) : Q :=
  if Qle_bool x lo then lo else if Qle_bool hi x then hi else x.

(** "the fixed keyword-to-alternatives table entry for the lower-cased
    keyword (empty list if the keyword is absent from the table)" *)
Definition table_entry_for_lowercased (keyword : string) : list string :=
  default [] (KeywordOptimizer.replacements !! lower keyword).

(** "excluded ... if and only if at least one of the following holds: its
    category is in the excluded-category set; its required tools intersect
    the unavailable-tools set; or the learning capacity is Low and the
    candidate has more than one required skill missing from the profile's
    skills" *)
Definition excluded (self : MarketResearch.EtsyMarketResearcher)
    (candidate : MarketResearch.Opp.t) : Prop :=
  let profile := MarketResearch.capability_profile self in
  let required_tools : gset string :=
    list_to_set (MarketResearch.Opp.resource_requirements candidate) in
  let required_skills : gset string :=
    list_to_set (MarketResearch.Opp.skill_requirements candidate) in
  MarketResearch.Opp.category candidate
    ∈ MarketResearch.excluded_categories (MarketResearch.config self)
  ∨ required_tools ∩ MarketResearch.tools_not_available profile ≠ ∅
  ∨ (MarketResearch.learning_capacity profile = "Low"
     ∧ (1 < size (required_skills ∖ MarketResearch.skills profile))%nat).

(** "competitionPenalty is 0 for Low, -1 for Medium, -2 for High" *)
Definition competitionPenalty (competition_level : string) : option Z :=
  if bool_decide (competition_level = "Low") then Some 0
  else if bool_decide (competition_level = "Medium") then Some (-1)
  else if bool_decide (competition_level = "High") then Some (-2)
  else None.

(** "[clamp((volumeScore + priceScore + seasonalScore) // 3 +
    competitionPenalty, 1, 5)], where [volumeScore = clamp(search_volume //
    1000 + 1, 1, 5)], [priceScore = clamp(avg_price // 10, 1, 5)],
    [seasonalScore = clamp(seasonal_factor * 3, 0, 5)]".  The quotient
    [avg_price // 10] and the product [seasonal_factor * 3] are those of
    the floats; the formula is defined where both are finite. *)
Definition impact_formula (candidate : MarketResearch.Opp.t) : option Z :=
  match float_floordiv_int (MarketResearch.Opp.avg_price candidate) 10,
        float_mul_int (MarketResearch.Opp.seasonal_factor candidate) 3,
        competitionPenalty (MarketResearch.Opp.competition_level candidate) with
  | Ok (Finite price_tens), Ok (Finite seasonal), Some penalty =>
      let volumeScore :=
        clamp (MarketResearch.Opp.search_volume candidate / 1000 + 1) 1 5 in
      let priceScore := Qclamp price_tens 1 5 in
      let seasonalScore := Qclamp seasonal 0 5 in
      Some (clamp (Qfloor ((inject_Z volumeScore + priceScore + seasonalScore) / 3)
                   + penalty) 1 5)
  | _, _, _ => None
  end.

(** "QuickWin", "WeekendProject", "MajorInitiative", "LongTermStrategy" *)
Inductive timeline_bucket : Set :=
  | QuickWin
  | WeekendProject
  | MajorInitiative
  | LongTermStrategy.

(** The text the code uses for each bucket. *)
Definition bucket_name (b : timeline_bucket) : string :=
  match b with
  | QuickWin => "Quick Win"
  | WeekendProject => "Weekend Project"
  | MajorInitiative => "Major Initiative"
  | LongTermStrategy => "Long-term Strategy"
  end.

End Spec.

(* ===================================================================== *)
(** * Part II. Supporting lemmas                                           *)
(* ===================================================================== *)

(** ** Rounding to binary64 *)

Module Binary64Facts.
Import Binary64.
Local Open Scope Q_scope.


Lemma pow2_pos e : 0 < pow2 e.
Proof. apply Qpower_0_lt. reflexivity. Qed.

Lemma pow2_add a b : pow2 (a + b) == pow2 a * pow2 b.
Proof. apply Qpower_plus. discriminate. Qed.

Lemma pow2_Z n : (0 <= n)%Z -> pow2 n == inject_Z (2 ^ n).
Proof. intros H. unfold pow2. now rewrite Zpower_Qpower. Qed.

Lemma pow2_le a b : (a <= b)%Z -> pow2 a <= pow2 b.
Proof. intros H. apply Qpower_le_compat_l; [exact H | discriminate]. Qed.

Lemma pow2_lt_inv a b : pow2 a < pow2 b -> (a < b)%Z.
Proof. intros H. apply (Qpower_lt_compat_l_inv 2); [exact H | reflexivity]. Qed.

Lemma ilog2_spec x : 0 < x -> pow2 (ilog2 x) <= x /\ x < pow2 (ilog2 x + 1).
Proof.
  intros Hx. destruct x as [n d]. unfold ilog2. cbn [Qnum Qden].
  assert (Hn : (0 < n)%Z) by (unfold Qlt in Hx; cbn in Hx; lia).
  set (ln := Z.log2 n). set (ld := Z.log2 (Zpos d)).
  pose proof (Z.log2_nonneg n) as Hln0. pose proof (Z.log2_nonneg (Zpos d)) as Hld0.
  destruct (Z.log2_spec n Hn) as [Hn1 Hn2].
  destruct (Z.log2_spec (Zpos d) eq_refl) as [Hd1 Hd2].
  fold ln in Hn1, Hn2, Hln0. fold ld in Hd1, Hd2, Hld0.
  assert (Hlow : pow2 (ln - ld - 1) < n # d).
  { assert (E : pow2 ln == pow2 (ln - ld - 1) * pow2 (ld + 1)).
    { rewrite <- pow2_add. now replace (ln - ld - 1 + (ld + 1))%Z with ln by lia. }
    rewrite (pow2_Z ln), (pow2_Z (ld + 1)) in E by lia.
    pose proof (pow2_pos (ln - ld - 1)) as Hp.
    revert E Hp. generalize (pow2 (ln - ld - 1)). intros [a b] E Hp.
    unfold Qeq, Qlt in *. cbn in *. nia. }
  assert (Hhigh : n # d < pow2 (ln - ld + 1)).
  { assert (E : pow2 (ln + 1) == pow2 (ln - ld + 1) * pow2 ld).
    { rewrite <- pow2_add. now replace (ln - ld + 1 + ld)%Z with (ln + 1)%Z by lia. }
    rewrite (pow2_Z (ln + 1)), (pow2_Z ld) in E by lia.
    pose proof (pow2_pos (ln - ld + 1)) as Hp.
    revert E Hp. generalize (pow2 (ln - ld + 1)). intros [a b] E Hp.
    unfold Qeq, Qlt in *. cbn in *. nia. }
  destruct (Qle_bool (pow2 (ln - ld)) (n # d)) eqn:E.
  - apply Qle_bool_iff in E. split; [exact E | exact Hhigh].
  - split.
    + apply Qlt_le_weak. exact Hlow.
    + replace (ln - ld - 1 + 1)%Z with (ln - ld)%Z by lia.
      apply Qnot_le_lt. intros H. apply Qle_bool_iff in H. congruence.
Qed.

Lemma ilog2_mono x y : 0 < x -> x <= y -> (ilog2 x <= ilog2 y)%Z.
Proof.
  intros Hx Hxy.
  destruct (ilog2_spec x Hx) as [Hx1 _].
  destruct (ilog2_spec y (Qlt_le_trans _ _ _ Hx Hxy)) as [_ Hy2].
  assert (H : pow2 (ilog2 x) < pow2 (ilog2 y + 1)).
  { eapply Qle_lt_trans; [exact Hx1 |]. eapply Qle_lt_trans; [exact Hxy | exact Hy2]. }
  apply pow2_lt_inv in H. lia.
Qed.

Lemma ilog2_lt_pow2 x k : 0 < x -> x < pow2 k -> (ilog2 x < k)%Z.
Proof.
  intros Hx H. destruct (ilog2_spec x Hx) as [H1 _].
  apply pow2_lt_inv. eapply Qle_lt_trans; eassumption.
Qed.

Lemma ilog2_ge_pow2 x k : pow2 k <= x -> (k <= ilog2 x)%Z.
Proof.
  intros H.
  assert (Hx : 0 < x) by (eapply Qlt_le_trans; [apply pow2_pos | exact H]).
  destruct (ilog2_spec x Hx) as [_ H2].
  assert (H3 : pow2 k < pow2 (ilog2 x + 1)) by (eapply Qle_lt_trans; eassumption).
  apply pow2_lt_inv in H3. lia.
Qed.

Lemma rexp_mono x y : 0 < x -> x <= y -> (rexp x <= rexp y)%Z.
Proof. intros Hx Hxy. unfold rexp. pose proof (ilog2_mono x y Hx Hxy). lia. Qed.

(** Round-to-nearest-even on rationals. *)

Lemma rne_cases q : rne q = Qfloor q \/ rne q = (Qfloor q + 1)%Z.
Proof.
  unfold rne. destruct (Qcompare _ _); [destruct (Z.even _) | |]; auto.
Qed.

Lemma rne_ge_Z q n : inject_Z n <= q -> (n <= rne q)%Z.
Proof.
  intros H. apply Qfloor_resp_le in H. rewrite Qfloor_Z in H.
  destruct (rne_cases q) as [-> | ->]; lia.
Qed.

Lemma rne_le_Z q n : q <= inject_Z n -> (rne q <= n)%Z.
Proof.
  intros H. pose proof (Qfloor_le q) as Hf. pose proof (Qlt_floor q) as Hc.
  assert (Hfn : (Qfloor q <= n)%Z).
  { apply Qfloor_resp_le in H. now rewrite Qfloor_Z in H. }
  destruct (Z.eq_dec (Qfloor q) n) as [E | NE].
  - assert (Hq : q == inject_Z (Qfloor q)).
    { apply Qle_antisym; [rewrite E; exact H | exact Hf]. }
    unfold rne.
    assert (Hc2 : Qcompare (q - inject_Z (Qfloor q)) (1 # 2) = Lt).
    { apply (proj1 (Qlt_alt _ _)). lra. }
    rewrite Hc2. lia.
  - destruct (rne_cases q) as [-> | ->]; lia.
Qed.

Lemma rne_Z n : rne (inject_Z n) = n.
Proof.
  apply Z.le_antisymm; [apply rne_le_Z | apply rne_ge_Z]; apply Qle_refl.
Qed.

Lemma rne_mono p q : p <= q -> (rne p <= rne q)%Z.
Proof.
  intros H. pose proof (Qfloor_resp_le _ _ H) as Hf.
  destruct (Z.eq_dec (Qfloor p) (Qfloor q)) as [E | NE].
  - unfold rne. rewrite <- E.
    destruct (Qcompare_spec (p - inject_Z (Qfloor p)) (1 # 2)) as [H1 | H1 | H1];
      destruct (Qcompare_spec (q - inject_Z (Qfloor p)) (1 # 2)) as [H2 | H2 | H2];
      try destruct (Z.even (Qfloor p)); try lia; exfalso; lra.
  - transitivity (Qfloor p + 1)%Z.
    + destruct (rne_cases p) as [-> | ->]; lia.
    + destruct (rne_cases q) as [-> | ->]; lia.
Qed.

Lemma rne_nonneg q : 0 <= q -> (0 <= rne q)%Z.
Proof. intros H. apply rne_ge_Z. exact H. Qed.

(** Rounding of positive rationals to binary64. *)

Lemma round_pos_nonneg x : 0 <= x -> 0 <= round_pos x.
Proof.
  intros Hx. unfold round_pos. pose proof (pow2_pos (rexp x)) as Hp.
  apply Qmult_le_0_compat; [| lra].
  change 0 with (inject_Z 0). rewrite <- Zle_Qle. apply rne_nonneg.
  apply Qle_shift_div_l; [exact Hp | lra].
Qed.

Lemma round_pos_le_repr x n k :
  0 < x -> x <= inject_Z n * pow2 k -> (rexp x <= k)%Z ->
  round_pos x <= inject_Z n * pow2 k.
Proof.
  intros Hx Hle Hk. unfold round_pos.
  set (e := rexp x) in *. pose proof (pow2_pos e) as Hp.
  assert (E : pow2 k == inject_Z (2 ^ (k - e)) * pow2 e).
  { rewrite <- pow2_Z by lia. rewrite <- pow2_add. now replace (k - e + e)%Z with k by lia. }
  assert (Hm : (rne (x / pow2 e) <= n * 2 ^ (k - e))%Z).
  { apply rne_le_Z. apply Qle_shift_div_r; [exact Hp |].
    rewrite inject_Z_mult, <- Qmult_assoc, <- E. exact Hle. }
  rewrite E, Qmult_assoc, <- inject_Z_mult.
  apply Qmult_le_compat_r; [| lra]. now rewrite <- Zle_Qle.
Qed.

Lemma round_pos_ge_repr x n k :
  0 < x -> inject_Z n * pow2 k <= x -> (rexp x <= k)%Z ->
  inject_Z n * pow2 k <= round_pos x.
Proof.
  intros Hx Hle Hk. unfold round_pos.
  set (e := rexp x) in *. pose proof (pow2_pos e) as Hp.
  assert (E : pow2 k == inject_Z (2 ^ (k - e)) * pow2 e).
  { rewrite <- pow2_Z by lia. rewrite <- pow2_add. now replace (k - e + e)%Z with k by lia. }
  assert (Hm : (n * 2 ^ (k - e) <= rne (x / pow2 e))%Z).
  { apply rne_ge_Z. apply Qle_shift_div_l; [exact Hp |].
    rewrite inject_Z_mult, <- Qmult_assoc, <- E. exact Hle. }
  rewrite E, Qmult_assoc, <- inject_Z_mult.
  apply Qmult_le_compat_r; [| lra]. now rewrite <- Zle_Qle.
Qed.

Lemma round_pos_mono x y : 0 < x -> x <= y -> round_pos x <= round_pos y.
Proof.
  intros Hx Hxy. assert (Hy : 0 < y) by lra.
  pose proof (rexp_mono x y Hx Hxy) as He.
  destruct (Z.eq_dec (rexp x) (rexp y)) as [E | NE].
  - unfold round_pos. rewrite E. pose proof (pow2_pos (rexp y)) as Hp.
    apply Qmult_le_compat_r; [| lra]. rewrite <- Zle_Qle. apply rne_mono.
    apply Qmult_le_compat_r; [exact Hxy |]. apply Qlt_le_weak, Qinv_lt_0_compat, Hp.
  - (* x lies in a lower binade than y: 2^L separates them *)
    set (L := ilog2 y).
    assert (HL : rexp y = (L - 52)%Z) by (unfold rexp in *; fold L; lia).
    assert (Hxl : (ilog2 x < L)%Z) by (unfold rexp in *; fold L in He, NE |- *; lia).
    destruct (ilog2_spec x Hx) as [_ Hx2]. destruct (ilog2_spec y Hy) as [Hy1 _].
    fold L in Hy1.
    assert (Hb : x <= pow2 L).
    { apply Qlt_le_weak. eapply Qlt_le_trans; [exact Hx2 |]. apply pow2_le. lia. }
    apply Qle_trans with (inject_Z 1 * pow2 L).
    + apply round_pos_le_repr; [exact Hx | | ].
      * change (inject_Z 1) with 1. lra.
      * unfold rexp in *. fold L in He, NE. lia.
    + assert (E : inject_Z 1 * pow2 L == inject_Z (2 ^ 52) * pow2 (L - 52)).
      { rewrite <- pow2_Z by lia. rewrite <- pow2_add.
        replace (52 + (L - 52))%Z with L by lia. change (inject_Z 1) with 1. lra. }
      rewrite E. apply round_pos_ge_repr; [exact Hy | | lia].
      rewrite <- E. change (inject_Z 1) with 1. lra.
Qed.


End Binary64Facts.

(** ** Rounding: exactness, finiteness, monotonicity *)

Module RoundFacts.
Import Binary64 Binary64Facts.
Local Open Scope Q_scope.

Lemma round_pos_repr x n k :
  0 < x -> x == inject_Z n * pow2 k -> (rexp x <= k)%Z -> round_pos x == x.
Proof.
  intros Hx E Hk. apply Qle_antisym.
  - rewrite E at 2. apply round_pos_le_repr; [exact Hx | rewrite E; apply Qle_refl | exact Hk].
  - rewrite E at 1. apply round_pos_ge_repr; [exact Hx | rewrite E; apply Qle_refl | exact Hk].
Qed.

Lemma round_not_nan x : round x <> NaN.
Proof.
  unfold round, overflow.
  destruct (Qcompare x 0); [discriminate | |];
    destruct (Qle_bool _ _); discriminate.
Qed.

Lemma round_nonneg x : 0 <= x -> nonneg (round x).
Proof.
  intros Hx. unfold round.
  destruct (Qcompare_spec x 0) as [E | L | G].
  - cbn. apply Qle_refl.
  - exfalso. lra.
  - unfold overflow. destruct (Qle_bool _ _); cbn; [reflexivity |].
    rewrite Qred_correct. apply round_pos_nonneg. exact Hx.
Qed.

Lemma pow2_1024 : pow2 1024 == inject_Z (max_float + 2 ^ 971).
Proof. rewrite pow2_Z by lia. reflexivity. Qed.

Lemma rexp_le_971 x : 0 < x -> x <= inject_Z max_float -> (rexp x <= 971)%Z.
Proof.
  intros Hx Hle. unfold rexp.
  assert (H : (ilog2 x < 1024)%Z).
  { apply ilog2_lt_pow2; [exact Hx |]. rewrite pow2_1024.
    eapply Qle_lt_trans; [exact Hle |]. rewrite <- Zlt_Qlt. unfold max_float. lia. }
  lia.
Qed.

Lemma round_pos_le_max x :
  0 < x -> x <= inject_Z max_float -> round_pos x <= inject_Z max_float.
Proof.
  intros Hx Hle.
  assert (E : inject_Z max_float == inject_Z (2 ^ 53 - 1) * pow2 971).
  { rewrite pow2_Z by lia. rewrite <- inject_Z_mult. reflexivity. }
  rewrite E. apply round_pos_le_repr; [exact Hx | rewrite <- E; exact Hle |].
  apply rexp_le_971; assumption.
Qed.

Lemma overflow_finite s v :
  v <= inject_Z max_float -> overflow s v = Finite (Qred (if s then - v else v)).
Proof.
  intros H. unfold overflow.
  destruct (Qle_bool (pow2 1024) v) eqn:E; [| reflexivity].
  apply Qle_bool_iff in E. rewrite pow2_1024 in E.
  assert (inject_Z max_float < inject_Z (max_float + 2 ^ 971)).
  { rewrite <- Zlt_Qlt. lia. }
  exfalso. lra.
Qed.

(** Within the binary64 range nothing overflows. *)
Lemma round_finite x :
  Qabs x <= inject_Z max_float -> exists q, round x = Finite q.
Proof.
  intros H. apply Qabs_Qle_condition in H. destruct H as [H1 H2].
  unfold round. destruct (Qcompare_spec x 0) as [E | L | G].
  - eauto.
  - rewrite overflow_finite; [eauto |]. apply round_pos_le_max; lra.
  - rewrite overflow_finite; [eauto |]. apply round_pos_le_max; lra.
Qed.

(** Integers below [2^53] are floats. *)
Lemma round_small_int n :
  (0 <= n < 2 ^ 53)%Z -> exists q, round (inject_Z n) = Finite q /\ q == inject_Z n.
Proof.
  intros Hn. unfold round.
  destruct (Qcompare_spec (inject_Z n) 0) as [E | L | G].
  - exists 0. split; [reflexivity | now rewrite E].
  - exfalso. change 0 with (inject_Z 0) in L. rewrite <- Zlt_Qlt in L. lia.
  - assert (Hr : round_pos (inject_Z n) == inject_Z n).
    { apply round_pos_repr with (n := n) (k := 0%Z); [exact G | |].
      - change (pow2 0) with 1. ring.
      - unfold rexp.
        assert ((ilog2 (inject_Z n) < 53)%Z); [| lia].
        apply ilog2_lt_pow2; [exact G |]. rewrite pow2_Z by lia. rewrite <- Zlt_Qlt. lia. }
    rewrite overflow_finite.
    + eexists. split; [reflexivity |]. rewrite Qred_correct. exact Hr.
    + rewrite Hr. rewrite <- Zle_Qle. unfold max_float. lia.
Qed.

Lemma fle_nonneg_infinity x : nonneg x -> fle x (Infinity false) = true.
Proof. destruct x as [q | [] |]; cbn; intros H; try reflexivity; try discriminate; contradiction. Qed.

Lemma fle_finite a b : fle (Finite a) (Finite b) = true <-> a <= b.
Proof.
  unfold fle, fcompare. rewrite Qle_alt.
  destruct (Qcompare a b); split; intros H; try reflexivity; try discriminate; congruence.
Qed.

(** [round] is monotone (shown here on the non-negative rationals). *)
Lemma round_mono x y : 0 <= x -> x <= y -> fle (round x) (round y) = true.
Proof.
  intros Hx Hxy.
  pose proof (round_nonneg y (Qle_trans _ _ _ Hx Hxy)) as Hy.
  unfold round in *. destruct (Qcompare_spec x 0) as [E | L | G].
  - destruct (Qcompare_spec y 0) as [E' | L' | G'].
    + reflexivity.
    + exfalso. lra.
    + destruct (overflow false (round_pos y)) as [q | [] |]; cbn in Hy;
        try discriminate; try contradiction; [| reflexivity].
      apply fle_finite. exact Hy.
  - exfalso. lra.
  - destruct (Qcompare_spec y 0) as [E' | L' | G']; try (exfalso; lra).
    pose proof (round_pos_mono x y G Hxy) as Hm.
    unfold overflow in *.
    destruct (Qle_bool (pow2 1024) (round_pos x)) eqn:Ex;
      destruct (Qle_bool (pow2 1024) (round_pos y)) eqn:Ey; try reflexivity.
    + apply Qle_bool_iff in Ex.
      assert (Hc : Qle_bool (pow2 1024) (round_pos y) = true)
        by (apply Qle_bool_iff; lra).
      congruence.
    + apply fle_finite. rewrite !Qred_correct. exact Hm.
Qed.

Lemma round_neg_cases x :
  x < 0 -> round x = Infinity true \/ exists q, round x = Finite q /\ q <= 0.
Proof.
  intros Hx. unfold round. destruct (Qcompare_spec x 0) as [E | L | G]; try (exfalso; lra).
  unfold overflow. destruct (Qle_bool _ _); [left; reflexivity | right].
  eexists. split; [reflexivity |]. rewrite Qred_correct.
  pose proof (round_pos_nonneg (- x)). lra.
Qed.

(** [round] is monotone on all of the rationals. *)
Lemma round_monotone x y : x <= y -> fle (round x) (round y) = true.
Proof.
  intros Hxy. destruct (Qlt_le_dec x 0) as [Lx | Gx]; [| apply round_mono; assumption].
  destruct (Qlt_le_dec y 0) as [Ly | Gy].
  - (* both negative: compare the magnitudes the other way round *)
    assert (Hm : round_pos (- y) <= round_pos (- x)) by (apply round_pos_mono; lra).
    unfold round. destruct (Qcompare_spec x 0) as [E | L | G]; try (exfalso; lra).
    destruct (Qcompare_spec y 0) as [E' | L' | G']; try (exfalso; lra).
    unfold overflow.
    destruct (Qle_bool (pow2 1024) (round_pos (- x))) eqn:Ex;
      destruct (Qle_bool (pow2 1024) (round_pos (- y))) eqn:Ey; try reflexivity.
    + apply Qle_bool_iff in Ey.
      assert (Hc : Qle_bool (pow2 1024) (round_pos (- x)) = true)
        by (apply Qle_bool_iff; lra).
      congruence.
    + apply fle_finite. rewrite !Qred_correct. lra.
  - pose proof (round_nonneg y Gy) as Hy.
    destruct (round_neg_cases x Lx) as [-> | (q & -> & Hq)].
    + destruct (round y) as [r | [] |]; cbn in Hy; try discriminate; try contradiction;
        reflexivity.
    + destruct (round y) as [r | [] |]; cbn in Hy; try discriminate; try contradiction.
      * apply fle_finite. lra.
      * reflexivity.
Qed.

Lemma fle_not_flt x y : fle x y = true -> flt y x = false.
Proof.
  unfold fle, flt. destruct x as [a | [] |], y as [b | [] |]; cbn; try discriminate;
    try reflexivity.
  rewrite <- (Qcompare_antisym a b). destruct (Qcompare a b); cbn; (discriminate || reflexivity).
Qed.

Lemma flt_fle_trans x y z : flt x y = true -> fle y z = true -> flt x z = true.
Proof.
  unfold fle, flt.
  destruct x as [a | [] |], y as [b | [] |], z as [c | [] |]; cbn;
    try discriminate; try reflexivity.
  destruct (Qcompare_spec a b) as [? | Hab | ?]; try discriminate.
  destruct (Qcompare_spec b c) as [Hbc | Hbc | ?]; try discriminate; intros _ _;
    assert (Hac : a < c) by lra;
    destruct (Qcompare_spec a c) as [? | ? | ?]; try reflexivity; exfalso; lra.
Qed.

End RoundFacts.

(** ** Python's numeric operators *)

Module PyFacts.
Import Binary64 Binary64Facts RoundFacts Py.
Local Open Scope Z_scope.

Lemma bind_Ok {A B : Type} (m : result A) (k : A -> result B) (a : A) :
  m = Ok a -> (m ≫= k) = k a.
Proof. intros ->. reflexivity. Qed.

Lemma bind_Raise {A B : Type} (m : result A) (k : A -> result B) (e : exn) :
  m = Raise e -> (m ≫= k) = Raise e.
Proof. intros ->. reflexivity. Qed.

Lemma int_truediv_zero a : int_truediv a 0 = Raise ZeroDivisionError.
Proof. reflexivity. Qed.

(** A true division of integers either yields a finite float or overflows. *)
Lemma int_truediv_cases a b :
  b <> 0 ->
  (exists q, int_truediv a b = Ok (Finite q)) \/ int_truediv a b = Raise OverflowError.
Proof.
  intros Hb. unfold int_truediv. destruct (Z.eqb_spec b 0) as [E | _]; [contradiction |].
  pose proof (round_not_nan (inject_Z a / inject_Z b)) as Hn.
  destruct (round (inject_Z a / inject_Z b)) as [q | s |]; [left; eauto | right; reflexivity | contradiction].
Qed.

Lemma Qabs_div_le a b m :
  b <> 0 -> Z.abs a <= m * Z.abs b -> (Qabs (inject_Z a / inject_Z b) <= inject_Z m)%Q.
Proof.
  intros Hb H.
  assert (Hpos : (0 < Qabs (inject_Z b))%Q).
  { rewrite <- (Qabs_pos 0) by apply Qle_refl. change (Qabs 0) with (inject_Z 0).
    change (Qabs (inject_Z b)) with (inject_Z (Z.abs b)).
    rewrite <- Zlt_Qlt. lia. }
  unfold Qdiv. rewrite Qabs_Qmult, Qabs_Qinv.
  apply Qle_shift_div_r; [exact Hpos |].
  change (Qabs (inject_Z a)) with (inject_Z (Z.abs a)).
  change (Qabs (inject_Z b)) with (inject_Z (Z.abs b)).
  rewrite <- inject_Z_mult, <- Zle_Qle. exact H.
Qed.

(** Quotients within the binary64 range do not overflow. *)
Lemma int_truediv_in_range a b :
  b <> 0 -> Z.abs a <= max_float * Z.abs b ->
  exists q, int_truediv a b = Ok (Finite q).
Proof.
  intros Hb H. unfold int_truediv. destruct (Z.eqb_spec b 0) as [E | _]; [contradiction |].
  destruct (round_finite (inject_Z a / inject_Z b)) as [q ->]; [| eauto].
  apply Qabs_div_le; assumption.
Qed.

Lemma int_truediv_overflow a b :
  b <> 0 -> int_truediv a b = Raise OverflowError -> max_float * Z.abs b < Z.abs a.
Proof.
  intros Hb H. destruct (Z_lt_le_dec (max_float * Z.abs b) (Z.abs a)) as [L | L]; [exact L |].
  destruct (int_truediv_in_range a b Hb L) as [q E]. congruence.
Qed.

Lemma int_truediv_nonneg a b x :
  0 <= a -> 0 < b -> int_truediv a b = Ok x -> nonneg x.
Proof.
  intros Ha Hb. unfold int_truediv. destruct (Z.eqb_spec b 0) as [E | _]; [lia |].
  assert (Hq : (0 <= inject_Z a / inject_Z b)%Q).
  { apply Qle_shift_div_l.
    - change 0%Q with (inject_Z 0). rewrite <- Zlt_Qlt. exact Hb.
    - rewrite Qmult_0_l. change 0%Q with (inject_Z 0). rewrite <- Zle_Qle. exact Ha. }
  pose proof (round_nonneg _ Hq) as Hr.
  destruct (round (inject_Z a / inject_Z b)) as [q | s |]; intros H; inversion H; subst; exact Hr.
Qed.

Lemma float_of_int_small n :
  0 <= n < 2 ^ 53 -> exists q, float_of_int n = Ok (Finite q) /\ (q == inject_Z n)%Q.
Proof.
  intros Hn. unfold float_of_int.
  destruct (round_small_int n Hn) as (q & -> & E). eauto.
Qed.

End PyFacts.

(** ** The keyword catalogue and the analysis of one keyword *)

Module KeywordFacts.
Import Binary64 Py PyFacts KeywordOptimizer.
Local Open Scope string_scope.
Local Open Scope Z_scope.

(** Every catalogued relevance lies between 2 and 10. *)
Lemma catalogue_relevance_range :
  map_Forall (λ _ d, 2 <= relevance d <= 10) keyword_performance_db.
Proof.
  apply (bool_decide_unpack _). vm_compute. reflexivity.
Qed.

Lemma keyword_data_relevance kw :
  2 <= relevance (default unknown_keyword (keyword_performance_db !! kw)) <= 10.
Proof.
  destruct (keyword_performance_db !! kw) as [d |] eqn:E; cbn.
  - exact (catalogue_relevance_range kw d E).
  - lia.
Qed.

Lemma penalty_defined r (x : float) :
  0 <= r < 2 ^ 53 -> exists y, int_mul_float r x = Ok y.
Proof.
  intros Hr. unfold int_mul_float.
  destruct (float_of_int_small r Hr) as (q & -> & _). cbn. eauto.
Qed.

(** What [_analyze_single_keyword] returns, field by field, and when it
    raises instead. *)
Lemma analyze_spec kw f t :
  t <> 0 ->
  let keyword_clean := strip (lower kw) in
  let d := default unknown_keyword (keyword_performance_db !! keyword_clean) in
  match _analyze_single_keyword kw f t with
  | Ok a =>
      exists ratio,
        int_truediv f t = Ok ratio /\
        keyword a = kw /\
        frequency_across_listings a = f /\
        estimated_competition a = competition d /\
        (flt (float_literal (7 # 10)) ratio = true ->
           exists y, int_mul_float (relevance d) (float_literal (8 # 10)) = Ok y /\
                     relevance_score a = Float y) /\
        (flt (float_literal (7 # 10)) ratio = false ->
           relevance_score a = Int (relevance d)) /\
        replacement_suggestions a = _get_replacement_suggestions keyword_clean /\
        action_recommendation a = fst (_determine_action keyword_clean d ratio) /\
        reasoning a = snd (_determine_action keyword_clean d ratio)
  | Raise e => e = OverflowError /\ max_float * Z.abs t < Z.abs f
  end.
Proof.
  intros Ht keyword_clean d. unfold _analyze_single_keyword.
  fold keyword_clean. fold d.
  destruct (int_truediv_cases f t Ht) as [[q E] | E].
  - rewrite (bind_Ok _ _ _ E).
    destruct (flt (float_literal (7 # 10)) (Finite q)) eqn:Ef.
    + destruct (penalty_defined (relevance d) (float_literal (8 # 10))) as [y Ey].
      { pose proof (keyword_data_relevance keyword_clean). fold d in H. lia. }
      rewrite (bind_Ok _ _ _ Ey). cbn [mbind result_bind].
      destruct (_determine_action keyword_clean d (Finite q)) as [action why] eqn:Ea.
      exists (Finite q).
      cbn [keyword frequency_across_listings estimated_competition relevance_score
           replacement_suggestions action_recommendation reasoning fst snd].
      rewrite Ef, Ea.
      split; [exact E |]. split; [reflexivity |]. split; [reflexivity |].
      split; [reflexivity |]. split; [intros _; eauto |].
      split; [intros H; discriminate H |]. repeat split.
    + cbn [mbind result_bind].
      destruct (_determine_action keyword_clean d (Finite q)) as [action why] eqn:Ea.
      exists (Finite q).
      cbn [keyword frequency_across_listings estimated_competition relevance_score
           replacement_suggestions action_recommendation reasoning fst snd].
      rewrite Ef, Ea.
      split; [exact E |]. split; [reflexivity |]. split; [reflexivity |].
      split; [reflexivity |]. split; [intros H; discriminate H |].
      split; [intros _; reflexivity |]. repeat split.
  - rewrite (bind_Raise _ _ _ E). split; [reflexivity |].
    apply int_truediv_overflow; assumption.
Qed.

Lemma analyze_zero_listings kw f :
  _analyze_single_keyword kw f 0 = Raise ZeroDivisionError.
Proof. reflexivity. Qed.

(** The overuse test compares floats; it says what the exact ratio says:
    above 0.7 only if [frequency / total_listings > 7/10], and always so up
    to [10^15] listings. *)
Lemma overuse_test_exact f t ratio :
  0 < t -> int_truediv f t = Ok ratio ->
  (flt (float_literal (7 # 10)) ratio = true -> 7 * t < 10 * f) /\
  (t <= 10 ^ 15 -> 7 * t < 10 * f -> flt (float_literal (7 # 10)) ratio = true).
Proof.
  intros Ht E. unfold int_truediv in E.
  destruct (Z.eqb_spec t 0) as [? | _]; [lia |].
  assert (Hr : ratio = Binary64.round (inject_Z f / inject_Z t)).
  { destruct (Binary64.round (inject_Z f / inject_Z t)); congruence. }
  clear E. assert (Htq : (0 < inject_Z t)%Q).
  { change 0%Q with (inject_Z 0). rewrite <- Zlt_Qlt. exact Ht. }
  split.
  - intros Hlt. destruct (Z_lt_le_dec (7 * t) (10 * f)) as [L | G]; [exact L | exfalso].
    assert (Hq : (inject_Z f / inject_Z t <= 7 # 10)%Q).
    { apply Qle_shift_div_r; [exact Htq |]. unfold Qle, Qmult. cbn. lia. }
    apply RoundFacts.round_monotone in Hq. apply RoundFacts.fle_not_flt in Hq.
    unfold float_literal in Hlt. rewrite Hr in Hlt. congruence.
  - intros Hsmall Hgt.
    set (next := (6305039478318695 # 9007199254740992)%Q).
    assert (Hq : (next <= inject_Z f / inject_Z t)%Q).
    { apply Qle_shift_div_l; [exact Htq |]. unfold Qle, Qmult, next. cbn. lia. }
    apply RoundFacts.round_monotone in Hq. rewrite <- Hr in Hq.
    apply (RoundFacts.flt_fle_trans _ (Binary64.round next)); [| exact Hq].
    vm_compute. reflexivity.
Qed.

End KeywordFacts.

(** ** Feasibility, sorting and the research loop *)

Module MarketFacts.
Import Binary64 Py PyFacts MarketResearch.
Local Open Scope string_scope.
Local Open Scope Z_scope.

Lemma clamp_range x : 1 <= Z.max 1 (Z.min 5 x) <= 5.
Proof. lia. Qed.

Lemma map_result_Ok {A B : Type} (f : A -> result B) xs ys :
  map_result f xs = Ok ys -> Forall2 (λ x y, f x = Ok y) xs ys.
Proof.
  revert ys. induction xs as [| x xs IH]; intros ys H; cbn in H.
  - inversion H. constructor.
  - destruct (f x) as [y | e] eqn:E; cbn in H; [| discriminate].
    destruct (map_result f xs) as [ys' | e] eqn:E'; cbn in H; [| discriminate].
    inversion H; subst. constructor; [exact E | apply IH; reflexivity].
Qed.

Lemma map_result_total {A B : Type} (f : A -> result B) xs :
  Forall (λ x, exists y, f x = Ok y) xs -> exists ys, map_result f xs = Ok ys.
Proof.
  induction 1 as [| x xs [y Hy] _ [ys IH]]; cbn.
  - eauto.
  - rewrite Hy. cbn. rewrite IH. cbn. eauto.
Qed.

Lemma insert_desc_perm {A : Type} (x : float * A) l : insert_desc x l ≡ₚ x :: l.
Proof.
  induction l as [| y l IH]; cbn; [reflexivity |].
  destruct (flt x.1 y.1); [| reflexivity].
  rewrite IH. apply Permutation_swap.
Qed.

Lemma sorted_desc_perm {A : Type} (l : list (float * A)) : sorted_desc l ≡ₚ l.
Proof.
  induction l as [| x l IH]; cbn; [reflexivity |].
  rewrite insert_desc_perm. now rewrite IH.
Qed.

(** Feasibility is the negation of the three exclusion rules. *)
Lemma feasible_iff self opp :
  _is_opportunity_feasible self opp = false <-> Spec.excluded self opp.
Proof.
  unfold _is_opportunity_feasible, Spec.excluded. cbv zeta.
  set (req_skills := (list_to_set (Opp.skill_requirements opp) : gset string)).
  set (req_tools := (list_to_set (Opp.resource_requirements opp) : gset string)).
  set (P := capability_profile self).
  case_bool_decide as Hcat; [tauto |].
  assert (Hsk : negb (bool_decide (req_skills ⊆ skills P))
                && bool_decide (learning_capacity P = "Low")
                && (1 <? Z.of_nat (size (req_skills ∖ skills P))) = true
                <-> learning_capacity P = "Low" /\ (1 < size (req_skills ∖ skills P))%nat).
  { rewrite !andb_true_iff, negb_true_iff, bool_decide_eq_false, bool_decide_eq_true,
      Z.ltb_lt.
    split.
    - intros [[_ H1] H2]. split; [exact H1 | lia].
    - intros [H1 H2]. repeat split; [| exact H1 | lia].
      intros Hsub. assert (E : req_skills ∖ skills P = ∅) by set_solver.
      rewrite E, size_empty in H2. lia. }
  assert (Htl : set_Exists (λ tool, tool ∈ tools_not_available P) req_tools
                <-> req_tools ∩ tools_not_available P ≠ ∅).
  { split.
    - intros (x & H1 & H2) E. set_solver.
    - intros H. apply set_choose_L in H as [x Hx]. exists x. set_solver. }
  destruct (negb _ && _ && _).
  - destruct Hsk as [Hsk _]. specialize (Hsk eq_refl). tauto.
  - assert (Hn : ~ (learning_capacity P = "Low" /\ (1 < size (req_skills ∖ skills P))%nat)).
    { intros H. apply Hsk in H. discriminate. }
    case_bool_decide as Ht.
    + apply Htl in Ht. tauto.
    + rewrite Htl in Ht. split; [discriminate |]. tauto.
Qed.

(** A scored opportunity carries every field of its candidate. *)
Lemma create_injective self opp opp' mo :
  _create_market_opportunity self opp = Ok mo ->
  _create_market_opportunity self opp' = Ok mo -> opp = opp'.
Proof.
  unfold _create_market_opportunity. intros H H'.
  destruct (_calculate_impact_score self opp) as [i |]; [| discriminate].
  destruct (_calculate_impact_score self opp') as [i' |]; [| discriminate].
  cbn [mbind result_bind] in H, H'. rewrite <- H in H'. clear H.
  injection H' as H1 H2 H3 H4 H5 H6 H7 H8 H9 _.
  destruct opp, opp'. cbn [Opp.name Opp.category Opp.search_volume Opp.competition_level
    Opp.avg_price Opp.seasonal_factor Opp.keywords Opp.skill_requirements
    Opp.resource_requirements] in *.
  congruence.
Qed.

(** The research loop returns the scored feasible candidates, reordered. *)
Lemma research_candidates_spec self cands :
  (forall opp, opp ∈ cands -> _is_opportunity_feasible self opp = true ->
               Candidate.scored self opp) ->
  exists out,
    research_candidates self cands = Ok out /\
    forall mo, mo ∈ out <->
      exists opp, opp ∈ cands /\ _is_opportunity_feasible self opp = true /\
                  _create_market_opportunity self opp = Ok mo.
Proof.
  intros Hsc. unfold research_candidates.
  set (feas := filter (λ o, _is_opportunity_feasible self o = true) cands).
  assert (Hfeas : forall o, o ∈ feas <-> _is_opportunity_feasible self o = true /\ o ∈ cands).
  { intros o. unfold feas. now rewrite list_elem_of_filter. }
  destruct (map_result_total (_create_market_opportunity self) feas) as [opps Hopps].
  { apply Forall_forall. intros o Ho. apply Hfeas in Ho as [Hf Hc].
    destruct (Hsc o Hc Hf) as (mo & p & H1 & _). eauto. }
  rewrite Hopps. cbn [mbind result_bind].
  pose proof (map_result_Ok _ _ _ Hopps) as F2.
  destruct (map_result_total (λ x, k ← _calculate_priority_score self x; Ok (k, x)) opps)
    as [keyed Hkeyed].
  { apply Forall_forall. intros mo Hmo.
    destruct (proj1 (list_elem_of_lookup _ _) Hmo) as [i Hi].
    destruct (Forall2_lookup_r _ _ _ _ _ F2 Hi) as (o & Ho & Hc).
    apply list_elem_of_lookup_2 in Ho. apply Hfeas in Ho as [Hf Hin].
    destruct (Hsc o Hin Hf) as (mo' & p & H1 & H2).
    assert (mo' = mo) by congruence. subst mo'. rewrite H2. cbn. eauto. }
  rewrite Hkeyed. cbn [mbind result_bind]. eexists. split; [reflexivity |].
  assert (Hsnd : snd <$> keyed = opps).
  { pose proof (map_result_Ok _ _ _ Hkeyed) as F. clear - F.
    induction F as [| mo k opps' keyed' H F IH]; cbn; [reflexivity |].
    destruct (_calculate_priority_score self mo); cbn in H; [| discriminate].
    inversion H; subst k. cbn. now rewrite IH. }
  intros mo. rewrite sorted_desc_perm, Hsnd. split.
  - intros Hmo. destruct (proj1 (list_elem_of_lookup _ _) Hmo) as [i Hi].
    destruct (Forall2_lookup_r _ _ _ _ _ F2 Hi) as (o & Ho & Hc).
    apply list_elem_of_lookup_2 in Ho. apply Hfeas in Ho as [Hf Hin]. eauto.
  - intros (o & Hin & Hf & Hc).
    assert (Ho : o ∈ feas) by (apply Hfeas; auto).
    destruct (proj1 (list_elem_of_lookup _ _) Ho) as [i Hi].
    destruct (Forall2_lookup_l _ _ _ _ _ F2 Hi) as (mo' & Hmo' & Hc').
    assert (mo' = mo) by congruence. subst mo'.
    eapply list_elem_of_lookup_2; eassumption.
Qed.

End MarketFacts.

(** ** Finiteness and integrality of the float operations of the impact score *)

Module FloatOpsFacts.
Import Binary64 Binary64Facts RoundFacts Py PyFacts.
Local Open Scope Q_scope.

(** A bound by a float is kept by rounding. *)
Lemma round_abs_le_repr x n k :
  Qabs x <= inject_Z n * pow2 k ->
  (0 <= n < 2 ^ 53)%Z -> (-1074 <= k)%Z ->
  inject_Z n * pow2 k <= inject_Z max_float ->
  exists q, round x = Finite q /\ Qabs q <= inject_Z n * pow2 k.
Proof.
  intros Hx Hn Hk Hmax.
  assert (Hrexp : forall y, 0 < y -> y <= inject_Z n * pow2 k -> (rexp y <= k)%Z).
  { intros y Hy Hle. unfold rexp.
    assert ((ilog2 y < 53 + k)%Z); [| lia].
    apply ilog2_lt_pow2; [exact Hy |].
    eapply Qle_lt_trans; [exact Hle |].
    rewrite pow2_add. rewrite (pow2_Z 53) by lia.
    apply Qmult_lt_compat_r; [apply pow2_pos |]. rewrite <- Zlt_Qlt. lia. }
  apply Qabs_Qle_condition in Hx. destruct Hx as [Hx1 Hx2].
  unfold round. destruct (Qcompare_spec x 0) as [E | L | G].
  - exists 0. split; [reflexivity |]. change (Qabs 0) with 0. lra.
  - assert (Hb : round_pos (- x) <= inject_Z n * pow2 k).
    { apply round_pos_le_repr; [lra | lra | apply Hrexp; lra]. }
    rewrite overflow_finite by lra. eexists. split; [reflexivity |].
    rewrite Qred_correct, Qabs_opp, Qabs_pos; [exact Hb |].
    apply round_pos_nonneg. lra.
  - assert (Hb : round_pos x <= inject_Z n * pow2 k).
    { apply round_pos_le_repr; [lra | lra | apply Hrexp; lra]. }
    rewrite overflow_finite by lra. eexists. split; [reflexivity |].
    rewrite Qred_correct, Qabs_pos; [exact Hb |].
    apply round_pos_nonneg. lra.
Qed.

Lemma max_float_repr : inject_Z max_float == inject_Z (2 ^ 53 - 1) * pow2 971.
Proof. rewrite pow2_Z by lia. rewrite <- inject_Z_mult. reflexivity. Qed.

Lemma round_abs_le_max x :
  Qabs x <= inject_Z max_float ->
  exists q, round x = Finite q /\ Qabs q <= inject_Z max_float.
Proof.
  intros H. rewrite max_float_repr in H.
  destruct (round_abs_le_repr x (2 ^ 53 - 1) 971 H) as (q & E & Hq); try lia.
  - rewrite <- max_float_repr. apply Qle_refl.
  - exists q. split; [exact E |]. rewrite max_float_repr. exact Hq.
Qed.

Lemma round_abs_le_pow2 x k :
  Qabs x <= pow2 k -> (-1074 <= k <= 1023)%Z ->
  exists q, round x = Finite q /\ Qabs q <= pow2 k.
Proof.
  intros H Hk.
  assert (E1 : inject_Z 1 * pow2 k == pow2 k) by (change (inject_Z 1) with 1; ring).
  destruct (round_abs_le_repr x 1 k) as (q & E & Hq); try lia.
  - rewrite E1. exact H.
  - rewrite E1. apply Qle_trans with (pow2 1023); [apply pow2_le; lia |].
    rewrite pow2_Z by lia. rewrite <- Zle_Qle. unfold max_float. lia.
  - exists q. split; [exact E |]. rewrite <- E1. exact Hq.
Qed.

(** Integrality is kept by rounding. *)

Lemma rne_eq_Z q n : q == inject_Z n -> rne q = n.
Proof.
  intros E. apply Z.le_antisymm; [apply rne_le_Z | apply rne_ge_Z]; rewrite E; apply Qle_refl.
Qed.

Lemma round_pos_integral y n : 0 < y -> y == inject_Z n -> integral (round_pos y).
Proof.
  intros Hy E. unfold round_pos. set (e := rexp y).
  destruct (Z_le_gt_dec 0 e) as [L | G].
  - exists (rne (y / pow2 e) * 2 ^ e)%Z.
    rewrite inject_Z_mult, <- pow2_Z by exact L. reflexivity.
  - assert (Hinv : pow2 (- e) * pow2 e == 1).
    { rewrite <- pow2_add. now replace (- e + e)%Z with 0%Z by lia. }
    assert (Hdiv : y / pow2 e == inject_Z (n * 2 ^ (- e))).
    { rewrite inject_Z_mult. rewrite <- (pow2_Z (- e)) by lia.
      unfold Qdiv. apply Qmult_comp; [exact E |].
      unfold pow2. rewrite Qpower_opp. reflexivity. }
    rewrite (rne_eq_Z _ _ Hdiv). exists n.
    rewrite inject_Z_mult, <- pow2_Z by lia. rewrite <- Qmult_assoc, Hinv. ring.
Qed.

Lemma round_integral x q : integral x -> round x = Finite q -> integral q.
Proof.
  intros [n E]. unfold round, overflow.
  destruct (Qcompare_spec x 0) as [E0 | L | G].
  - intros H. inversion H. exists 0%Z. reflexivity.
  - destruct (Qle_bool _ _); [discriminate |]. intros H. inversion H.
    destruct (round_pos_integral (- x) (- n)) as [m Hm]; [lra | |].
    + rewrite E, inject_Z_opp. reflexivity.
    + exists (- m)%Z. rewrite Qred_correct, Hm, inject_Z_opp. reflexivity.
  - destruct (Qle_bool _ _); [discriminate |]. intros H. inversion H.
    destruct (round_pos_integral x n G E) as [m Hm].
    exists m. rewrite Qred_correct. exact Hm.
Qed.

(** Truncation and floor stay within reach of their argument. *)

Lemma Qtrunc_abs q : Qabs (inject_Z (Qtrunc q)) <= Qabs q.
Proof.
  unfold Qtrunc. destruct (Qle_bool 0 q) eqn:E.
  - apply Qle_bool_iff in E.
    assert (0 <= inject_Z (Qfloor q)).
    { change 0 with (inject_Z 0). rewrite <- Zle_Qle.
      rewrite <- (Qfloor_Z 0). apply Qfloor_resp_le. exact E. }
    rewrite !Qabs_pos by assumption. apply Qfloor_le.
  - assert (L : q < 0).
    { apply Qnot_le_lt. intros H. apply Qle_bool_iff in H. congruence. }
    assert (inject_Z (Qceiling q) <= 0).
    { change 0 with (inject_Z 0). rewrite <- Zle_Qle.
      rewrite <- (Qceiling_Z 0). apply Qceiling_resp_le. apply Qlt_le_weak. exact L. }
    rewrite !Qabs_neg by lra. pose proof (Qle_ceiling q). lra.
Qed.

Lemma Qfloor_abs q : Qabs (inject_Z (Qfloor q)) <= Qabs q + 1.
Proof.
  pose proof (Qfloor_le q) as H1. pose proof (Qlt_floor q) as H2.
  rewrite inject_Z_plus in H2. change (inject_Z 1) with 1 in H2.
  apply Qabs_Qle_condition. split.
  - apply Qle_trans with (q - 1); [| lra].
    assert (- Qabs q <= q); [| lra].
    pose proof (Qle_Qabs (- q)). rewrite Qabs_opp in H. lra.
  - pose proof (Qle_Qabs q). lra.
Qed.


Lemma Qfloor_integral q n : q == inject_Z n -> Qfloor q = n.
Proof.
  intros E. apply Z.le_antisymm.
  - rewrite <- (Qfloor_Z n). apply Qfloor_resp_le. rewrite E. apply Qle_refl.
  - rewrite <- (Qfloor_Z n). apply Qfloor_resp_le. rewrite E. apply Qle_refl.
Qed.

Lemma Qtrunc_integral q n : q == inject_Z n -> Qtrunc q = n.
Proof.
  intros E. unfold Qtrunc, Qceiling. destruct (Qle_bool 0 q).
  - apply Qfloor_integral. exact E.
  - rewrite (Qfloor_integral (- q) (- n)); [lia |].
    rewrite E, inject_Z_opp. reflexivity.
Qed.

(** [x // 10] on a float within the binary64 range is a finite integral
    float: no step of CPython's algorithm overflows. *)
Lemma float_floordiv_10 a :
  Qabs a <= inject_Z max_float ->
  exists q, float_floordiv_int (Finite a) 10 = Ok (Finite q) /\ integral q.
Proof.
  intros Ha. unfold float_floordiv_int.
  assert (E10 : float_of_int 10 = Ok (Finite 10)) by (vm_compute; reflexivity).
  rewrite (bind_Ok _ _ _ E10). unfold float_floordiv.
  change (is_zero (Finite 10)) with false. cbv iota.
  (* the remainder *)
  set (T := inject_Z (Qtrunc (a / 10))).
  assert (Emd : fmod (Finite a) (Finite 10) = Finite (Qred (a - T * 10))) by reflexivity.
  rewrite Emd. set (m := Qred (a - T * 10)).
  assert (HT : Qabs (T * 10) <= Qabs a).
  { rewrite Qabs_Qmult. change (Qabs 10) with 10.
    apply Qle_trans with (Qabs (a / 10) * 10).
    - apply Qmult_le_compat_r; [apply Qtrunc_abs | discriminate].
    - unfold Qdiv. rewrite Qabs_Qmult. change (Qabs (/ 10)) with (/ 10).
      assert (E : Qabs a * / 10 * 10 == Qabs a) by field. rewrite E. apply Qle_refl. }
  (* x - mod *)
  assert (H1 : exists v1, fsub (Finite a) (Finite m) = Finite v1 /\ Qabs v1 <= inject_Z max_float).
  { unfold fsub, fopp, fadd. apply round_abs_le_max.
    assert (E : a + - m == T * 10) by (unfold m; rewrite Qred_correct; ring).
    rewrite E. lra. }
  destruct H1 as (v1 & -> & Hv1).
  (* (x - mod) / 10 *)
  assert (Hmax : inject_Z max_float <= 10 * pow2 1021).
  { rewrite pow2_Z by lia. change 10 with (inject_Z 10).
    rewrite <- inject_Z_mult, <- Zle_Qle. unfold max_float. lia. }
  assert (H2 : exists v2, fdiv (Finite v1) (Finite 10) = Finite v2 /\ Qabs v2 <= pow2 1021).
  { unfold fdiv. apply round_abs_le_pow2; [| lia].
    unfold Qdiv. rewrite Qabs_Qmult. change (Qabs (/ 10)) with (/ 10).
    apply Qle_shift_div_r; [reflexivity |]. lra. }
  destruct H2 as (v2 & -> & Hv2).
  (* the correction by one *)
  assert (Hstep : pow2 1021 + 1 <= pow2 1022).
  { rewrite !pow2_Z by lia. change 1 with (inject_Z 1).
    rewrite <- inject_Z_plus, <- Zle_Qle. lia. }
  assert (H3 : exists v3,
             (if negb (is_zero (Finite m)) && xorb (flt (Finite 10) (Finite 0)) (flt (Finite m) (Finite 0))
              then fsub (Finite v2) (Finite 1) else Finite v2) = Finite v3
             /\ Qabs v3 <= pow2 1022).
  { destruct (negb _ && _).
    - unfold fsub, fopp, fadd. apply round_abs_le_pow2; [| lia].
      eapply Qle_trans; [apply Qabs_triangle |]. rewrite Qabs_opp.
      change (Qabs 1) with 1. lra.
    - exists v2. split; [reflexivity | lra]. }
  destruct H3 as (v3 & -> & Hv3).
  (* snapping to an integral value *)
  destruct (negb (is_zero (Finite v3))).
  - unfold ffloor. destruct (flt _ _).
    + unfold fadd.
      assert (Hstep2 : pow2 1022 + 2 <= pow2 1023).
      { rewrite !pow2_Z by lia. change 2 with (inject_Z 2).
        rewrite <- inject_Z_plus, <- Zle_Qle. lia. }
      destruct (round_abs_le_pow2 (inject_Z (Qfloor v3) + 1) 1023) as (q & Eq & _); [| lia |].
      * eapply Qle_trans; [apply Qabs_triangle |]. change (Qabs 1) with 1.
        pose proof (Qfloor_abs v3). lra.
      * exists q. split; [now rewrite Eq |].
        apply (round_integral (inject_Z (Qfloor v3) + 1)); [| exact Eq].
        exists (Qfloor v3 + 1)%Z. rewrite inject_Z_plus. reflexivity.
    + eexists. split; [reflexivity |]. eexists. reflexivity.
  - exists 0. split; [reflexivity |]. exists 0%Z. reflexivity.
Qed.

(** [x * 3] on a float whose triple is within the binary64 range. *)
Lemma float_mul_3 s :
  Qabs s * 3 <= inject_Z max_float ->
  exists q, float_mul_int (Finite s) 3 = Ok (Finite q) /\ (0 <= s -> 0 <= q).
Proof.
  intros Hs. unfold float_mul_int.
  assert (E3 : float_of_int 3 = Ok (Finite 3)) by (vm_compute; reflexivity).
  rewrite (bind_Ok _ _ _ E3). unfold fmul.
  destruct (round_finite (s * 3)) as [q Eq].
  { rewrite Qabs_Qmult. change (Qabs 3) with 3. exact Hs. }
  exists q. split; [now rewrite Eq |].
  intros H0. assert (Hn : nonneg (round (s * 3))) by (apply round_nonneg; lra).
  rewrite Eq in Hn. exact Hn.
Qed.

End FloatOpsFacts.

(** ** The impact score *)

Module ImpactFacts.
Import Binary64 Binary64Facts RoundFacts Py PyFacts FloatOpsFacts MarketResearch.
Local Open Scope string_scope.
Local Open Scope Z_scope.

Lemma penalty_table level :
  competition_penalties !! level = Spec.competitionPenalty level.
Proof.
  unfold Spec.competitionPenalty.
  repeat case_bool_decide; subst; try reflexivity.
  unfold competition_penalties. cbn [list_to_map foldr uncurry fst snd].
  rewrite !lookup_insert_ne by congruence. apply lookup_empty.
Qed.

Lemma competition_penalty_defined level :
  level ∈ ["Low"; "Medium"; "High"] ->
  exists pen, Spec.competitionPenalty level = Some pen /\ -2 <= pen <= 0.
Proof.
  intros H. unfold Spec.competitionPenalty.
  repeat (apply elem_of_cons in H as [-> | H]); [| | | inversion H];
    cbn; eexists; (split; [reflexivity | lia]).
Qed.

(** The impact score of a candidate with finite floats and a known
    competition level, step by step. *)
Lemma impact_steps self opp :
  Candidate.valid_competition opp -> Candidate.valid_floats opp ->
  exists price_tens seasonal penalty,
    float_floordiv_int (Opp.avg_price opp) 10 = Ok (Finite price_tens) /\
    integral price_tens /\
    float_mul_int (Opp.seasonal_factor opp) 3 = Ok (Finite seasonal) /\
    (nonneg (Opp.seasonal_factor opp) -> (0 <= seasonal)%Q) /\
    Spec.competitionPenalty (Opp.competition_level opp) = Some penalty /\
    _calculate_impact_score self opp
      = Ok (Z.max 1 (Z.min 5
              ((Z.min 5 (Z.max 1 (Opp.search_volume opp / 1000 + 1))
                + Z.min 5 (Z.max 1 (Qtrunc price_tens))
                + Z.min 5 (Qtrunc seasonal)) / 3 + penalty))).
Proof.
  intros Hc [Hp Hs]. unfold _calculate_impact_score.
  destruct (Opp.avg_price opp) as [p | |]; cbn in Hp; try contradiction.
  destruct (Opp.seasonal_factor opp) as [s | |]; cbn in Hs; try contradiction.
  destruct (float_floordiv_10 p) as (pt & Ept & Hpt).
  { rewrite Qmult_1_r in Hp. exact Hp. }
  destruct (float_mul_3 s Hs) as (sq & Esq & Hsq).
  destruct (competition_penalty_defined _ Hc) as (pen & Epen & _).
  exists pt, sq, pen. rewrite Ept, Esq. cbn [mbind result_bind int_of_float].
  rewrite penalty_table, Epen. cbn [mbind result_bind].
  repeat split; try assumption; reflexivity.
Qed.

Lemma impact_range self opp i :
  _calculate_impact_score self opp = Ok i -> 1 <= i <= 5.
Proof.
  unfold _calculate_impact_score. intros H.
  repeat match type of H with
         | (?m ≫= _) = Ok _ => destruct m; cbn [mbind result_bind] in H; [| discriminate]
         end.
  inversion H. lia.
Qed.

(** The impact score raises only on a float that is not finite or on an
    unknown competition level. *)
Lemma impact_defined self opp :
  Candidate.valid_competition opp -> Candidate.valid_floats opp ->
  exists i, _calculate_impact_score self opp = Ok i.
Proof.
  intros Hc Hf. destruct (impact_steps self opp Hc Hf) as (? & ? & ? & _ & _ & _ & _ & _ & H).
  eauto.
Qed.

Lemma Qfloor_unique q k : (inject_Z k <= q)%Q -> (q < inject_Z (k + 1))%Q -> Qfloor q = k.
Proof.
  intros H1 H2. pose proof (Qfloor_le q) as H3. pose proof (Qlt_floor q) as H4.
  assert (k < Qfloor q + 1) by (rewrite Zlt_Qlt; eapply Qle_lt_trans; eassumption).
  assert (Qfloor q < k + 1) by (rewrite Zlt_Qlt; eapply Qle_lt_trans; eassumption).
  lia.
Qed.

(** The real-valued clamps of the specification agree with the integer
    ones of the code on an integral price term and a non-negative seasonal
    term. *)
Lemma formula_agrees (v n pen : Z) (price_tens seasonal : Q) :
  (price_tens == inject_Z n)%Q -> (0 <= seasonal)%Q ->
  Spec.clamp (Qfloor ((inject_Z v + Spec.Qclamp price_tens 1 5
                       + Spec.Qclamp seasonal 0 5) / 3) + pen) 1 5
  = Z.max 1 (Z.min 5 ((v + Z.min 5 (Z.max 1 (Qtrunc price_tens))
                       + Z.min 5 (Qtrunc seasonal)) / 3 + pen)).
Proof.
  intros En Hs. unfold Spec.clamp. f_equal. f_equal. f_equal.
  rewrite (Qtrunc_integral _ _ En).
  set (P := Z.min 5 (Z.max 1 n)).
  assert (EP : (Spec.Qclamp price_tens 1 5 == inject_Z P)%Q).
  { unfold Spec.Qclamp, P.
    destruct (Qle_bool price_tens 1) eqn:E1; [| destruct (Qle_bool 5 price_tens) eqn:E5].
    - apply Qle_bool_iff in E1. rewrite En in E1.
      change 1%Q with (inject_Z 1) in E1. rewrite <- Zle_Qle in E1.
      now replace (Z.min 5 (Z.max 1 n)) with 1 by lia.
    - apply Qle_bool_iff in E5. rewrite En in E5.
      change 5%Q with (inject_Z 5) in E5. rewrite <- Zle_Qle in E5.
      now replace (Z.min 5 (Z.max 1 n)) with 5 by lia.
    - assert (L1 : ~ (price_tens <= 1)%Q) by (rewrite <- Qle_bool_iff; congruence).
      assert (L5 : ~ (5 <= price_tens)%Q) by (rewrite <- Qle_bool_iff; congruence).
      rewrite En in L1, L5. change 1%Q with (inject_Z 1) in L1.
      change 5%Q with (inject_Z 5) in L5. rewrite <- Zle_Qle in L1, L5.
      replace (Z.min 5 (Z.max 1 n)) with n by lia. exact En. }
  set (S := Spec.Qclamp seasonal 0 5).
  assert (HS : (inject_Z (Z.min 5 (Qtrunc seasonal)) <= S)%Q
               /\ (S < inject_Z (Z.min 5 (Qtrunc seasonal) + 1))%Q).
  { unfold S, Spec.Qclamp, Qtrunc.
    assert (E0 : Qle_bool 0 seasonal = true) by (apply Qle_bool_iff; exact Hs). rewrite E0.
    pose proof (Qfloor_le seasonal) as F1. pose proof (Qlt_floor seasonal) as F2.
    destruct (Qle_bool seasonal 0) eqn:Ez; [| destruct (Qle_bool 5 seasonal) eqn:E5].
    - apply Qle_bool_iff in Ez.
      assert (Ef : Qfloor seasonal = 0).
      { apply Qfloor_integral. change (inject_Z 0) with 0%Q. lra. }
      rewrite Ef. cbn. split; [apply Qle_refl | reflexivity].
    - apply Qle_bool_iff in E5.
      assert (5 <= Qfloor seasonal).
      { rewrite <- (Qfloor_Z 5). apply Qfloor_resp_le. exact E5. }
      rewrite Z.min_l by lia. split; [apply Qle_refl | reflexivity].
    - assert (L5 : (seasonal < 5)%Q).
      { apply Qnot_le_lt. rewrite <- Qle_bool_iff. congruence. }
      assert (Qfloor seasonal < 5).
      { rewrite Zlt_Qlt. eapply Qle_lt_trans; [exact F1 | exact L5]. }
      rewrite Z.min_r by lia. split; assumption. }
  destruct HS as [HS1 HS2]. set (F := Z.min 5 (Qtrunc seasonal)) in *.
  apply Qfloor_unique.
  - apply Qle_shift_div_l; [reflexivity |].
    apply Qle_trans with (inject_Z (v + P + F)).
    + change 3%Q with (inject_Z 3). rewrite <- inject_Z_mult, <- Zle_Qle.
      pose proof (Z.mul_div_le (v + P + F) 3). lia.
    + rewrite !inject_Z_plus, EP. lra.
  - apply Qlt_shift_div_r; [reflexivity |].
    apply Qlt_le_trans with (inject_Z (v + P + F + 1)).
    + rewrite inject_Z_plus in HS2. rewrite !inject_Z_plus, EP. lra.
    + change 3%Q with (inject_Z 3). rewrite <- inject_Z_mult, <- Zle_Qle.
      pose proof (Z.mod_pos_bound (v + P + F) 3). pose proof (Z.div_mod (v + P + F) 3). lia.
Qed.


End ImpactFacts.

(** ** The priority score and the timeline buckets *)

Module PriorityFacts.
Import Binary64 Binary64Facts RoundFacts Py PyFacts MarketResearch.
Local Open Scope Z_scope.

Lemma fle_refl_nonneg x : nonneg x -> fle x x = true.
Proof.
  destruct x as [q | [] |]; cbn; intros H; try discriminate; try contradiction; [| reflexivity].
  apply fle_finite. apply Qle_refl.
Qed.

(** Multiplication by a positive float is monotone on the non-negative
    floats, in both arguments. *)
Lemma fmul_mono x x' c c' :
  nonneg x -> nonneg x' -> fle x x' = true -> (0 < c)%Q -> (c <= c')%Q ->
  fle (fmul x (Finite c)) (fmul x' (Finite c')) = true
  /\ nonneg (fmul x (Finite c)) /\ nonneg (fmul x' (Finite c')).
Proof.
  intros Hx Hx' Hle Hc Hcc'.
  assert (Hinf : forall d, (0 < d)%Q -> inf_sign false d = Some false).
  { intros d Hd. unfold inf_sign. apply Qgt_alt in Hd. now rewrite Hd. }
  destruct x as [a | [] |], x' as [a' | [] |]; cbn in Hx, Hx';
    try discriminate; try contradiction.
  - apply fle_finite in Hle. cbn [fmul].
    assert (0 <= a * c)%Q by (apply Qmult_le_0_compat; lra).
    assert (a * c <= a' * c')%Q by (apply Qmult_le_compat_nonneg; split; lra).
    repeat split.
    + apply round_mono; assumption.
    + apply round_nonneg; assumption.
    + apply round_nonneg; lra.
  - cbn [fmul]. rewrite Hinf by lra.
    assert (0 <= a * c)%Q by (apply Qmult_le_0_compat; lra).
    repeat split.
    + apply fle_nonneg_infinity, round_nonneg; assumption.
    + apply round_nonneg; assumption.
  - cbn [fmul]. rewrite !Hinf by lra. repeat split.
Qed.

(** Division by a positive float is monotone in the dividend and antitone in
    the divisor, on the non-negative floats. *)
Lemma fdiv_mono x x' d d' :
  nonneg x -> nonneg x' -> fle x x' = true -> (0 < d')%Q -> (d' <= d)%Q ->
  fle (fdiv x (Finite d)) (fdiv x' (Finite d')) = true.
Proof.
  intros Hx Hx' Hle Hd Hdd'.
  assert (Hpos : forall e, (0 < e)%Q -> Qle_bool 0 e = true).
  { intros e He. apply Qle_bool_iff. lra. }
  destruct x as [a | [] |], x' as [a' | [] |]; cbn in Hx, Hx';
    try discriminate; try contradiction.
  - apply fle_finite in Hle. cbn [fdiv].
    assert (H0 : (0 <= a / d)%Q).
    { apply Qle_shift_div_l; [lra |]. lra. }
    apply round_mono; [exact H0 |].
    apply Qle_shift_div_l; [lra |].
    apply Qle_trans with (a / d * d)%Q.
    + apply Qmult_le_compat_nonneg; split; [exact H0 | apply Qle_refl | lra | exact Hdd'].
    + assert (E : (a / d * d == a)%Q) by (field; lra). rewrite E. exact Hle.
  - cbn [fdiv]. rewrite Hpos by lra.
    apply fle_nonneg_infinity, round_nonneg.
    apply Qle_shift_div_l; lra.
  - cbn [fdiv]. rewrite !Hpos by lra. reflexivity.
Qed.

Lemma score_as_float n :
  1 <= n <= 5 -> exists q, float_of_int n = Ok (Finite q) /\ (q == inject_Z n)%Q /\ (1 <= q)%Q.
Proof.
  intros Hn. destruct (float_of_int_small n) as (q & E & Hq); [lia |].
  exists q. repeat split; try assumption.
  rewrite Hq. change 1%Q with (inject_Z 1). rewrite <- Zle_Qle. lia.
Qed.

(** The priority score, step by step: only the first division can raise. *)
Lemma priority_steps self o :
  0 <= search_volume o ->
  1 <= impact_score o <= 5 -> 1 <= confidence_score o <= 5 -> 1 <= effort_score o <= 5 ->
  match int_truediv (search_volume o) 1000 with
  | Ok reach =>
      exists qi qc qe,
        (qi == inject_Z (impact_score o))%Q /\
        (qc == inject_Z (confidence_score o))%Q /\
        (qe == inject_Z (effort_score o))%Q /\
        nonneg reach /\
        _calculate_priority_score self o
          = Ok (fdiv (fmul (fmul reach (Finite qi)) (Finite qc)) (Finite qe))
  | Raise e =>
      e = OverflowError /\ max_float * 1000 < search_volume o /\
      _calculate_priority_score self o = Raise OverflowError
  end.
Proof.
  intros Hsv Hi Hc He. unfold _calculate_priority_score.
  destruct (int_truediv (search_volume o) 1000) as [reach | e] eqn:E.
  - destruct (score_as_float _ Hi) as (qi & Ei & Hqi & _).
    destruct (score_as_float _ Hc) as (qc & Ec & Hqc & _).
    destruct (score_as_float _ He) as (qe & Ee & Hqe & Hqe1).
    exists qi, qc, qe. repeat split; try assumption.
    + eapply int_truediv_nonneg; [exact Hsv | | exact E]. lia.
    + cbn [mbind result_bind]. unfold float_mul_int, float_truediv_int.
      rewrite Ei, Ec, Ee. cbn [mbind result_bind]. unfold float_truediv.
      assert (Hz : is_zero (Finite qe) = false).
      { cbn. destruct (Qeq_bool qe 0) eqn:Ez; [| reflexivity].
        apply Qeq_bool_iff in Ez. exfalso. lra. }
      rewrite Hz. reflexivity.
  - destruct (int_truediv_cases (search_volume o) 1000) as [[q Hq] | Hov]; [lia | congruence |].
    assert (e = OverflowError) by congruence. subst e.
    pose proof (int_truediv_overflow (search_volume o) 1000 ltac:(lia) E) as Hb.
    change (Z.abs 1000) with 1000 in Hb. rewrite Z.abs_eq in Hb by exact Hsv.
    repeat split. exact Hb.
Qed.

(** The grouping loop files every opportunity under its timeline, in
    order. *)
Lemma categorize_from_spec cat0 opps :
  (forall o, o ∈ opps -> is_Some (cat0 !! timeline o)) ->
  exists cat,
    categorize_from cat0 opps = Ok cat /\
    forall k, cat !! k = (λ l, l ++ filter (λ o, timeline o = k) opps) <$> cat0 !! k.
Proof.
  revert cat0. induction opps as [| o opps IH]; intros cat0 Hkeys.
  - exists cat0. split; [reflexivity |]. intros k.
    destruct (cat0 !! k); cbn; [| reflexivity]. now rewrite app_nil_r.
  - destruct (Hkeys o ltac:(left)) as [l Hl].
    cbn [categorize_from]. unfold append_to_bucket. rewrite Hl. cbn [mbind result_bind].
    destruct (IH (<[timeline o := l ++ [o]]> cat0)) as (cat & Hcat & Hlook).
    { intros o' Ho'. destruct (decide (timeline o = timeline o')) as [E | NE].
      - rewrite <- E, lookup_insert_eq. eauto.
      - rewrite lookup_insert_ne by exact NE. apply Hkeys. now right. }
    exists cat. split; [exact Hcat |]. intros k. rewrite Hlook.
    destruct (decide (timeline o = k)) as [E | NE].
    + subst k. rewrite lookup_insert_eq, Hl. cbn [fmap option_fmap option_map].
      rewrite filter_cons_True by reflexivity. now rewrite <- app_assoc.
    + rewrite lookup_insert_ne by exact NE.
      rewrite filter_cons_False by exact NE. reflexivity.
Qed.

End PriorityFacts.

(** ** Valid candidates are scored *)

Module ScoringFacts.
Import Binary64 Py PyFacts MarketResearch MarketFacts ImpactFacts PriorityFacts.
Local Open Scope Z_scope.

Lemma priority_defined self o :
  Z.abs (search_volume o) <= max_float * 1000 ->
  1 <= impact_score o <= 5 -> 1 <= confidence_score o <= 5 -> 1 <= effort_score o <= 5 ->
  exists p, _calculate_priority_score self o = Ok p.
Proof.
  intros Hsv Hi Hc He. unfold _calculate_priority_score.
  destruct (int_truediv_in_range (search_volume o) 1000) as [r Er]; [lia | exact Hsv |].
  destruct (score_as_float _ Hi) as (qi & Ei & _ & _).
  destruct (score_as_float _ Hc) as (qc & Ec & _ & _).
  destruct (score_as_float _ He) as (qe & Ee & _ & Hqe).
  rewrite Er. cbn [mbind result_bind]. unfold float_mul_int, float_truediv_int.
  rewrite Ei, Ec, Ee. cbn [mbind result_bind]. unfold float_truediv.
  assert (Hz : is_zero (Finite qe) = false).
  { cbn. destruct (Qeq_bool qe 0) eqn:Ez; [| reflexivity].
    apply Qeq_bool_iff in Ez. exfalso. lra. }
  rewrite Hz. eauto.
Qed.

Lemma valid_is_scored self opp : Candidate.valid opp -> Candidate.scored self opp.
Proof.
  intros (Hc & Hf & Hv). destruct (impact_defined self opp Hc Hf) as [i Hi].
  unfold Candidate.scored, _create_market_opportunity. rewrite Hi. cbn [mbind result_bind].
  eexists. destruct (priority_defined self
    {| name := Opp.name opp; category := Opp.category opp;
       search_volume := Opp.search_volume opp;
       competition_level := Opp.competition_level opp;
       avg_price := Opp.avg_price opp; seasonal_factor := Opp.seasonal_factor opp;
       keywords := Opp.keywords opp; skill_requirements := Opp.skill_requirements opp;
       resource_requirements := Opp.resource_requirements opp;
       effort_score := _calculate_effort_score self opp; impact_score := i;
       confidence_score := _calculate_confidence_score self opp;
       timeline := _determine_timeline self (_calculate_effort_score self opp) opp |})
    as [p Hp]; cbn.
  - exact Hv.
  - eapply impact_range; exact Hi.
  - apply clamp_range.
  - apply clamp_range.
  - exists p. split; [reflexivity | exact Hp].
Qed.

End ScoringFacts.

(** ** Loops, folds and the stable sort *)

Module LoopFacts.
Import Binary64 Py Notions.
Local Open Scope Z_scope.

(** A loop that appends [f x] for the [x] passing a test is a filter
    followed by a map. *)
Lemma foldl_append_if {A B : Type} (c : A -> bool) (f : A -> B) (acc : list B) xs :
  foldl (λ acc x, if c x then acc ++ [f x] else acc) acc xs
  = acc ++ (f <$> filter (λ x, c x = true) xs).
Proof.
  revert acc. induction xs as [| x xs IH]; intros acc; cbn [foldl].
  - rewrite filter_nil. cbn. now rewrite app_nil_r.
  - rewrite IH. rewrite filter_cons. destruct (c x) eqn:E.
    + rewrite decide_True by reflexivity. cbn. now rewrite <- app_assoc.
    + rewrite decide_False by discriminate. reflexivity.
Qed.

Lemma foldl_append {A B : Type} (f : A -> B) (acc : list B) xs :
  foldl (λ acc x, acc ++ [f x]) acc xs = acc ++ (f <$> xs).
Proof.
  revert acc. induction xs as [| x xs IH]; intros acc; cbn [foldl].
  - cbn. now rewrite app_nil_r.
  - rewrite IH. cbn. now rewrite <- app_assoc.
Qed.

Lemma foldl_append_bind {A B : Type} (g : A -> list B) (acc : list B) xs :
  foldl (λ acc x, acc ++ g x) acc xs = acc ++ (xs ≫= g).
Proof.
  revert acc. induction xs as [| x xs IH]; intros acc; cbn [foldl].
  - cbn. now rewrite app_nil_r.
  - rewrite IH, bind_cons. now rewrite <- app_assoc.
Qed.

(** A loop that stores [f k] under each key [k]. *)
Lemma fold_insert_spec {V : Type} (f : string -> result V) keys (acc : gmap string V) :
  (forall k, k ∈ keys -> exists v, f k = Ok v) ->
  exists shown,
    fold_result (λ shown k, v ← f k; Ok (<[k := v]> shown)) acc keys = Ok shown /\
    forall k, shown !! k = if decide (k ∈ keys)
                           then match f k with Ok v => Some v | Raise _ => None end
                           else acc !! k.
Proof.
  revert acc. induction keys as [| k0 keys IH]; intros acc Hf; cbn [fold_result].
  - exists acc. split; [reflexivity |]. intros k.
    rewrite decide_False by (intros H; inversion H). reflexivity.
  - destruct (Hf k0) as [v0 E0]; [left |]. rewrite E0. cbn [mbind result_bind].
    destruct (IH (<[k0 := v0]> acc)) as (shown & E & Hs).
    { intros k Hk. apply Hf. now right. }
    exists shown. split; [exact E |]. intros k. rewrite Hs.
    destruct (decide (k ∈ keys)) as [Hin | Hnin].
    + rewrite (decide_True (P := k ∈ k0 :: keys)) by (now right). reflexivity.
    + destruct (decide (k = k0)) as [-> | Hne].
      * rewrite (decide_True (P := k0 ∈ k0 :: keys)) by left.
        now rewrite lookup_insert_eq, E0.
      * rewrite (decide_False (P := k ∈ k0 :: keys)).
        2:{ intros H. apply elem_of_cons in H as [? | ?]; tauto. }
        now rewrite lookup_insert_ne by congruence.
Qed.

Lemma fold_insert_raises {V : Type} (f : string -> result V) keys (acc : gmap string V) e :
  fold_result (λ shown k, v ← f k; Ok (<[k := v]> shown)) acc keys = Raise e ->
  exists k, k ∈ keys /\ f k = Raise e.
Proof.
  revert acc. induction keys as [| k0 keys IH]; intros acc; cbn [fold_result].
  - discriminate.
  - destruct (f k0) as [v0 | e0] eqn:E0; cbn [mbind result_bind].
    + intros H. destruct (IH _ H) as (k & Hk & Ek). exists k. split; [now right | exact Ek].
    + intros H. injection H as <-. exists k0. split; [left | exact E0].
Qed.

Lemma map_result_raises {A B : Type} (f : A -> result B) xs e :
  map_result f xs = Raise e -> exists x, x ∈ xs /\ f x = Raise e.
Proof.
  induction xs as [| x xs IH]; cbn [map_result]; [discriminate |].
  destruct (f x) as [y | e0] eqn:E0; cbn [mbind result_bind].
  - destruct (map_result f xs) as [ys | e1]; cbn [mbind result_bind]; [discriminate |].
    intros H. injection H as <-. destruct (IH eq_refl) as (x' & Hx' & E').
    exists x'. split; [now right | exact E'].
  - intros H. injection H as <-. exists x. split; [left | exact E0].
Qed.

Lemma fold_result_total {A S : Type} (step : S -> A -> result S) (I : S -> Prop) s xs :
  I s ->
  (forall s x, I s -> x ∈ xs -> exists s', step s x = Ok s' /\ I s') ->
  exists s', fold_result step s xs = Ok s' /\ I s'.
Proof.
  revert s. induction xs as [| x xs IH]; intros s Hs Hstep; cbn.
  - eauto.
  - destruct (Hstep s x Hs) as (s' & E & Hs'); [left |].
    rewrite E. cbn. apply IH; [exact Hs' |].
    intros s0 y H0 Hy. apply Hstep; [exact H0 | now right].
Qed.

Lemma map_result_fmap {A B : Type} (f : A -> result B) (g : A -> B) xs :
  (forall x, x ∈ xs -> f x = Ok (g x)) -> map_result f xs = Ok (g <$> xs).
Proof.
  induction xs as [| x xs IH]; intros H; cbn; [reflexivity |].
  rewrite (H x) by left. cbn. rewrite IH; [reflexivity |].
  intros y Hy. apply H. now right.
Qed.

Lemma map_result_length {A B : Type} (f : A -> result B) xs ys :
  map_result f xs = Ok ys -> length ys = length xs.
Proof.
  intros H. apply MarketFacts.map_result_Ok in H. symmetry. eapply Forall2_length, H.
Qed.

Lemma length_filter_split {A : Type} (P : A -> Prop) `{!forall x, Decision (P x)} (l : list A) :
  (length (filter P l) + length (filter (λ x, ~ P x) l) = length l)%nat.
Proof.
  induction l as [| x l IH]; [reflexivity |]. rewrite !filter_cons.
  destruct (decide (P x)) as [HP | HP].
  - rewrite decide_False by tauto. cbn [length]. lia.
  - rewrite decide_True by exact HP. cbn [length]. lia.
Qed.

Lemma len_nonneg {A : Type} (xs : list A) : 0 <= len xs.
Proof. unfold len. lia. Qed.

Lemma len_app {A : Type} (xs ys : list A) : len (xs ++ ys) = len xs + len ys.
Proof. unfold len. rewrite length_app. lia. Qed.

Lemma len_take {A : Type} n (xs : list A) : len (take n xs) <= Z.of_nat n.
Proof. unfold len. rewrite length_take. lia. Qed.

(** *** The stable sort by decreasing key *)

Section Sorting.
Context {K A : Type} (lt : K -> K -> bool) (valid : K -> Prop).
Hypothesis lt_asym : forall a b, valid a -> valid b -> lt a b = true -> lt b a = false.
Hypothesis lt_negtrans : forall a b c, valid a -> valid b -> valid c ->
  lt a b = false -> lt b c = false -> lt a c = false.

Lemma insert_desc_by_perm (x : K * A) l : insert_desc_by lt x l ≡ₚ x :: l.
Proof.
  induction l as [| y l IH]; cbn; [reflexivity |].
  destruct (lt x.1 y.1); [| reflexivity].
  rewrite IH. apply Permutation_swap.
Qed.

Lemma sorted_desc_by_perm (l : list (K * A)) : sorted_desc_by lt l ≡ₚ l.
Proof.
  induction l as [| x l IH]; cbn; [reflexivity |].
  rewrite insert_desc_by_perm. now rewrite IH.
Qed.

Lemma descending_cons (x : K * A) l :
  descending lt (x :: l) <-> (forall y, y ∈ l -> lt x.1 y.1 = false) /\ descending lt l.
Proof.
  split.
  - intros H. split.
    + intros y Hy. apply list_elem_of_lookup in Hy as [j Hj].
      apply (H 0%nat (S j) x y); [lia | reflexivity | exact Hj].
    + intros i j a b Hij Hi Hj. apply (H (S i) (S j) a b); [lia | exact Hi | exact Hj].
  - intros [H1 H2] i j a b Hij Hi Hj. destruct j as [| j]; [lia |]. cbn in Hj.
    destruct i as [| i]; cbn in Hi.
    + inversion Hi; subst a. apply H1. eapply list_elem_of_lookup_2, Hj.
    + apply (H2 i j a b); [lia | exact Hi | exact Hj].
Qed.

Lemma insert_desc_by_descending (x : K * A) l :
  valid x.1 -> Forall (λ y, valid y.1) l -> descending lt l ->
  descending lt (insert_desc_by lt x l).
Proof.
  intros Hx Hl. induction Hl as [| y l Hy Hl IH]; intros Hd; cbn.
  - apply descending_cons. split; [| intros i j ? ? _ Hi; discriminate Hi].
    intros y Hy. inversion Hy.
  - apply descending_cons in Hd as [Hy' Hd].
    destruct (lt x.1 y.1) eqn:E.
    + apply descending_cons. split; [| apply IH; exact Hd].
      intros z Hz. rewrite insert_desc_by_perm in Hz.
      apply elem_of_cons in Hz as [-> | Hz]; [| apply Hy'; exact Hz].
      apply lt_asym; assumption.
    + apply descending_cons. split.
      * intros z Hz. apply elem_of_cons in Hz as [-> | Hz]; [exact E |].
        apply (lt_negtrans _ y.1); try assumption.
        -- rewrite Forall_forall in Hl. apply Hl. exact Hz.
        -- apply Hy'. exact Hz.
      * apply descending_cons. split; assumption.
Qed.

Lemma sorted_desc_by_descending (l : list (K * A)) :
  Forall (λ y, valid y.1) l -> descending lt (sorted_desc_by lt l).
Proof.
  induction 1 as [| x l Hx Hl IH]; cbn.
  - intros i j ? ? _ Hi. discriminate Hi.
  - apply insert_desc_by_descending; [exact Hx | | exact IH].
    fold (sorted_desc_by lt l). now rewrite sorted_desc_by_perm.
Qed.

End Sorting.

Lemma snd_keyed {K A : Type} (key : A -> K) (l : list A) :
  snd <$> ((λ x, (key x, x)) <$> l) = l.
Proof. induction l as [| x l IH]; cbn; [reflexivity |]. now rewrite IH. Qed.

(** The sort of the market researcher is the same sort, on float keys. *)
Lemma insert_desc_is_by {A : Type} (x : float * A) l :
  MarketResearch.insert_desc x l = insert_desc_by flt x l.
Proof. induction l as [| y l IH]; cbn; [reflexivity |]. now rewrite IH. Qed.

Lemma sorted_desc_is_by {A : Type} (l : list (float * A)) :
  MarketResearch.sorted_desc l = sorted_desc_by flt l.
Proof.
  induction l as [| x l IH]; cbn; [reflexivity |].
  unfold MarketResearch.sorted_desc in IH. rewrite IH. apply insert_desc_is_by.
Qed.

(** *** The order of floats and numbers *)

Lemma flt_asym a b : flt a b = true -> flt b a = false.
Proof.
  unfold flt. destruct a as [a | [] |], b as [b | [] |]; cbn; try discriminate;
    try reflexivity.
  rewrite <- (Qcompare_antisym a b). destruct (Qcompare a b); cbn;
    (discriminate || reflexivity).
Qed.

Lemma flt_negtrans a b c :
  not_nan a -> not_nan b -> not_nan c ->
  flt a b = false -> flt b c = false -> flt a c = false.
Proof.
  unfold flt, not_nan.
  destruct a as [a | [] |], b as [b | [] |], c as [c | [] |]; cbn;
    try discriminate; try reflexivity; try congruence.
  intros _ _ _.
  destruct (Qcompare_spec a b) as [Hab | Hab | Hab]; try discriminate;
    destruct (Qcompare_spec b c) as [Hbc | Hbc | Hbc]; try discriminate; intros _ _;
    destruct (Qcompare_spec a c) as [Hac | Hac | Hac]; try reflexivity; exfalso; lra.
Qed.

Lemma feq_not_flt a b : feq a b = true -> flt a b = false.
Proof. unfold feq, flt. destruct (fcompare a b) as [[] |]; (discriminate || reflexivity). Qed.

Lemma feq_sym a b : feq a b = feq b a.
Proof.
  unfold feq. destruct a as [a | [] |], b as [b | [] |]; cbn; try reflexivity.
  rewrite <- (Qcompare_antisym a b). destruct (Qcompare a b); reflexivity.
Qed.

Lemma number_lt_value a b : number_lt a b = flt (value a) (value b).
Proof.
  destruct a as [m | x], b as [n | y]; cbn; try reflexivity.
  unfold flt. cbn. unfold Qcompare. cbn. rewrite !Z.mul_1_r.
  unfold Z.ltb. destruct (m ?= n); reflexivity.
Qed.

Lemma number_eq_value a b : number_eq a b = feq (value a) (value b).
Proof.
  destruct a as [m | x], b as [n | y]; cbn; try reflexivity.
  - unfold feq. cbn. destruct (Z.eqb_spec m n) as [-> | Hne].
    + now rewrite (proj1 (Qeq_alt _ _) (Qeq_refl (inject_Z n))).
    + destruct (Qcompare_spec (inject_Z m) (inject_Z n)) as [H | H | H]; try reflexivity.
      exfalso. apply Hne. apply inject_Z_injective. exact H.
  - apply feq_sym.
Qed.

Lemma feq_trans_l a b c : feq a b = true -> flt a c = flt b c.
Proof.
  unfold feq, flt.
  destruct a as [a | [] |], b as [b | [] |], c as [c | [] |]; cbn;
    try discriminate; try reflexivity.
  destruct (Qcompare_spec a b) as [Hab | Hab | Hab]; try discriminate. intros _.
  destruct (Qcompare_spec a c); destruct (Qcompare_spec b c); try reflexivity; exfalso; lra.
Qed.

Lemma feq_trans_r a b c : feq b c = true -> flt a b = flt a c.
Proof.
  unfold feq, flt.
  destruct a as [a | [] |], b as [b | [] |], c as [c | [] |]; cbn;
    try discriminate; try reflexivity.
  destruct (Qcompare_spec b c) as [Hab | Hab | Hab]; try discriminate. intros _.
  destruct (Qcompare_spec a b); destruct (Qcompare_spec a c); try reflexivity; exfalso; lra.
Qed.

Lemma feq_trans a b c : feq a b = true -> feq b c = true -> feq a c = true.
Proof.
  unfold feq.
  destruct a as [a | [] |], b as [b | [] |], c as [c | [] |]; cbn;
    try discriminate; try reflexivity.
  destruct (Qcompare_spec a b) as [Hab | Hab | Hab]; try discriminate.
  destruct (Qcompare_spec b c) as [Hbc | Hbc | Hbc]; try discriminate. intros _ _.
  destruct (Qcompare_spec a c); try reflexivity; exfalso; lra.
Qed.

Lemma flt_or_feq a b :
  not_nan a -> not_nan b -> flt a b = false -> flt b a = false -> feq a b = true.
Proof.
  unfold flt, feq, not_nan.
  destruct a as [a | [] |], b as [b | [] |]; cbn; try discriminate; try reflexivity;
    try congruence.
  intros _ _. rewrite <- (Qcompare_antisym a b). destruct (Qcompare a b); cbn;
    (discriminate || reflexivity).
Qed.

Lemma pair_lt_asym a b : valid_key a -> valid_key b -> pair_lt a b = true -> pair_lt b a = false.
Proof.
  unfold pair_lt. rewrite !number_eq_value, !number_lt_value. intros _ _.
  rewrite (feq_sym (value b.1)).
  destruct (feq (value a.1) (value b.1)) eqn:E.
  - rewrite !Z.ltb_lt, !Z.ltb_ge. lia.
  - apply flt_asym.
Qed.

Lemma pair_lt_negtrans a b c :
  valid_key a -> valid_key b -> valid_key c ->
  pair_lt a b = false -> pair_lt b c = false -> pair_lt a c = false.
Proof.
  unfold pair_lt, valid_key. rewrite !number_eq_value, !number_lt_value.
  intros Ha Hb Hc.
  destruct (feq (value a.1) (value b.1)) eqn:Eab;
    destruct (feq (value b.1) (value c.1)) eqn:Ebc.
  - rewrite (feq_trans _ _ _ Eab Ebc). rewrite !Z.ltb_ge. lia.
  - intros _ Hbc. rewrite <- (feq_trans_l _ _ _ Eab) in Hbc.
    destruct (feq (value a.1) (value c.1)) eqn:Eac; [| exact Hbc].
    rewrite feq_sym in Eab. rewrite (feq_trans _ _ _ Eab Eac) in Ebc. discriminate.
  - intros Hab _. rewrite (feq_trans_r _ _ _ Ebc) in Hab.
    destruct (feq (value a.1) (value c.1)) eqn:Eac; [| exact Hab].
    rewrite feq_sym in Ebc. rewrite (feq_trans _ _ _ Eac Ebc) in Eab. discriminate.
  - intros Hab Hbc.
    pose proof (flt_negtrans _ _ _ Ha Hb Hc Hab Hbc) as Hac.
    destruct (feq (value a.1) (value c.1)) eqn:Eac; [| exact Hac].
    (* a = c, so b is neither below nor above a: b = a *)
    exfalso. rewrite (feq_trans_l _ _ _ Eac) in Hab. 
    rewrite feq_sym in Eab. rewrite <- (feq_trans_r _ _ _ Eac) in Hbc.
    rewrite (flt_or_feq _ _ Hb Ha Hbc) in Eab; [discriminate |].
    rewrite (feq_trans_l _ _ _ Eac). exact Hab.
Qed.

End LoopFacts.

(** ** Text: lower-casing, substrings, slices *)

Module TextFacts.
Import Py.
Local Open Scope string_scope.

Lemma lower_char_idem c : lower_char (lower_char c) = lower_char c.
Proof. destruct c as [[] [] [] [] [] [] [] []]; reflexivity. Qed.

Lemma lower_idem s : lower (lower s) = lower s.
Proof.
  induction s as [| c s IH]; cbn; [reflexivity |]. now rewrite lower_char_idem, IH.
Qed.

Lemma startswith_spec s prefix :
  startswith s prefix = true <-> exists rest, s = prefix +:+ rest.
Proof.
  revert s. induction prefix as [| a p IH]; intros s; cbn.
  - destruct s; cbn; split; eauto.
  - destruct s as [| b s]; cbn.
    + split; [discriminate | intros [rest H]; discriminate H].
    + rewrite andb_true_iff, bool_decide_eq_true, IH. split.
      * intros [-> [rest ->]]. eauto.
      * intros [rest H]. injection H as -> ->. eauto.
Qed.

(** [contains sub s] holds exactly when [sub] occurs in [s]. *)
Lemma contains_spec sub s :
  contains sub s = true <-> exists before after, s = before +:+ sub +:+ after.
Proof.
  induction s as [| c s IH].
  - cbn [contains]. rewrite orb_false_r, startswith_spec. split.
    + intros [rest H]. exists "", rest. exact H.
    + intros (before & after & H). destruct before; cbn in H; [eauto | discriminate].
  - cbn [contains]. rewrite orb_true_iff, startswith_spec, IH. split.
    + intros [[rest H] | (before & after & H)].
      * exists "", rest. exact H.
      * exists (String c before), after. cbn. now rewrite H.
    + intros (before & after & H). destruct before as [| b before]; cbn in H.
      * left. eauto.
      * right. injection H as -> H. eauto.
Qed.

Lemma length_str_take n s : String.length (str_take n s) = Nat.min n (String.length s).
Proof.
  revert s. induction n as [| n IH]; intros [| c s]; cbn; try reflexivity.
  now rewrite IH.
Qed.

Lemma length_append s s' : String.length (s +:+ s') = (String.length s + String.length s')%nat.
Proof. induction s as [| c s IH]; simpl; [reflexivity | now f_equal]. Qed.

(** *** Cleaning a keyword: [keyword.lower().strip()] *)

Lemma is_space_lower_char c : is_space (lower_char c) = is_space c.
Proof. destruct c as [[] [] [] [] [] [] [] []]; reflexivity. Qed.

Lemma lower_lstrip s : lower (lstrip s) = lstrip (lower s).
Proof.
  induction s as [| c s IH]; [reflexivity |]. cbn [lstrip lower].
  rewrite is_space_lower_char. destruct (is_space c); [exact IH | reflexivity].
Qed.

Lemma lower_rev_append s acc :
  lower (string_rev_append s acc) = string_rev_append (lower s) (lower acc).
Proof.
  revert acc. induction s as [| c s IH]; intros acc; [reflexivity |].
  cbn [string_rev_append lower]. now rewrite IH.
Qed.

Lemma lower_strip s : lower (strip s) = strip (lower s).
Proof.
  unfold strip, rstrip, string_rev.
  now rewrite lower_rev_append, lower_lstrip, lower_rev_append, lower_lstrip.
Qed.

Lemma append_assoc s s' s'' : (s +:+ s') +:+ s'' = s +:+ (s' +:+ s'').
Proof.
  induction s as [| c s IH]; [reflexivity |].
  change (String c ((s +:+ s') +:+ s'') = String c (s +:+ (s' +:+ s''))).
  now rewrite IH.
Qed.

Lemma string_rev_append_spec s acc : string_rev_append s acc = string_rev s +:+ acc.
Proof.
  unfold string_rev. revert acc. induction s as [| c s IH]; intros acc; [reflexivity |].
  cbn [string_rev_append]. rewrite (IH (String c acc)), (IH (String c EmptyString)).
  now rewrite append_assoc.
Qed.

Lemma string_rev_cons c s : string_rev (String c s) = string_rev s +:+ String c EmptyString.
Proof. unfold string_rev at 1. cbn [string_rev_append]. apply string_rev_append_spec. Qed.

Lemma string_rev_snoc s c : string_rev (s +:+ String c EmptyString) = String c (string_rev s).
Proof.
  induction s as [| a s IH]; [reflexivity |].
  change (String a s +:+ String c EmptyString) with (String a (s +:+ String c EmptyString)).
  now rewrite !string_rev_cons, IH.
Qed.

Lemma string_rev_involutive s : string_rev (string_rev s) = s.
Proof.
  induction s as [| c s IH]; [reflexivity |].
  now rewrite string_rev_cons, string_rev_snoc, IH.
Qed.

Lemma lstrip_idem s : lstrip (lstrip s) = lstrip s.
Proof.
  induction s as [| c s IH]; [reflexivity |]. cbn [lstrip].
  destruct (is_space c) eqn:E; [exact IH |]. cbn [lstrip]. now rewrite E.
Qed.

Lemma lstrip_snoc s c :
  is_space c = false -> lstrip (s +:+ String c EmptyString) = lstrip s +:+ String c EmptyString.
Proof.
  intros Hc. induction s as [| a s IH].
  - change (lstrip (String c EmptyString) = String c EmptyString).
    cbn [lstrip]. now rewrite Hc.
  - change (String a s +:+ String c EmptyString) with (String a (s +:+ String c EmptyString)).
    cbn [lstrip]. destruct (is_space a); [exact IH | reflexivity].
Qed.

Lemma rstrip_idem s : rstrip (rstrip s) = rstrip s.
Proof. unfold rstrip. now rewrite string_rev_involutive, lstrip_idem. Qed.

(** Stripping on the right leaves a string without leading spaces so. *)
Lemma lstrip_rstrip_lstrip s : lstrip (rstrip (lstrip s)) = rstrip (lstrip s).
Proof.
  assert (H : forall t, lstrip t = t -> lstrip (rstrip t) = rstrip t).
  { intros [| c t] Ht; [reflexivity |]. cbn [lstrip] in Ht.
    destruct (is_space c) eqn:Hc.
    - exfalso. assert (Hlen : (String.length (lstrip t) <= String.length t)%nat).
      { clear. induction t as [| a t IH]; cbn; [lia |]. destruct (is_space a); cbn; lia. }
      rewrite Ht in Hlen. cbn in Hlen. lia.
    - unfold rstrip. rewrite string_rev_cons, (lstrip_snoc _ _ Hc), string_rev_snoc.
      cbn [lstrip]. now rewrite Hc. }
  apply H, lstrip_idem.
Qed.

Lemma strip_idem s : strip (strip s) = strip s.
Proof. unfold strip. now rewrite lstrip_rstrip_lstrip, rstrip_idem. Qed.

(** Cleaning a cleaned keyword changes nothing. *)
Lemma clean_idem s : strip (lower (strip (lower s))) = strip (lower s).
Proof. now rewrite lower_strip, lower_idem, strip_idem. Qed.

End TextFacts.

(** ** The keyword portfolio *)

Module PortfolioFacts.
Import Binary64 Py PyFacts KeywordOptimizer KeywordFacts Notions LoopFacts.
Local Open Scope string_scope.
Local Open Scope Z_scope.

Lemma count_keyword_lookup m t k :
  default 0 (count_keyword m t !! k)
  = default 0 (m !! k) + (if decide (lower t = k) then 1 else 0).
Proof.
  unfold count_keyword. destruct (decide (lower t = k)) as [-> | Hne].
  - rewrite lookup_insert_eq. cbn. reflexivity.
  - rewrite lookup_insert_ne by exact Hne. lia.
Qed.

Lemma counter_lookup m keywords k :
  default 0 (foldl count_keyword m keywords !! k) = default 0 (m !! k) + occurrences k keywords.
Proof.
  unfold occurrences. revert m. induction keywords as [| t ts IH]; intros m; cbn [foldl].
  - rewrite filter_nil. unfold len. cbn [length]. lia.
  - rewrite IH, count_keyword_lookup, filter_cons.
    destruct (decide (lower t = k)); unfold len; cbn [length]; lia.
Qed.

Lemma collect_keywords_spec listings :
  collect_keywords listings
  = (listings ≫= tags_of, foldl count_keyword ∅ (listings ≫= tags_of)).
Proof.
  unfold collect_keywords.
  assert (H : forall ks m,
    foldl (λ state listing,
             let keywords := tags_of listing in
             ((state.1 ++ keywords)%list, foldl count_keyword state.2 keywords))
          (ks, m) listings
    = ((ks ++ (listings ≫= tags_of))%list, foldl count_keyword m (listings ≫= tags_of))).
  { induction listings as [| l ls IH]; intros ks m; cbn [foldl].
    - cbn. now rewrite app_nil_r.
    - cbn zeta. cbn [fst snd]. rewrite IH. rewrite bind_cons, foldl_app, app_assoc.
      reflexivity. }
  apply H.
Qed.

Lemma occurrences_le k keywords : 0 <= occurrences k keywords <= len keywords.
Proof.
  unfold occurrences, len. pose proof (length_filter (λ t, lower t = k) keywords). lia.
Qed.

Lemma occurrences_pos k keywords : k ∈ lower <$> keywords -> 1 <= occurrences k keywords.
Proof.
  intros H. apply list_elem_of_fmap in H as (t & -> & Ht). unfold occurrences, len.
  assert (Hin : t ∈ filter (λ t0, lower t0 = lower t) keywords)
    by (apply list_elem_of_filter; auto).
  destruct (filter _ keywords); [inversion Hin | cbn; lia].
Qed.

(** The sum of a list of integers does not depend on their order. *)
Lemma total_perm xs ys : xs ≡ₚ ys -> total xs = total ys.
Proof. unfold total. induction 1; cbn [foldr] in *; lia. Qed.

Lemma total_indicator (x : string) ks (g : string -> Z) :
  NoDup ks ->
  total ((λ k, (if decide (x = k) then 1 else 0) + g k) <$> ks)
  = (if decide (x ∈ ks) then 1 else 0) + total (g <$> ks).
Proof.
  unfold total. induction 1 as [| k ks Hk Hnd IH]; cbn [fmap list_fmap foldr].
  - rewrite decide_False by (intros H; inversion H). reflexivity.
  - rewrite IH. destruct (decide (x = k)) as [-> | Hne].
    + rewrite (decide_True (P := k ∈ k :: ks)) by left.
      rewrite (decide_False (P := k ∈ ks)) by exact Hk. lia.
    + destruct (decide (x ∈ ks)) as [Hin | Hnin].
      * rewrite (decide_True (P := x ∈ k :: ks)) by (now right). lia.
      * rewrite (decide_False (P := x ∈ k :: ks)); [lia |].
        intros H. apply elem_of_cons in H as [? | ?]; tauto.
Qed.

(** Every tag is counted under exactly one keyword. *)
Lemma occurrences_total ks keywords :
  NoDup ks -> (forall t, t ∈ keywords -> lower t ∈ ks) ->
  total ((λ k, occurrences k keywords) <$> ks) = len keywords.
Proof.
  intros Hnd. induction keywords as [| t ts IH]; intros Hin.
  - unfold occurrences, total. clear. induction ks as [| k ks IH]; [reflexivity |].
    cbn [fmap list_fmap foldr]. rewrite filter_nil.
    change (len (@nil string)) with 0. cbn [fmap] in IH. rewrite IH. reflexivity.
  - assert (E : (λ k, occurrences k (t :: ts)) <$> ks
               = (λ k, (if decide (lower t = k) then 1 else 0) + occurrences k ts) <$> ks).
    { apply list_fmap_ext. intros _ k _. unfold occurrences. rewrite filter_cons.
      destruct (decide (lower t = k)); unfold len; cbn [length]; lia. }
    rewrite E, total_indicator by exact Hnd.
    rewrite decide_True by (apply Hin; left).
    rewrite IH by (intros t' Ht'; apply Hin; now right).
    unfold len. cbn [length]. lia.
Qed.

Lemma penalised_score_not_nan r y :
  0 <= r < 2 ^ 53 -> int_mul_float r (float_literal (8 # 10)) = Ok y -> not_nan y.
Proof.
  intros Hr. unfold int_mul_float.
  destruct (float_of_int_small r Hr) as (q & -> & _). cbn [mbind result_bind].
  assert (Hb : exists b, float_literal (8 # 10) = Finite b) by (vm_compute; eauto).
  destruct Hb as [b ->]. intros H. injection H as <-. cbn [fmul]. apply RoundFacts.round_not_nan.
Qed.

(** An analysis over at least one listing: its fields, and that its sort key
    is a number. *)
Lemma analysis_in_portfolio kw f t :
  0 < t -> 0 <= f <= max_float ->
  exists a, _analyze_single_keyword kw f t = Ok a /\
            keyword a = kw /\ frequency_across_listings a = f /\
            valid_key (sort_key a).
Proof.
  intros Ht Hf. pose proof (analyze_spec kw f t ltac:(lia)) as H. cbv zeta in H.
  destruct (_analyze_single_keyword kw f t) as [a | e].
  - destruct H as (ratio & _ & Hk & Hfr & _ & H1 & H2 & _).
    exists a. split; [reflexivity |]. split; [exact Hk |]. split; [exact Hfr |].
    unfold valid_key, sort_key. cbn [fst].
    destruct (flt (float_literal (7 # 10)) ratio).
    + destruct (H1 eq_refl) as (y & Hy & ->). cbn [value].
      eapply penalised_score_not_nan; [| exact Hy].
      pose proof (keyword_data_relevance (strip (lower kw))). lia.
    + rewrite (H2 eq_refl). cbn [value]. discriminate.
  - exfalso. destruct H as [_ H]. nia.
Qed.

(** The loop of [analyze_keyword_portfolio] over the unique keywords, in the
    order [ks] of the iteration. *)
Lemma analyses_of_keywords listings ks :
  len (listings ≫= tags_of) <= max_float ->
  (forall k, k ∈ ks -> k ∈ lower <$> (listings ≫= tags_of)) ->
  exists analyses,
    map_result (λ keyword,
                  _analyze_single_keyword keyword
                    (default 0 ((collect_keywords listings).2 !! keyword))
                    (len listings)) ks = Ok analyses /\
    Forall2 (λ k a, keyword a = k /\
                    frequency_across_listings a = occurrences k (listings ≫= tags_of) /\
                    valid_key (sort_key a) /\
                    _analyze_single_keyword k (occurrences k (listings ≫= tags_of))
                      (len listings) = Ok a)
            ks analyses.
Proof.
  intros Hbound Hks. rewrite collect_keywords_spec. cbn [snd].
  assert (Hlen : forall k, k ∈ ks -> 0 < len listings).
  { intros k Hk. apply Hks in Hk. destruct listings as [| l ls]; [| unfold len; cbn; lia].
    cbn in Hk. inversion Hk. }
  induction ks as [| k ks IH]; cbn [map_result].
  - exists []. split; [reflexivity | constructor].
  - rewrite counter_lookup, lookup_empty. cbn [default]. rewrite Z.add_0_l.
    pose proof (occurrences_le k (listings ≫= tags_of)) as Hocc.
    destruct (analysis_in_portfolio k (occurrences k (listings ≫= tags_of)) (len listings))
      as (a & Ea & Hk1 & Hk2 & Hk3); [apply (Hlen k); left | lia |].
    rewrite Ea. cbn [mbind result_bind].
    destruct IH as (analyses & E & F).
    { intros k' Hk'. apply Hks. now right. }
    { intros k' Hk'. apply (Hlen k'). now right. }
    rewrite E. cbn [mbind result_bind]. exists (a :: analyses). split; [reflexivity |].
    constructor; [auto | exact F].
Qed.

Lemma iter_elem_of (iter : gset string -> list string) (s : gset string) k :
  (forall s, iter s ≡ₚ elements s) -> k ∈ iter s <-> k ∈ s.
Proof. intros H. rewrite (H s). apply elem_of_elements. Qed.

Lemma iter_NoDup (iter : gset string -> list string) (s : gset string) :
  (forall s, iter s ≡ₚ elements s) -> NoDup (iter s).
Proof. intros H. rewrite (H s). apply NoDup_elements. Qed.

(** What [analyze_keyword_portfolio] returns: the analyses of the unique
    keywords, sorted. *)
Lemma portfolio_spec iter listings :
  (forall s, iter s ≡ₚ elements s) ->
  len (listings ≫= tags_of) <= max_float ->
  exists analyses,
    analyze_keyword_portfolio iter listings
    = Ok (snd <$> sorted_desc_by pair_lt ((λ x, (sort_key x, x)) <$> analyses)) /\
    Forall2 (λ k a, keyword a = k /\
                    frequency_across_listings a = occurrences k (listings ≫= tags_of) /\
                    valid_key (sort_key a) /\
                    _analyze_single_keyword k (occurrences k (listings ≫= tags_of))
                      (len listings) = Ok a)
            (iter (portfolio_keywords listings)) analyses.
Proof.
  intros Hiter Hbound. unfold analyze_keyword_portfolio, portfolio_keywords.
  destruct (analyses_of_keywords listings
              (iter (list_to_set (lower <$> (listings ≫= tags_of)))) Hbound)
    as (analyses & E & F).
  { intros k Hk. apply (iter_elem_of iter _ k Hiter) in Hk.
    now apply elem_of_list_to_set in Hk. }
  exists analyses. split; [| exact F].
  rewrite collect_keywords_spec in *. cbn [fst snd] in *. rewrite E. reflexivity.
Qed.

End PortfolioFacts.

(** ** The optimization of one listing *)

Module ListingFacts.
Import Binary64 Py PyFacts KeywordOptimizer KeywordFacts Notions LoopFacts.
Local Open Scope string_scope.
Local Open Scope Z_scope.

(** The catalogue rates the five quality descriptors 3 or lower. *)
Lemma quality_descriptors_low k :
  k ∈ ["beautiful"; "perfect"; "amazing"; "awesome"; "great"] ->
  relevance (default unknown_keyword (keyword_performance_db !! k)) <= 3.
Proof.
  intros H. repeat (apply elem_of_cons in H as [-> | H]; [vm_compute; discriminate |]).
  inversion H.
Qed.

(** Hence the rule for quality descriptors never decides. *)
Lemma quality_rule_is_dead k ratio :
  (_determine_action k (default unknown_keyword (keyword_performance_db !! k)) ratio).2
  <> QualityDescriptor.
Proof.
  unfold _determine_action. cbv zeta.
  set (d := default unknown_keyword (keyword_performance_db !! k)).
  destruct (Z.leb_spec (relevance d) 3) as [H3 | H3]; [discriminate |].
  case_bool_decide as Hq.
  { apply quality_descriptors_low in Hq. fold d in Hq. lia. }
  cbn [andb].
  repeat match goal with
         | |- context [if ?c then _ else _] => destruct c
         end; discriminate.
Qed.

Lemma action_is_one_of_three k d ratio :
  (_determine_action k d ratio).1 ∈ ["Remove"; "Replace"; "Keep"].
Proof.
  unfold _determine_action. cbv zeta.
  destruct (relevance d <=? 3); [cbn [fst]; left |].
  destruct (_ && _); [cbn [fst]; left |].
  destruct (_ && _); [cbn [fst]; right; left |].
  destruct (_ && _); [cbn [fst]; right; left |].
  destruct (_ && _); cbn [fst]; right; right; left.
Qed.

Lemma one_of_one : int_truediv 1 1 = Ok (Finite 1).
Proof. vm_compute. reflexivity. Qed.

(** In the context of a single listing the keyword is used by all the
    listings there are: it is removed up to relevance 3, replaced up to 8
    and kept above. *)
Lemma single_listing_analysis k :
  exists a, _analyze_single_keyword k 1 1 = Ok a /\
            action_recommendation a = verdict k /\
            replacement_suggestions a = _get_replacement_suggestions (strip (lower k)).
Proof.
  pose proof (analyze_spec k 1 1 ltac:(lia)) as H. cbv zeta in H.
  destruct (_analyze_single_keyword k 1 1) as [a | e].
  - destruct H as (ratio & Er & _ & _ & _ & _ & _ & Hs & Ha & _).
    exists a. split; [reflexivity |]. split; [| exact Hs].
    rewrite one_of_one in Er. injection Er as <-. rewrite Ha. clear.
    unfold verdict, keyword_data, _determine_action. cbv zeta.
    set (kc := strip (lower k)).
    set (d := default unknown_keyword (keyword_performance_db !! kc)).
    destruct (Z.leb_spec (relevance d) 3) as [H3 | H3]; [reflexivity |].
    case_bool_decide as Hq.
    { apply quality_descriptors_low in Hq. fold d in Hq. lia. }
    cbn [andb].
    assert (Hover : flt (float_literal (8 # 10)) (Finite 1) = true) by (vm_compute; reflexivity).
    rewrite Hover. cbn [andb].
    destruct (Z.leb_spec (relevance d) 8) as [H8 | H8].
    + destruct (bool_decide (competition d = "High") && bool_decide (trend d = "declining")
                && (relevance d <=? 7)); reflexivity.
    + assert (E7 : (relevance d <=? 7) = false) by (apply Z.leb_gt; lia).
      rewrite E7, andb_false_r.
      destruct ((8 <=? relevance d) && bool_decide (trend d ∈ ["stable"; "rising"]));
        reflexivity.
  - exfalso. destruct H as [_ H]. unfold max_float in H. cbn in H. lia.
Qed.

Lemma verdict_cases k :
  (verdict k = "Remove" /\ relevance (keyword_data k) <= 3) \/
  (verdict k = "Replace" /\ 4 <= relevance (keyword_data k) <= 8) \/
  (verdict k = "Keep" /\ 9 <= relevance (keyword_data k)).
Proof.
  unfold verdict. destruct (Z.leb_spec (relevance (keyword_data k)) 3);
    [left; split; [reflexivity | lia] |].
  destruct (Z.leb_spec (relevance (keyword_data k)) 8);
    [right; left | right; right]; (split; [reflexivity | lia]).
Qed.

Lemma optimize_keyword_spec state k :
  optimize_keyword state k
  = Ok (if bool_decide (verdict k = "Remove") then ((state.1 ++ [k])%list, state.2)
        else (state.1, record_replacement state.2 k)).
Proof.
  unfold optimize_keyword. destruct (single_listing_analysis k) as (a & -> & Ha & Hs).
  cbn [mbind result_bind]. rewrite Ha, Hs. unfold record_replacement, replacement_of.
  case_bool_decide as H1; [reflexivity |].
  case_bool_decide as H2.
  - destruct (_get_replacement_suggestions (strip (lower k))); cbn [head]; [| reflexivity].
    now destruct state.
  - now destruct state.
Qed.

Lemma optimize_loop state ks :
  fold_result optimize_keyword state ks
  = Ok ((state.1 ++ filter (λ k, verdict k = "Remove") ks)%list,
        foldl record_replacement state.2 (filter (λ k, verdict k <> "Remove") ks)).
Proof.
  revert state. induction ks as [| k ks IH]; intros state; cbn [fold_result].
  - rewrite !filter_nil, app_nil_r. cbn. now destruct state.
  - rewrite optimize_keyword_spec. cbn [mbind result_bind]. rewrite IH, !filter_cons.
    case_bool_decide as H.
    + rewrite decide_True by exact H. rewrite decide_False by tauto.
      cbn [fst snd]. now rewrite <- app_assoc.
    + rewrite decide_False by exact H. rewrite decide_True by exact H. reflexivity.
Qed.

Lemma replacement_of_not_removed k r : replacement_of k = Some r -> verdict k <> "Remove".
Proof.
  unfold replacement_of. case_bool_decide as H; [| discriminate]. intros _. rewrite H.
  discriminate.
Qed.

Lemma recorded_lookup m ks k :
  foldl record_replacement m ks !! k
  = match (if decide (k ∈ ks) then replacement_of k else None) with
    | Some r => Some r
    | None => m !! k
    end.
Proof.
  revert m. induction ks as [| k' ks IH]; intros m; cbn [foldl].
  - rewrite decide_False by (intros H; inversion H). reflexivity.
  - rewrite IH. destruct (decide (k ∈ ks)) as [Hin | Hnin].
    + rewrite (decide_True (P := k ∈ k' :: ks)) by (now right).
      destruct (replacement_of k) as [r |] eqn:Er; [reflexivity |].
      unfold record_replacement. destruct (replacement_of k') as [r' |] eqn:Er'; [| reflexivity].
      rewrite lookup_insert_ne; [reflexivity |]. intros ->. congruence.
    + destruct (decide (k = k')) as [-> | Hne].
      * rewrite (decide_True (P := k' ∈ k' :: ks)) by left.
        unfold record_replacement. destruct (replacement_of k') as [r' |].
        -- now rewrite lookup_insert_eq.
        -- reflexivity.
      * rewrite (decide_False (P := k ∈ k' :: ks)).
        2:{ intros H. apply elem_of_cons in H as [? | ?]; tauto. }
        unfold record_replacement. destruct (replacement_of k') as [r' |]; [| reflexivity].
        now rewrite lookup_insert_ne by congruence.
Qed.

Lemma recorded_size m ks :
  (size (foldl record_replacement m ks) <= size m + length ks)%nat.
Proof.
  revert m. induction ks as [| k ks IH]; intros m; cbn [foldl length]; [lia |].
  etransitivity; [apply IH |]. unfold record_replacement.
  destruct (replacement_of k) as [r |]; [| lia].
  destruct (m !! k) eqn:E.
  - rewrite map_size_insert_Some by eauto. lia.
  - rewrite map_size_insert_None by exact E. lia.
Qed.

(** What [optimize_listing_keywords] returns. *)
Lemma optimize_listing_spec listing :
  exists o, optimize_listing_keywords listing = Ok o /\
    listing_title o = default "Unknown Listing" (Listing.title listing) /\
    current_keywords o = tags_of listing /\
    keywords_to_remove o = filter (λ k, verdict k = "Remove") (tags_of listing) /\
    keywords_to_replace o
    = foldl record_replacement ∅ (filter (λ k, verdict k <> "Remove") (tags_of listing)) /\
    keywords_to_add o
    = take 3 (_suggest_additional_keywords (listing_title o) (tags_of listing)) /\
    let total_changes :=
      len (keywords_to_remove o) + Z.of_nat (size (keywords_to_replace o))
      + len (keywords_to_add o) in
    (optimization_priority o, expected_improvement o)
    = if 5 <=? total_changes then ("High", "25-40% improvement expected")
      else if 3 <=? total_changes then ("Medium", "15-25% improvement expected")
      else ("Low", "5-15% improvement expected").
Proof.
  unfold optimize_listing_keywords. rewrite optimize_loop. cbn [mbind result_bind fst snd app].
  eexists. split; [reflexivity |].
  cbn [listing_title current_keywords keywords_to_remove keywords_to_replace keywords_to_add
       optimization_priority expected_improvement].
  repeat split. cbv zeta. now rewrite <- surjective_pairing.
Qed.

End ListingFacts.

(** ** Suggestions, gaps and quick wins *)

Module AdviceFacts.
Import Binary64 Py PyFacts KeywordOptimizer KeywordFacts Notions LoopFacts TextFacts.
Local Open Scope string_scope.
Local Open Scope list_scope.
Local Open Scope Z_scope.

(** The loop that drops the duplicates and the keywords the listing has. *)
Lemma dedupe_spec (current_lower : list string) suggestions acc :
  let out :=
    foldl (λ unique_suggestions suggestion,
             if negb (bool_decide (lower suggestion ∈ current_lower))
                && negb (bool_decide (suggestion ∈ unique_suggestions))
             then (unique_suggestions ++ [suggestion])%list
             else unique_suggestions)
          acc suggestions in
  NoDup acc -> (forall s, s ∈ acc -> lower s ∉ current_lower) ->
  NoDup out /\
  (forall s, s ∈ out <-> s ∈ acc \/ (s ∈ suggestions /\ lower s ∉ current_lower)).
Proof.
  cbv zeta. revert acc. induction suggestions as [| x xs IH]; intros acc Hnd Hacc; cbn [foldl].
  - split; [exact Hnd |]. intros s. split; [auto |]. intros [H | [H _]]; [exact H | inversion H].
  - case_bool_decide as H1; cbn [negb andb].
    + destruct (IH acc Hnd Hacc) as [N M]. split; [exact N |].
      intros s. rewrite M, elem_of_cons. split; [tauto |].
      intros [H | [[-> | H] H']]; tauto.
    + case_bool_decide as H2; cbn [negb].
      * destruct (IH acc Hnd Hacc) as [N M]. split; [exact N |].
        intros s. rewrite M, elem_of_cons. split; [tauto |].
        intros [H | [[-> | H] H']]; tauto.
      * destruct (IH (acc ++ [x])%list) as [N M].
        { apply NoDup_app. split; [exact Hnd |]. split; [| apply NoDup_singleton].
          intros y Hy Hx. apply list_elem_of_singleton in Hx. subst y. contradiction. }
        { intros s Hs. apply elem_of_app in Hs as [Hs | Hs]; [now apply Hacc |].
          apply list_elem_of_singleton in Hs. now subst s. }
        split; [exact N |]. intros s. rewrite M, elem_of_app, list_elem_of_singleton, elem_of_cons.
        split; [| tauto]. intros [[H | ->] | [H H']]; tauto.
Qed.

Lemma NoDup_take {A : Type} n (l : list A) : NoDup l -> NoDup (take n l).
Proof.
  intros H. rewrite <- (take_drop n l) in H. now apply NoDup_app in H as [H _].
Qed.

Lemma elem_of_take {A : Type} n (l : list A) x : x ∈ take n l -> x ∈ l.
Proof. intros H. rewrite <- (take_drop n l). apply elem_of_app. now left. Qed.

(** Where an element of a duplicate-free list ends up after a filter and a
    cut: it is kept when it passes the filter and fewer than [n] elements
    before it do. *)
Lemma elem_of_take_filter {A : Type} (P : A -> Prop) `{!forall x, Decision (P x)}
    n (l : list A) i x :
  NoDup l -> l !! i = Some x ->
  x ∈ take n (filter P l) <-> P x /\ (length (filter P (take i l)) < n)%nat.
Proof.
  intros Hnd Hi.
  assert (Hl : l = take i l ++ x :: drop (S i) l)
    by (symmetry; apply take_drop_middle; exact Hi).
  assert (Hx1 : (x ∉ take i l) /\ (x ∉ drop (S i) l)).
  { rewrite Hl in Hnd. apply NoDup_app in Hnd as (_ & H1 & H2).
    apply NoDup_cons in H2 as [H2 _]. split; [| exact H2].
    intros Hin. apply (H1 x Hin). left. }
  destruct Hx1 as [Hx1 Hx2].
  set (pre := filter P (take i l)).
  assert (Hpre : x ∉ pre) by (unfold pre; rewrite list_elem_of_filter; tauto).
  rewrite Hl at 1. rewrite filter_app, filter_cons. fold pre.
  destruct (decide (P x)) as [HP | HP].
  - split.
    + intros Hin. split; [exact HP |].
      destruct (Nat.lt_ge_cases (length pre) n) as [L | G]; [exact L | exfalso].
      rewrite take_app_le in Hin by exact G. apply Hpre. eapply elem_of_take, Hin.
    + intros [_ L]. rewrite take_app_ge by lia.
      apply elem_of_app. right.
      destruct (n - length pre)%nat as [| m] eqn:E; [lia |]. cbn. left.
  - split; [| tauto]. intros Hin. exfalso. apply elem_of_take in Hin.
    apply elem_of_app in Hin as [Hin | Hin]; [contradiction |].
    apply list_elem_of_filter in Hin as [Hin _]. contradiction.
Qed.

Lemma high_value_keywords_NoDup : NoDup high_value_keywords.
Proof. apply (bool_decide_unpack _). vm_compute. reflexivity. Qed.

(** The gaps are the first eight missing high-value keywords. *)
Lemma portfolio_gaps_spec listings :
  _identify_portfolio_gaps listings
  = take 8 (filter (λ k, k ∉ portfolio_keywords listings) high_value_keywords).
Proof.
  unfold _identify_portfolio_gaps. cbv zeta. f_equal.
  rewrite (foldl_append_if (λ k, bool_decide (k ∉ portfolio_keywords listings)) id).
  cbn [app]. rewrite list_fmap_id. apply list_filter_iff. intros k.
  now rewrite bool_decide_eq_true.
Qed.

End AdviceFacts.

(** ** The portfolio report *)

Module ReportFacts.
Import Binary64 Py PyFacts KeywordOptimizer KeywordFacts Notions LoopFacts TextFacts
  PortfolioFacts ListingFacts AdviceFacts.
Local Open Scope string_scope.
Local Open Scope list_scope.
Local Open Scope Z_scope.

Lemma total_keywords_spec listings :
  foldr Z.add 0 ((λ listing, len (tags_of listing)) <$> listings) = len (listings ≫= tags_of).
Proof.
  induction listings as [| l ls IH]; [reflexivity |].
  cbn [fmap list_fmap foldr]. rewrite bind_cons, len_app. cbn [fmap] in IH. now rewrite IH.
Qed.

Lemma optimizations_total listings :
  exists opts, map_result optimize_listing_keywords listings = Ok opts /\
               Forall2 (λ l o, optimize_listing_keywords l = Ok o) listings opts.
Proof.
  destruct (MarketFacts.map_result_total optimize_listing_keywords listings) as [opts E].
  - apply Forall_forall. intros l _.
    destruct (optimize_listing_spec l) as (o & Ho & _). eauto.
  - exists opts. split; [exact E |]. now apply MarketFacts.map_result_Ok.
Qed.

(** The quick wins are the first five optimizations of at least "Medium"
    priority that remove something. *)
Lemma quick_wins_spec opts :
  _identify_quick_wins opts
  = take 5
      ((λ opt,
          {| QuickWin.listing :=
               if 50 <? str_len (listing_title opt)
               then str_take 50 (listing_title opt) +:+ "..."
               else listing_title opt;
             QuickWin.action := QuickWin.RemoveLowValue (len (keywords_to_remove opt));
             QuickWin.impact := expected_improvement opt;
             QuickWin.effort := "5 minutes" |})
       <$> filter (λ opt, bool_decide (optimization_priority opt ∈ ["High"; "Medium"])
                          && (0 <? len (keywords_to_remove opt)) = true) opts).
Proof.
  unfold _identify_quick_wins. cbv zeta. f_equal.
  rewrite (foldl_append_if
             (λ opt, bool_decide (optimization_priority opt ∈ ["High"; "Medium"])
                     && (0 <? len (keywords_to_remove opt)))).
  reflexivity.
Qed.

(** The recommendations, in the order they are appended. *)
Lemma recommendations_spec analyses :
  let remove_count :=
    len (filter (λ a, action_recommendation a = "Remove") analyses) in
  let replace_count :=
    len (filter (λ a, action_recommendation a = "Replace") analyses) in
  _generate_strategic_recommendations analyses
  = (if 5 <? remove_count then [PortfolioCleanup remove_count] else [])
    ++ (if 3 <? replace_count then [KeywordModernization replace_count] else [])
    ++ (if bool_decide (Exists (λ a, 10 < frequency_across_listings a) analyses)
        then [KeywordDiversification] else [])
    ++ [TrendAlignment].
Proof.
  cbv zeta. unfold _generate_strategic_recommendations. cbv zeta.
  set (rc := len (filter (λ a, action_recommendation a = "Remove") analyses)).
  set (pc := len (filter (λ a, action_recommendation a = "Replace") analyses)).
  assert (Hov : match filter (λ a, 10 < frequency_across_listings a) analyses with
                | [] => false | _ :: _ => true end
                = bool_decide (Exists (λ a, 10 < frequency_across_listings a) analyses)).
  { destruct (filter (λ a, 10 < frequency_across_listings a) analyses) as [| a l] eqn:E.
    - symmetry. apply bool_decide_eq_false. intros H. apply Exists_exists in H as (a & Ha & H).
      assert (Hin : a ∈ filter (λ a, 10 < frequency_across_listings a) analyses)
        by (apply list_elem_of_filter; auto).
      rewrite E in Hin. inversion Hin.
    - symmetry. apply bool_decide_eq_true. apply Exists_exists. exists a.
      assert (Hin : a ∈ filter (λ a, 10 < frequency_across_listings a) analyses)
        by (rewrite E; left).
      apply list_elem_of_filter in Hin as [H1 H2]. auto. }
  rewrite <- Hov.
  destruct (5 <? rc); destruct (3 <? pc);
    destruct (filter (λ a, 10 < frequency_across_listings a) analyses); reflexivity.
Qed.

Lemma iter_empty (iter : gset string -> list string) :
  (forall s, iter s ≡ₚ elements s) -> iter ∅ = [].
Proof.
  intros H. apply Permutation_nil_r. rewrite (H ∅). now rewrite elements_empty.
Qed.

(** What [generate_portfolio_report] returns. *)
Lemma portfolio_report_spec iter listings :
  (forall s, iter s ≡ₚ elements s) ->
  len (listings ≫= tags_of) <= max_float ->
  exists analyses opts avg,
    analyze_keyword_portfolio iter listings = Ok analyses /\
    map_result optimize_listing_keywords listings = Ok opts /\
    match listings with
    | _ :: _ => exists x, int_truediv (len (listings ≫= tags_of)) (len listings) = Ok x /\
                          avg = Float x
    | [] => avg = Int 0
    end /\
    generate_portfolio_report iter listings
    = Ok {| portfolio_summary :=
              {| total_listings := len listings;
                 total_unique_keywords := Z.of_nat (size (portfolio_keywords listings));
                 avg_keywords_per_listing := number_round1 avg;
                 high_priority_optimizations :=
                   len (filter (λ opt, optimization_priority opt = "High") opts) |};
            keyword_analyses := analyses;
            listing_optimizations := opts;
            portfolio_gaps := _identify_portfolio_gaps listings;
            quick_wins := _identify_quick_wins opts;
            strategic_recommendations := _generate_strategic_recommendations analyses |}.
Proof.
  intros Hiter Hbound.
  destruct (portfolio_spec iter listings Hiter Hbound) as (analyses & E & _).
  destruct (optimizations_total listings) as (opts & Eo & _).
  unfold generate_portfolio_report. rewrite E, Eo. cbn [mbind result_bind].
  rewrite total_keywords_spec.
  destruct listings as [| l ls].
  - eexists _, _, (Int 0). repeat split.
  - set (ll := l :: ls) in *.
    destruct (int_truediv_in_range (len (ll ≫= tags_of)) (len ll)) as [q Eq].
    + unfold len, ll. cbn [length]. lia.
    + pose proof (len_nonneg (ll ≫= tags_of)).
      assert (1 <= len ll) by (unfold len, ll; cbn [length]; lia).
      assert (0 < max_float) by (vm_compute; reflexivity). nia.
    + rewrite Eq. cbn [mbind result_bind].
      eexists _, _, (Float (Finite q)). split; [reflexivity |]. split; [reflexivity |].
      split; [eauto | reflexivity].
Qed.

End ReportFacts.

(** ** The opportunity report *)

Module OpportunityFacts.
Import Binary64 Py PyFacts MarketResearch MarketFacts ImpactFacts PriorityFacts ScoringFacts
  Notions LoopFacts.
Local Open Scope string_scope.
Local Open Scope list_scope.
Local Open Scope Z_scope.

Lemma fmul_not_nan x q : not_nan x -> (1 <= q)%Q -> not_nan (fmul x (Finite q)).
Proof.
  unfold not_nan. intros Hx Hq. destruct x as [a | s |]; cbn [fmul].
  - apply RoundFacts.round_not_nan.
  - unfold inf_sign. destruct (Qcompare_spec q 0) as [H | H | H]; try discriminate.
    exfalso. lra.
  - contradiction.
Qed.

Lemma fdiv_not_nan x q : not_nan x -> not_nan (fdiv x (Finite q)).
Proof.
  unfold not_nan. intros Hx. destruct x as [a | s |]; cbn [fdiv].
  - apply RoundFacts.round_not_nan.
  - discriminate.
  - contradiction.
Qed.

(** A priority score computed from sub-scores between 1 and 5 is a number. *)
Lemma priority_not_nan self o p :
  1 <= impact_score o <= 5 -> 1 <= confidence_score o <= 5 -> 1 <= effort_score o <= 5 ->
  _calculate_priority_score self o = Ok p -> not_nan p.
Proof.
  intros Hi Hc He. unfold _calculate_priority_score.
  destruct (int_truediv_cases (search_volume o) 1000) as [[q ->] | ->]; [lia | | discriminate].
  destruct (score_as_float _ Hi) as (qi & Ei & _ & Hqi).
  destruct (score_as_float _ Hc) as (qc & Ec & _ & Hqc).
  destruct (score_as_float _ He) as (qe & Ee & _ & Hqe).
  cbn [mbind result_bind]. unfold float_mul_int, float_truediv_int.
  rewrite Ei, Ec, Ee. cbn [mbind result_bind]. unfold float_truediv.
  destruct (is_zero (Finite qe)); [discriminate |]. intros H. injection H as <-.
  apply fdiv_not_nan. apply (fmul_not_nan _ qc); [| exact Hqc].
  apply (fmul_not_nan (Finite q) qi); [discriminate | exact Hqi].
Qed.

(** What a scored opportunity carries. *)
Lemma created_scores self opp mo :
  _create_market_opportunity self opp = Ok mo ->
  1 <= effort_score mo <= 5 /\ 1 <= impact_score mo <= 5 /\
  1 <= confidence_score mo <= 5 /\
  timeline mo = _determine_timeline self (effort_score mo) opp /\
  search_volume mo = Opp.search_volume opp.
Proof.
  unfold _create_market_opportunity. intros H.
  destruct (_calculate_impact_score self opp) as [i |] eqn:Ei; [| discriminate].
  cbn [mbind result_bind] in H. injection H as <-.
  cbn [effort_score impact_score confidence_score timeline search_volume].
  split; [apply clamp_range |]. split; [eapply impact_range, Ei |].
  split; [apply clamp_range |]. split; reflexivity.
Qed.

Lemma timeline_is_a_bucket self effort opp : _determine_timeline self effort opp ∈ timelines.
Proof.
  unfold _determine_timeline, timelines.
  destruct (effort <=? 2); [left |].
  destruct (effort =? 3); [right; left |].
  destruct (effort =? 4); [right; right; left | right; right; right; left].
Qed.

(** The research loop: the feasible candidates, scored, keyed by their
    priority and sorted. *)
Lemma research_keyed self cands :
  Forall Candidate.valid cands ->
  exists opps keyed,
    map_result (_create_market_opportunity self)
      (filter (λ opp, _is_opportunity_feasible self opp = true) cands) = Ok opps /\
    Forall2 (λ mo kx, kx.2 = mo /\ _calculate_priority_score self mo = Ok kx.1) opps keyed /\
    research_candidates self cands = Ok (snd <$> sorted_desc keyed).
Proof.
  intros Hv. unfold research_candidates.
  set (feas := filter (λ o, _is_opportunity_feasible self o = true) cands).
  assert (Hfeas : forall o, o ∈ feas -> Candidate.valid o).
  { intros o Ho. unfold feas in Ho. apply list_elem_of_filter in Ho as [_ Ho].
    rewrite Forall_forall in Hv. now apply Hv. }
  destruct (map_result_total (_create_market_opportunity self) feas) as [opps Hopps].
  { apply Forall_forall. intros o Ho.
    destruct (valid_is_scored self o (Hfeas o Ho)) as (mo & p & H1 & _). eauto. }
  rewrite Hopps. cbn [mbind result_bind].
  pose proof (map_result_Ok _ _ _ Hopps) as F2.
  destruct (map_result_total (λ x, k ← _calculate_priority_score self x; Ok (k, x)) opps)
    as [keyed Hkeyed].
  { apply Forall_forall. intros mo Hmo.
    destruct (proj1 (list_elem_of_lookup _ _) Hmo) as [i Hi].
    destruct (Forall2_lookup_r _ _ _ _ _ F2 Hi) as (o & Ho & Hc).
    apply list_elem_of_lookup_2 in Ho.
    destruct (valid_is_scored self o (Hfeas o Ho)) as (mo' & p & H1 & H2).
    assert (mo' = mo) by congruence. subst mo'. rewrite H2. cbn. eauto. }
  rewrite Hkeyed. cbn [mbind result_bind]. exists opps, keyed.
  split; [reflexivity |]. split; [| reflexivity].
  pose proof (map_result_Ok _ _ _ Hkeyed) as F. clear - F.
  induction F as [| mo kx opps' keyed' H F IH]; constructor; [| exact IH].
  destruct (_calculate_priority_score self mo) as [k |]; cbn in H; [| discriminate].
  injection H as <-. split; reflexivity.
Qed.

(** *** Capability gaps *)

Lemma required_capabilities_spec opps s0 t0 :
  foldl (λ state opp,
           (state.1 ∪ list_to_set (skill_requirements opp),
            state.2 ∪ list_to_set (resource_requirements opp)))
        (s0, t0) opps
  = (s0 ∪ ⋃ ((λ opp, list_to_set (skill_requirements opp) : gset string) <$> opps),
     t0 ∪ ⋃ ((λ opp, list_to_set (resource_requirements opp) : gset string) <$> opps)).
Proof.
  revert s0 t0. induction opps as [| o opps IH]; intros s0 t0; cbn [foldl fst snd].
  - cbn. f_equal; set_solver.
  - rewrite IH. cbn [fmap list_fmap]. rewrite !union_list_cons. f_equal; set_solver.
Qed.

Lemma required_skills_elem opps s :
  s ∈ (required_capabilities opps).1 <-> exists opp, opp ∈ opps /\ s ∈ skill_requirements opp.
Proof.
  unfold required_capabilities. rewrite required_capabilities_spec. cbn [fst].
  rewrite elem_of_union, elem_of_union_list. split.
  - intros [H | (X & HX & Hs)]; [set_solver |].
    apply list_elem_of_fmap in HX as (opp & -> & Hopp).
    exists opp. split; [exact Hopp |]. now apply elem_of_list_to_set in Hs.
  - intros (opp & Hopp & Hs). right. exists (list_to_set (skill_requirements opp)).
    split; [apply list_elem_of_fmap; eauto | now apply elem_of_list_to_set].
Qed.

Lemma required_tools_elem opps t :
  t ∈ (required_capabilities opps).2 <-> exists opp, opp ∈ opps /\ t ∈ resource_requirements opp.
Proof.
  unfold required_capabilities. rewrite required_capabilities_spec. cbn [snd].
  rewrite elem_of_union, elem_of_union_list. split.
  - intros [H | (X & HX & Hs)]; [set_solver |].
    apply list_elem_of_fmap in HX as (opp & -> & Hopp).
    exists opp. split; [exact Hopp |]. now apply elem_of_list_to_set in Hs.
  - intros (opp & Hopp & Hs). right. exists (list_to_set (resource_requirements opp)).
    split; [apply list_elem_of_fmap; eauto | now apply elem_of_list_to_set].
Qed.
(** The gaps before and after the sort. *)
Lemma capability_gaps_spec self iter opps :
  _identify_capability_gaps self iter opps
  = snd <$> sorted_desc_by Z.ltb
      ((λ x, (Gap.opportunities_unlocked x, x)) <$>
       ((skill_gap opps <$> iter ((required_capabilities opps).1
                                   ∖ skills (capability_profile self)))
        ++ (tool_gap opps <$>
            filter (λ tool, tool ∉ tools_not_available (capability_profile self))
                   (iter ((required_capabilities opps).2
                          ∖ tools_available (capability_profile self)))))).
Proof.
  unfold _identify_capability_gaps. cbv zeta. do 3 f_equal.
  rewrite (foldl_append (skill_gap opps)). cbn [app].
  rewrite (foldl_append_if
             (λ tool, bool_decide (tool ∉ tools_not_available (capability_profile self)))
             (tool_gap opps)).
  do 2 f_equal. apply list_filter_iff. intros t. now rewrite bool_decide_eq_true.
Qed.

Lemma Z_ltb_asym (a b : Z) : True -> True -> (a <? b) = true -> (b <? a) = false.
Proof. rewrite Z.ltb_lt, Z.ltb_ge. lia. Qed.

Lemma Z_ltb_negtrans (a b c : Z) :
  True -> True -> True -> (a <? b) = false -> (b <? c) = false -> (a <? c) = false.
Proof. rewrite !Z.ltb_ge. lia. Qed.

(** *** Next actions *)

Lemma next_actions_spec self opps :
  _generate_next_actions self opps = enumerate (take 3 opps) ≫= actions_for.
Proof.
  unfold _generate_next_actions.
  match goal with
  | |- foldl ?step [] ?l = _ =>
      assert (H : forall acc l', foldl step acc l' = acc ++ (l' ≫= actions_for));
      [| exact (H [] l)]
  end.
  intros acc l'. revert acc. induction l' as [| [i opp] l' IH]; intros acc; cbn [foldl].
  - cbn. now rewrite app_nil_r.
  - rewrite IH, bind_cons, app_assoc. f_equal.
    unfold actions_for. cbv beta zeta. cbn [fst snd].
    destruct (bool_decide (timeline opp = "Quick Win")).
    + now rewrite <- app_assoc.
    + reflexivity.
Qed.

Lemma next_actions_length (f : nat -> Z) (l : list MarketOpportunity) :
  len (imap (λ i x, (f i, x)) l ≫= actions_for)
  = len l + len (filter (λ opp, timeline opp = "Quick Win") l).
Proof.
  revert f. induction l as [| o l IH]; intros f; [reflexivity |].
  cbn [imap]. rewrite bind_cons, len_app, filter_cons.
  change (imap ((λ i x, (f i, x)) ∘ S) l) with (imap (λ i x, ((f ∘ S) i, x)) l).
  rewrite IH. unfold actions_for. cbn [fst snd]. case_bool_decide as Hq.
  - rewrite decide_True by exact Hq. unfold len. cbn [length]. lia.
  - rewrite decide_False by exact Hq. unfold len. cbn [length]. lia.
Qed.

Lemma enumerate_lookup {A : Type} (xs : list A) i :
  enumerate xs !! i = (λ x, (Z.of_nat i, x)) <$> xs !! i.
Proof. unfold enumerate. now rewrite list_lookup_imap. Qed.

(** *** Errors of the report *)

Lemma float_of_int_errors n e : float_of_int n = Raise e -> e = OverflowError.
Proof.
  unfold float_of_int. destruct (round (inject_Z n)); try discriminate.
  intros H. now injection H as <-.
Qed.

Lemma int_truediv_errors a b e :
  int_truediv a b = Raise e -> e = ZeroDivisionError \/ e = OverflowError.
Proof.
  unfold int_truediv. destruct (b =? 0).
  - intros H. injection H as <-. now left.
  - destruct (round _); try discriminate. intros H. injection H as <-. now right.
Qed.

Lemma float_mul_int_errors x n e : float_mul_int x n = Raise e -> e = OverflowError.
Proof.
  unfold float_mul_int. destruct (float_of_int n) as [y | e0] eqn:E;
    cbn [mbind result_bind]; [discriminate |].
  intros H. injection H as <-. eapply float_of_int_errors, E.
Qed.

Lemma float_truediv_int_errors x n e :
  float_truediv_int x n = Raise e -> e = ZeroDivisionError \/ e = OverflowError.
Proof.
  unfold float_truediv_int. destruct (float_of_int n) as [y | e0] eqn:E;
    cbn [mbind result_bind].
  - unfold float_truediv. destruct (is_zero y); [| discriminate].
    intros H. injection H as <-. now left.
  - intros H. injection H as <-. right. eapply float_of_int_errors, E.
Qed.

Lemma priority_errors self o e :
  _calculate_priority_score self o = Raise e -> e = ZeroDivisionError \/ e = OverflowError.
Proof.
  unfold _calculate_priority_score.
  destruct (int_truediv (search_volume o) 1000) as [reach | e0] eqn:E0;
    cbn [mbind result_bind].
  2:{ intros H. injection H as <-. eapply int_truediv_errors, E0. }
  destruct (float_mul_int reach (impact_score o)) as [ri | e1] eqn:E1;
    cbn [mbind result_bind].
  2:{ intros H. injection H as <-. right. eapply float_mul_int_errors, E1. }
  destruct (float_mul_int ri (confidence_score o)) as [ric | e2] eqn:E2;
    cbn [mbind result_bind].
  2:{ intros H. injection H as <-. right. eapply float_mul_int_errors, E2. }
  apply float_truediv_int_errors.
Qed.

Lemma report_entry_errors self o e :
  report_entry self o = Raise e -> e = ZeroDivisionError \/ e = OverflowError.
Proof.
  unfold report_entry. destruct (_calculate_priority_score self o) as [p | e0] eqn:E;
    cbn [mbind result_bind]; [discriminate |].
  intros H. injection H as <-. eapply priority_errors, E.
Qed.

Lemma report_buckets_errors self categorized e :
  report_buckets self categorized = Raise e -> e = ZeroDivisionError \/ e = OverflowError.
Proof.
  unfold report_buckets. intros H.
  apply (fold_insert_raises
           (λ timeline, map_result (report_entry self)
                          (take 5 (default [] (categorized !! timeline))))) in H
    as (k & _ & H).
  apply map_result_raises in H as (o & _ & H). eapply report_entry_errors, H.
Qed.

Lemma append_to_bucket_dom categorized opp categorized' k :
  append_to_bucket categorized opp = Ok categorized' ->
  categorized' !! k = None <-> categorized !! k = None.
Proof.
  unfold append_to_bucket. destruct (categorized !! timeline opp) as [l |] eqn:E;
    [| discriminate].
  intros H. injection H as <-. destruct (decide (k = timeline opp)) as [-> | Hne].
  - rewrite lookup_insert_eq, E. split; discriminate.
  - now rewrite lookup_insert_ne by congruence.
Qed.

(** The grouping loop raises [KeyError], and nothing else, at an
    opportunity whose timeline is no key of the dictionary. *)
Lemma categorize_from_errors categorized opps :
  match categorize_from categorized opps with
  | Ok _ => forall opp, opp ∈ opps -> is_Some (categorized !! timeline opp)
  | Raise e => e = KeyError /\ exists opp, opp ∈ opps /\ categorized !! timeline opp = None
  end.
Proof.
  revert categorized. induction opps as [| o opps IH]; intros categorized;
    cbn [categorize_from].
  - intros opp H. inversion H.
  - destruct (append_to_bucket categorized o) as [categorized' |] eqn:E;
      cbn [mbind result_bind].
    + specialize (IH categorized').
      destruct (categorize_from categorized' opps) as [c | e].
      * intros opp Hopp. apply elem_of_cons in Hopp as [-> | Hopp].
        -- unfold append_to_bucket in E. destruct (categorized !! timeline o); [eauto |].
           discriminate.
        -- specialize (IH opp Hopp). apply not_eq_None_Some. intros Hn.
           apply (append_to_bucket_dom _ _ _ _ E) in Hn.
           destruct IH as [x Hx]. congruence.
      * destruct IH as (-> & opp & Hopp & Hn). split; [reflexivity |].
        exists opp. split; [now right |]. now apply (append_to_bucket_dom _ _ _ _ E).
    + unfold append_to_bucket in E. destruct (categorized !! timeline o) eqn:El;
        [discriminate |].
      injection E as <-. split; [reflexivity |]. exists o. split; [left | exact El].
Qed.

Lemma empty_buckets_lookup k : is_Some (empty_buckets !! k) <-> k ∈ timelines.
Proof.
  unfold empty_buckets, timelines. cbn [list_to_map foldr uncurry fst snd].
  rewrite !lookup_insert_is_Some, lookup_empty, !elem_of_cons, elem_of_nil.
  split.
  - intros [H | [_ [H | [_ [H | [_ [H | [_ H]]]]]]]]; auto.
    destruct H as [? H]. discriminate.
  - intros [-> | [-> | [-> | [-> | []]]]].
    + left. reflexivity.
    + right. split; [discriminate | left; reflexivity].
    + right. split; [discriminate |]. right. split; [discriminate | left; reflexivity].
    + right. split; [discriminate |]. right. split; [discriminate |].
      right. split; [discriminate | left; reflexivity].
Qed.

End OpportunityFacts.

(* ===================================================================== *)
(** * Part III. Properties of the two agents                               *)
(* ===================================================================== *)

(** ** Keyword scorer *)

Module KeywordClaims.
Import Binary64 Py PyFacts KeywordOptimizer KeywordFacts.
Local Open Scope string_scope.
Local Open Scope Z_scope.

(** C1, as stated, does not hold: "satire" used in 9 of 10 listings is
    assessed with relevance 8.0, but with the action "Keep", not
    "Replace". *)
Lemma satire_nine_of_ten_not_replaced :
  exists a, _analyze_single_keyword "satire" 9 10 = Ok a /\
            number_eq (relevance_score a) (Float (float_literal 8)) = true /\
            action_recommendation a = "Keep" /\
            action_recommendation a <> "Replace".
Proof.
  eexists. split; [vm_compute; reflexivity |].
  split; [vm_compute; reflexivity |]. split; [reflexivity | discriminate].
Qed.

(** C1, amended: "satire" (catalogue entry: relevance 10, competition Low,
    trend rising) with frequency 9 of 10 listings has ratio 0.9, above both
    thresholds; its relevance score is 10 * 0.8 == 8.0, and its action is
    "Keep": the overuse rule compares the catalogue relevance 10, not the
    adjusted 8.0, with 8. *)
Theorem satire_nine_of_ten_is_kept :
  keyword_performance_db !! "satire"
    = Some {| competition := "Low"; relevance := 10; trend := "rising" |} /\
  exists ratio a,
    int_truediv 9 10 = Ok ratio /\
    flt (float_literal (7 # 10)) ratio = true /\
    flt (float_literal (8 # 10)) ratio = true /\
    _analyze_single_keyword "satire" 9 10 = Ok a /\
    relevance_score a = Float (float_literal 8) /\
    number_eq (relevance_score a) (Int 8) = true /\
    action_recommendation a = "Keep" /\
    reasoning a = StrongPerformer 10 "rising".
Proof.
  split; [vm_compute; reflexivity |].
  exists (float_literal (9 # 10)).
  exists {| keyword := "satire";
            frequency_across_listings := 9;
            estimated_competition := "Low";
            relevance_score := Float (float_literal 8);
            replacement_suggestions := [];
            action_recommendation := "Keep";
            reasoning := StrongPerformer 10 "rising" |}.
  cbn [relevance_score action_recommendation reasoning].
  split; [vm_compute; reflexivity |].
  split; [vm_compute; reflexivity |].
  split; [vm_compute; reflexivity |].
  split; [vm_compute; reflexivity |].
  split; [reflexivity |].
  split; [vm_compute; reflexivity |].
  split; reflexivity.
Qed.

(** C2, as stated, does not hold: with no listings and frequency 0 the input
    constraint is met and the division by zero is raised; and a quotient
    beyond the binary64 range overflows. *)
Lemma analysis_raises_within_the_constraint :
  ((0 < 0 -> 0 < 0) /\
   _analyze_single_keyword "satire" 0 0 = Raise ZeroDivisionError) /\
  ((0 < 10 ^ 400 -> 0 < 1) /\
   _analyze_single_keyword "satire" (10 ^ 400) 1 = Raise OverflowError).
Proof.
  split; (split; [lia | vm_compute; reflexivity]).
Qed.

(** C2, amended: the analysis of a keyword raises [ZeroDivisionError] exactly
    when [total_listings] is 0, whatever the frequency; with a non-zero
    [total_listings] it returns the assessment, unless the quotient lies
    beyond the largest binary64, where the division raises [OverflowError].
    Nothing else is raised. *)
Theorem analysis_failure_modes kw f t :
  match _analyze_single_keyword kw f t with
  | Ok _ => t <> 0
  | Raise e =>
      (e = ZeroDivisionError /\ t = 0) \/
      (e = OverflowError /\ t <> 0 /\ max_float * Z.abs t < Z.abs f)
  end.
Proof.
  destruct (Z.eq_dec t 0) as [-> | Ht].
  - rewrite analyze_zero_listings. left. split; reflexivity.
  - pose proof (analyze_spec kw f t Ht) as H. cbv zeta in H.
    destruct (_analyze_single_keyword kw f t) as [a | e]; [exact Ht |].
    right. destruct H as [-> H]. repeat split; assumption.
Qed.

(** C7: for every keyword and every frequency over a positive number of
    listings, the relevance score is the catalogue relevance times 0.8 when
    [frequency / total_listings > 0.7] and the catalogue relevance itself
    otherwise (the analysis raises only when the quotient overflows).  The
    test is the one on floats; it holds only if the exact ratio exceeds
    7/10, and whenever it does up to [10^15] listings.  And "beautiful"
    (relevance 2) in 5 of 10 listings keeps relevance 2 and is removed. *)
Theorem overuse_penalty kw f t :
  0 < t ->
  let d := default unknown_keyword (keyword_performance_db !! strip (lower kw)) in
  match _analyze_single_keyword kw f t with
  | Ok a =>
      exists ratio,
        int_truediv f t = Ok ratio /\
        (flt (float_literal (7 # 10)) ratio = true ->
           exists y, int_mul_float (relevance d) (float_literal (8 # 10)) = Ok y /\
                     relevance_score a = Float y) /\
        (flt (float_literal (7 # 10)) ratio = false ->
           relevance_score a = Int (relevance d)) /\
        (flt (float_literal (7 # 10)) ratio = true -> 7 * t < 10 * f) /\
        (t <= 10 ^ 15 -> 7 * t < 10 * f -> flt (float_literal (7 # 10)) ratio = true)
  | Raise e => e = OverflowError /\ max_float * t < Z.abs f
  end /\
  (relevance (default unknown_keyword (keyword_performance_db !! "beautiful")) = 2 /\
   exists a, _analyze_single_keyword "beautiful" 5 10 = Ok a /\
             relevance_score a = Int 2 /\
             action_recommendation a = "Remove").
Proof.
  intros Ht d. split.
  - assert (Ht' : t <> 0) by lia.
    pose proof (analyze_spec kw f t Ht') as H. cbv zeta in H. fold d in H.
    destruct (_analyze_single_keyword kw f t) as [a | e].
    + destruct H as (ratio & E & _ & _ & _ & H1 & H2 & _). exists ratio.
      destruct (overuse_test_exact f t ratio Ht E) as [H3 H4]. auto.
    + rewrite Z.abs_eq in H by lia. exact H.
  - split; [vm_compute; reflexivity |].
    eexists. split; [vm_compute; reflexivity |]. split; reflexivity.
Qed.

Lemma overuse_penalty_witness :
  0 < 10 /\
  exists a, _analyze_single_keyword "satire" 9 10 = Ok a /\
            relevance_score a = Float (float_literal 8).
Proof.
  split; [lia |].
  pose proof (overuse_penalty "satire" 9 10 ltac:(lia)) as [H _].
  cbv zeta in H.
  destruct (_analyze_single_keyword "satire" 9 10) as [a | e] eqn:E.
  - exists a. split; [reflexivity |].
    destruct H as (ratio & Hr & H1 & _ & _ & _).
    assert (Hratio : ratio = float_literal (9 # 10)).
    { vm_compute in Hr. inversion Hr. vm_compute. reflexivity. }
    subst ratio. destruct (H1 ltac:(vm_compute; reflexivity)) as (y & Hy & ->).
    vm_compute in Hy. inversion Hy. vm_compute. reflexivity.
  - vm_compute in E. discriminate.
Defined.

(** C8: a keyword whose catalogue relevance is at most 3 is recommended for
    removal, for every frequency and every positive number of listings (the
    analysis raises only when the quotient overflows). *)
Theorem low_relevance_is_removed kw d f t :
  keyword_performance_db !! strip (lower kw) = Some d ->
  relevance d <= 3 ->
  0 < t ->
  match _analyze_single_keyword kw f t with
  | Ok a => action_recommendation a = "Remove"
  | Raise e => e = OverflowError /\ max_float * t < Z.abs f
  end.
Proof.
  intros Hd Hr Ht. assert (Ht' : t <> 0) by lia.
  pose proof (analyze_spec kw f t Ht') as H. cbv zeta in H. rewrite Hd in H.
  change (default unknown_keyword (Some d)) with d in H.
  destruct (_analyze_single_keyword kw f t) as [a | e].
  - destruct H as (ratio & _ & _ & _ & _ & _ & _ & _ & Ha & _). rewrite Ha.
    unfold _determine_action. destruct (Z.leb_spec (relevance d) 3); [reflexivity | lia].
  - rewrite Z.abs_eq in H by lia. exact H.
Qed.

Lemma low_relevance_is_removed_witness :
  exists a, _analyze_single_keyword "Awesome " 3 4 = Ok a /\
            action_recommendation a = "Remove".
Proof.
  pose proof (low_relevance_is_removed "Awesome "
                {| competition := "High"; relevance := 3; trend := "declining" |} 3 4
                ltac:(vm_compute; reflexivity) ltac:(cbn; lia) ltac:(lia)) as H.
  destruct (_analyze_single_keyword "Awesome " 3 4) as [a | e] eqn:E.
  - exists a. split; [reflexivity | exact H].
  - vm_compute in E. discriminate.
Defined.

(** C10, as stated, does not hold: the table is consulted with the
    lower-cased and stripped keyword, so a keyword with surrounding blanks
    carries the suggestions of its stripped form, while the entry of the
    merely lower-cased text is empty. *)
Lemma padded_keyword_gets_suggestions :
  exists a, _analyze_single_keyword " Resist" 1 1 = Ok a /\
            replacement_suggestions a = ["resistance gear"; "activist"; "dissent"] /\
            Spec.table_entry_for_lowercased " Resist" = [] /\
            replacement_suggestions a <> Spec.table_entry_for_lowercased " Resist".
Proof.
  eexists. split; [vm_compute; reflexivity |].
  split; [reflexivity |]. split; [vm_compute; reflexivity |].
  vm_compute. discriminate.
Qed.

(** C10, amended: for every analysed keyword the replacement suggestions
    are the entry of the fixed table for the lower-cased and stripped
    keyword (the empty list when it is absent), whatever the recommended
    action (the analysis raises only when the quotient overflows); "resist"
    is kept and still carries three suggestions. *)
Theorem suggestions_ignore_the_action kw f t :
  t <> 0 ->
  match _analyze_single_keyword kw f t with
  | Ok a => replacement_suggestions a = default [] (replacements !! strip (lower kw))
  | Raise e => e = OverflowError /\ max_float * Z.abs t < Z.abs f
  end /\
  (exists a, _analyze_single_keyword "resist" 1 1 = Ok a /\
             action_recommendation a = "Keep" /\
             replacement_suggestions a = ["resistance gear"; "activist"; "dissent"]).
Proof.
  intros Ht. split.
  - pose proof (analyze_spec kw f t Ht) as H. cbv zeta in H.
    destruct (_analyze_single_keyword kw f t) as [a | e]; [| exact H].
    destruct H as (ratio & _ & _ & _ & _ & _ & _ & Hs & _). exact Hs.
  - eexists. split; [vm_compute; reflexivity |]. split; reflexivity.
Qed.

Lemma suggestions_ignore_the_action_witness :
  exists a, _analyze_single_keyword "Funny" 3 4 = Ok a /\
            replacement_suggestions a = ["witty"; "sarcastic"; "humor"].
Proof.
  pose proof (suggestions_ignore_the_action "Funny" 3 4 ltac:(lia)) as [H _].
  destruct (_analyze_single_keyword "Funny" 3 4) as [a | e] eqn:E.
  - exists a. split; [reflexivity |]. rewrite H. vm_compute. reflexivity.
  - vm_compute in E. discriminate.
Defined.

End KeywordClaims.

(** ** Opportunity scorer *)

Module MarketClaims.
Import Binary64 Py PyFacts MarketResearch.
Import MarketFacts FloatOpsFacts ImpactFacts PriorityFacts ScoringFacts.
Local Open Scope string_scope.
Local Open Scope Z_scope.

(** C3: a candidate is left out of the scored output exactly when its
    category is excluded, or one of its required tools is unavailable, or
    the learning capacity is Low and more than one required skill is
    missing; every other candidate is scored and included. *)
Theorem excluded_iff_infeasible self cands :
  Forall Candidate.valid cands ->
  exists out,
    research_candidates self cands = Ok out /\
    forall opp, opp ∈ cands ->
      (_is_opportunity_feasible self opp = false <-> Spec.excluded self opp) /\
      ((forall mo, mo ∈ out -> _create_market_opportunity self opp <> Ok mo)
         <-> Spec.excluded self opp) /\
      (~ Spec.excluded self opp ->
         exists mo, mo ∈ out /\ _create_market_opportunity self opp = Ok mo).
Proof.
  intros Hvalid. rewrite Forall_forall in Hvalid.
  destruct (research_candidates_spec self cands) as (out & Hout & Hmem).
  { intros opp Hin _. apply valid_is_scored, Hvalid, Hin. }
  exists out. split; [exact Hout |]. intros opp Hin.
  pose proof (feasible_iff self opp) as Hf.
  assert (Hinc : ~ Spec.excluded self opp ->
                 exists mo, mo ∈ out /\ _create_market_opportunity self opp = Ok mo).
  { intros Hne.
    assert (Hfe : _is_opportunity_feasible self opp = true).
    { destruct (_is_opportunity_feasible self opp); [reflexivity |].
      exfalso. apply Hne, Hf. reflexivity. }
    destruct (valid_is_scored self opp (Hvalid opp Hin)) as (mo & p & Hmo & _).
    exists mo. split; [| exact Hmo]. apply Hmem. eauto. }
  split; [exact Hf |]. split; [| exact Hinc]. split.
  - intros Hnone. destruct (_is_opportunity_feasible self opp) eqn:Hfe.
    + exfalso. destruct Hinc as (mo & Hmo & Hc).
      * intros Hex. apply Hf in Hex. discriminate.
      * exact (Hnone mo Hmo Hc).
    + apply Hf. reflexivity.
  - intros Hex mo Hmo Hc. apply Hmem in Hmo as (opp' & _ & Hfe & Hc').
    assert (opp = opp') by (eapply create_injective; eassumption). subst opp'.
    apply Hf in Hex. congruence.
Qed.

Lemma potential_opportunities_valid : Forall Candidate.valid potential_opportunities.
Proof.
  unfold potential_opportunities.
  repeat (apply Forall_cons; split;
          [split; [| split; [split |]];
           [unfold Candidate.valid_competition; cbn; set_solver
           | vm_compute; intros H; discriminate H ..] |]).
  apply Forall_nil. exact I.
Qed.

Lemma excluded_iff_infeasible_witness :
  exists out,
    research_candidates default_researcher potential_opportunities = Ok out /\
    forall opp, opp ∈ potential_opportunities ->
      (_is_opportunity_feasible default_researcher opp = false
         <-> Spec.excluded default_researcher opp) /\
      ((forall mo, mo ∈ out -> _create_market_opportunity default_researcher opp <> Ok mo)
         <-> Spec.excluded default_researcher opp) /\
      (~ Spec.excluded default_researcher opp ->
         exists mo, mo ∈ out /\ _create_market_opportunity default_researcher opp = Ok mo).
Proof.
  exact (excluded_iff_infeasible default_researcher potential_opportunities
           potential_opportunities_valid).
Defined.

(** C4, as stated, does not hold: the seasonal term has no lower clamp.  A
    candidate with seasonal factor -1.0 (volume 4000, price 50.0, Low
    competition) scores (5 + 5 - 3) // 3 = 2, where the formula with
    [clamp(..., 0, 5)] gives (5 + 5 + 0) // 3 = 3. *)
Lemma negative_seasonal_term_is_not_clamped :
  let candidate :=
    {| Opp.name := "Off-season item"; Opp.category := "cards";
       Opp.search_volume := 4000; Opp.competition_level := "Low";
       Opp.avg_price := float_literal 50; Opp.seasonal_factor := float_literal (-1);
       Opp.keywords := []; Opp.skill_requirements := [];
       Opp.resource_requirements := [] |} in
  _calculate_impact_score default_researcher candidate = Ok 2 /\
  Spec.impact_formula candidate = Some 3.
Proof. split; vm_compute; reflexivity. Qed.

(** C4, amended: for every candidate with competition level Low, Medium or
    High (and finite floats), the impact score is
    [clamp((volumeScore + priceScore + seasonalScore) // 3 +
    competitionPenalty, 1, 5)] with [volumeScore = clamp(search_volume //
    1000 + 1, 1, 5)], [priceScore = clamp(avg_price // 10, 1, 5)] and
    [seasonalScore = min(int(seasonal_factor * 3), 5)], without a lower
    clamp; when the seasonal factor is not negative this is
    [clamp(seasonal_factor * 3, 0, 5)] and the impact score is the one of
    the stated formula. *)
Theorem impact_score_formula self opp :
  Candidate.valid_competition opp -> Candidate.valid_floats opp ->
  exists price_tens seasonal penalty,
    float_floordiv_int (Opp.avg_price opp) 10 = Ok (Finite price_tens) /\
    float_mul_int (Opp.seasonal_factor opp) 3 = Ok (Finite seasonal) /\
    Spec.competitionPenalty (Opp.competition_level opp) = Some penalty /\
    let volumeScore := Spec.clamp (Opp.search_volume opp / 1000 + 1) 1 5 in
    let priceScore := Spec.clamp (Qtrunc price_tens) 1 5 in
    let seasonalScore := Z.min 5 (Qtrunc seasonal) in
    let impact :=
      Spec.clamp ((volumeScore + priceScore + seasonalScore) / 3 + penalty) 1 5 in
    _calculate_impact_score self opp = Ok impact /\
    (nonneg (Opp.seasonal_factor opp) ->
       seasonalScore = Spec.clamp (Qtrunc seasonal) 0 5 /\
       Spec.impact_formula opp = Some impact).
Proof.
  intros Hc Hf.
  destruct (impact_steps self opp Hc Hf) as (pt & s & pen & Ept & Hint & Es & Hs & Epen & Hi).
  exists pt, s, pen. repeat split; try assumption.
  - rewrite Hi. unfold Spec.clamp.
    assert (Hswap : forall x, Z.min 5 (Z.max 1 x) = Z.max 1 (Z.min 5 x)) by lia.
    rewrite !Hswap. reflexivity.
  - specialize (Hs H). unfold Spec.clamp.
    assert (0 <= Qtrunc s); [| lia].
    unfold Qtrunc. assert (E : Qle_bool 0 s = true) by (apply Qle_bool_iff; exact Hs).
    rewrite E. rewrite <- (Qfloor_Z 0). apply Qfloor_resp_le. exact Hs.
  - specialize (Hs H). destruct Hint as [n En].
    unfold Spec.impact_formula. rewrite Ept, Es, Epen. f_equal.
    rewrite (formula_agrees _ n pen pt s En Hs). unfold Spec.clamp.
    assert (Hswap : forall x, Z.min 5 (Z.max 1 x) = Z.max 1 (Z.min 5 x)) by lia.
    rewrite !Hswap. reflexivity.
Qed.

Lemma impact_score_formula_witness :
  exists opp, opp ∈ potential_opportunities /\
              _calculate_impact_score default_researcher opp = Ok 2 /\
              Spec.impact_formula opp = Some 2.
Proof.
  set (opp := {| Opp.name := "Digital Planning Printables";
       Opp.category := "digital_products";
       Opp.search_volume := 5000;
       Opp.competition_level := "Medium";
       Opp.avg_price := float_literal (1250 # 100);
       Opp.seasonal_factor := float_literal (12 # 10);
       Opp.keywords := ["digital planner"; "printable planner"; "goal setting"; "productivity"];
       Opp.skill_requirements := ["digital_design"; "planning"];
       Opp.resource_requirements := ["design_software"; "time"] |}).
  exists opp. split; [left |].
  destruct (impact_score_formula default_researcher opp) as (pt & s & pen & Ept & Es & Epen & Hi & Hspec).
  - unfold Candidate.valid_competition. cbn. right. left.
  - split; vm_compute; intros H; discriminate H.
  - destruct Hspec as [_ Hspec]; [vm_compute; intros H; discriminate H |].
    cbv zeta in Hi. rewrite Hspec, Hi.
    assert (Hpt : pt = 1%Q) by (vm_compute in Ept; congruence).
    assert (Hs : s = (2026619832316723 # 562949953421312)%Q) by (vm_compute in Es; congruence).
    assert (Hpen : pen = -1) by (vm_compute in Epen; congruence).
    subst. split; vm_compute; reflexivity.
Defined.




(** C6: for a search volume of at least 0 and sub-scores in [1, 5], the
    priority score (search_volume / 1000 * impact * confidence) / effort
    does not decrease when the impact or the confidence grows and does not
    increase when the effort grows; in particular in each of the three
    with the other two held fixed.  Both scores are floats, or both
    divisions of the search volume overflow. *)
Theorem priority_is_monotone self o effort effort' impact impact' confidence confidence' :
  0 <= search_volume o ->
  1 <= impact <= impact' -> impact' <= 5 ->
  1 <= confidence <= confidence' -> confidence' <= 5 ->
  1 <= effort' <= effort -> effort <= 5 ->
  match _calculate_priority_score self (with_scores o effort impact confidence),
        _calculate_priority_score self (with_scores o effort' impact' confidence') with
  | Ok p, Ok p' => fle p p' = true
  | Raise e, Raise e' =>
      e = OverflowError /\ e' = OverflowError /\ max_float * 1000 < search_volume o
  | _, _ => False
  end.
Proof.
  intros Hsv Hi Hi' Hc Hc' He He'.
  pose proof (priority_steps self (with_scores o effort impact confidence)) as H1.
  pose proof (priority_steps self (with_scores o effort' impact' confidence')) as H2.
  cbn [with_scores search_volume impact_score confidence_score effort_score] in H1, H2.
  specialize (H1 Hsv ltac:(lia) ltac:(lia) ltac:(lia)).
  specialize (H2 Hsv ltac:(lia) ltac:(lia) ltac:(lia)).
  destruct (int_truediv (search_volume o) 1000) as [reach | e].
  - destruct H1 as (qi & qc & qe & Hqi & Hqc & Hqe & Hr & ->).
    destruct H2 as (qi' & qc' & qe' & Hqi' & Hqc' & Hqe' & _ & ->).
    assert (Ci : (0 < qi /\ qi <= qi')%Q).
    { rewrite Hqi, Hqi'. change 0%Q with (inject_Z 0).
      rewrite <- Zlt_Qlt, <- Zle_Qle. lia. }
    assert (Cc : (0 < qc /\ qc <= qc')%Q).
    { rewrite Hqc, Hqc'. change 0%Q with (inject_Z 0).
      rewrite <- Zlt_Qlt, <- Zle_Qle. lia. }
    assert (Ce : (0 < qe' /\ qe' <= qe)%Q).
    { rewrite Hqe, Hqe'. change 0%Q with (inject_Z 0).
      rewrite <- Zlt_Qlt, <- Zle_Qle. lia. }
    destruct (fmul_mono reach reach qi qi' Hr Hr (fle_refl_nonneg _ Hr) (proj1 Ci) (proj2 Ci))
      as (L1 & N1 & N1').
    destruct (fmul_mono _ _ qc qc' N1 N1' L1 (proj1 Cc) (proj2 Cc)) as (L2 & N2 & N2').
    exact (fdiv_mono _ _ qe qe' N2 N2' L2 (proj1 Ce) (proj2 Ce)).
  - destruct H1 as (-> & Hb & ->). destruct H2 as (_ & _ & ->). auto.
Qed.

Lemma priority_is_monotone_witness :
  let o :=
    {| name := "Handmade Baby Bibs"; category := "sewing"; search_volume := 2100;
       competition_level := "Low"; avg_price := float_literal 15;
       seasonal_factor := float_literal 1; keywords := [];
       skill_requirements := []; resource_requirements := [];
       effort_score := 2; impact_score := 2; confidence_score := 4;
       timeline := "Quick Win" |} in
  exists p p',
    _calculate_priority_score default_researcher (with_scores o 3 2 4) = Ok p /\
    _calculate_priority_score default_researcher (with_scores o 2 3 5) = Ok p' /\
    fle p p' = true.
Proof.
  intros o.
  pose proof (priority_is_monotone default_researcher o 3 2 2 3 4 5
                ltac:(cbn; lia) ltac:(lia) ltac:(lia) ltac:(lia) ltac:(lia)
                ltac:(lia) ltac:(lia)) as H.
  destruct (_calculate_priority_score default_researcher (with_scores o 3 2 4)) as [p | e];
    destruct (_calculate_priority_score default_researcher (with_scores o 2 3 5)) as [p' | e'].
  - exists p, p'. auto.
  - contradiction.
  - contradiction.
  - exfalso. destruct H as (_ & _ & H). vm_compute in H. discriminate H.
Defined.

(** C9: the timeline is a total function of the effort score alone: at most
    2 gives "Quick Win", 3 "Weekend Project", 4 "Major Initiative", 5 and
    above "Long-term Strategy"; and grouping scored opportunities files
    each of them under exactly one of the four buckets, the one of its
    effort score.  (The report then shows at most five of each bucket.) *)
Theorem timeline_buckets self opps :
  (forall o, o ∈ opps ->
     exists opp_data, timeline o = _determine_timeline self (effort_score o) opp_data) ->
  (forall self' effort opp_data,
     exists b, _determine_timeline self' effort opp_data = Spec.bucket_name b /\
       (effort <= 2 -> b = Spec.QuickWin) /\
       (effort = 3 -> b = Spec.WeekendProject) /\
       (effort = 4 -> b = Spec.MajorInitiative) /\
       (5 <= effort -> b = Spec.LongTermStrategy)) /\
  (forall self' self'' effort opp_data opp_data',
     _determine_timeline self' effort opp_data
     = _determine_timeline self'' effort opp_data') /\
  exists categorized,
    categorize opps = Ok categorized /\
    (forall k, is_Some (categorized !! k) <-> exists b, k = Spec.bucket_name b) /\
    (forall b, categorized !! Spec.bucket_name b
               = Some (filter (λ o, timeline o = Spec.bucket_name b) opps)) /\
    (forall o, o ∈ opps ->
       exists b, forall b',
         o ∈ default [] (categorized !! Spec.bucket_name b') <-> b' = b).
Proof.
  intros Hscored.
  assert (Htl : forall self' effort opp_data,
     exists b, _determine_timeline self' effort opp_data = Spec.bucket_name b /\
       (effort <= 2 -> b = Spec.QuickWin) /\
       (effort = 3 -> b = Spec.WeekendProject) /\
       (effort = 4 -> b = Spec.MajorInitiative) /\
       (5 <= effort -> b = Spec.LongTermStrategy)).
  { intros self' effort opp_data. unfold _determine_timeline.
    destruct (Z.leb_spec effort 2); [exists Spec.QuickWin; repeat split; (reflexivity || lia) |].
    destruct (Z.eqb_spec effort 3); [exists Spec.WeekendProject; repeat split; (reflexivity || lia) |].
    destruct (Z.eqb_spec effort 4); [exists Spec.MajorInitiative; repeat split; (reflexivity || lia) |].
    exists Spec.LongTermStrategy; repeat split; (reflexivity || lia). }
  split; [exact Htl |]. split; [reflexivity |].
  assert (Hkeys : forall k, is_Some (empty_buckets !! k) <-> exists b, k = Spec.bucket_name b).
  { intros k. split.
    - intros [l Hl]. unfold empty_buckets in Hl. cbn [list_to_map foldr uncurry fst snd] in Hl.
      repeat (apply lookup_insert_Some in Hl as [[<- _] | [_ Hl]];
              [first [by exists Spec.QuickWin | by exists Spec.WeekendProject | by exists Spec.MajorInitiative | by exists Spec.LongTermStrategy] |]).
      rewrite lookup_empty in Hl. discriminate.
    - intros [b ->]. destruct b; vm_compute; eauto. }
  destruct (categorize_from_spec empty_buckets opps) as (cat & Hcat & Hlook).
  { intros o Ho. destruct (Hscored o Ho) as [d ->].
    destruct (Htl self (effort_score o) d) as (b & -> & _). apply Hkeys. eauto. }
  exists cat. split; [exact Hcat |].
  assert (Hb : forall b, cat !! Spec.bucket_name b
                         = Some (filter (λ o, timeline o = Spec.bucket_name b) opps)).
  { intros b. rewrite Hlook. destruct b; reflexivity. }
  split; [| split; [exact Hb |]].
  - intros k. rewrite Hlook, <- Hkeys. destruct (empty_buckets !! k); cbn; split; intros [? ?]; eauto; discriminate.
  - intros o Ho. destruct (Hscored o Ho) as [d Hd].
    destruct (Htl self (effort_score o) d) as (b & Eb & _). exists b. intros b'.
    rewrite Hb. cbn [default from_option id]. rewrite list_elem_of_filter. split.
    + intros [E _]. rewrite Hd, Eb in E. destruct b, b'; (reflexivity || discriminate).
    + intros ->. split; [congruence | exact Ho].
Qed.

Lemma timeline_buckets_witness :
  exists out categorized,
    research_market_opportunities default_researcher = Ok out /\
    categorize out = Ok categorized /\
    (forall o, o ∈ out ->
       exists b, forall b',
         o ∈ default [] (categorized !! Spec.bucket_name b') <-> b' = b).
Proof.
  destruct (research_market_opportunities default_researcher) as [out | e] eqn:E;
    [| vm_compute in E; discriminate].
  exists out.
  destruct (timeline_buckets default_researcher out) as (_ & _ & cat & Hcat & _ & _ & H).
  - intros o Ho. vm_compute in E. inversion E; subst out.
    repeat (apply elem_of_cons in Ho as [-> | Ho]); [| | | inversion Ho];
      exists (hd (Opp.Build_t "" "" 0 "" NaN NaN [] [] []) potential_opportunities);
      vm_compute; reflexivity.
  - exists cat. split; [reflexivity |]. split; [exact Hcat | exact H].
Defined.

End MarketClaims.

(* ===================================================================== *)
(** * Part IV. Further properties of the two agents                        *)
(* ===================================================================== *)

(** ** Keyword optimizer: the portfolio *)

Module KeywordPortfolio.
Import Binary64 Py PyFacts KeywordOptimizer KeywordFacts Notions LoopFacts TextFacts
  PortfolioFacts ListingFacts AdviceFacts.
Local Open Scope string_scope.
Local Open Scope list_scope.
Local Open Scope Z_scope.

(** The sorted analyses are the analyses, reordered. *)
Lemma sorted_analyses_perm (analyses : list KeywordAnalysis) :
  snd <$> sorted_desc_by pair_lt ((λ x, (sort_key x, x)) <$> analyses) ≡ₚ analyses.
Proof. rewrite sorted_desc_by_perm. now rewrite snd_keyed. Qed.

Lemma analyses_keywords (ks : list string) (analyses : list KeywordAnalysis)
    (P : string -> KeywordAnalysis -> Prop) :
  Forall2 (λ k a, keyword a = k /\ P k a) ks analyses -> keyword <$> analyses = ks.
Proof. induction 1 as [| k a ks analyses [H _] _ IH]; cbn; [reflexivity |]. now rewrite H, IH. Qed.

(** X1: whatever the order in which the set of keywords is iterated,
    [analyze_keyword_portfolio] raises nothing (the division by the number
    of listings included) and returns exactly one analysis for each
    lower-cased tag of the portfolio. *)
Theorem portfolio_has_one_analysis_per_keyword iter listings :
  (forall s, iter s ≡ₚ elements s) ->
  len (listings ≫= tags_of) <= max_float ->
  exists out,
    analyze_keyword_portfolio iter listings = Ok out /\
    NoDup (keyword <$> out) /\
    (forall k, k ∈ keyword <$> out <-> exists t, t ∈ listings ≫= tags_of /\ lower t = k).
Proof.
  intros Hiter Hbound.
  destruct (portfolio_spec iter listings Hiter Hbound) as (analyses & E & F).
  eexists. split; [exact E |].
  assert (Hk : keyword <$> analyses = iter (portfolio_keywords listings))
    by (eapply analyses_keywords, F).
  split; [rewrite sorted_analyses_perm, Hk; now apply iter_NoDup |].
  intros k. rewrite sorted_analyses_perm, Hk.
  rewrite (iter_elem_of iter _ k Hiter). unfold portfolio_keywords.
  rewrite elem_of_list_to_set, list_elem_of_fmap. split.
  - intros (t & -> & Ht). eauto.
  - intros (t & Ht & <-). eauto.
Qed.

Lemma portfolio_has_one_analysis_per_keyword_witness :
  let listings :=
    [ {| Listing.title := Some "Rogue Bureaucrat Tee";
         Listing.tags := Some ["Funny"; "funny"; "Satire"] |};
      {| Listing.title := None; Listing.tags := None |} ] in
  (forall s : gset string, elements s ≡ₚ elements s) /\
  len (listings ≫= tags_of) <= max_float /\
  exists out, analyze_keyword_portfolio elements listings = Ok out /\
              NoDup (keyword <$> out).
Proof.
  cbv zeta. split; [reflexivity |]. split; [vm_compute; discriminate |].
  destruct (portfolio_has_one_analysis_per_keyword elements
              [ {| Listing.title := Some "Rogue Bureaucrat Tee";
                   Listing.tags := Some ["Funny"; "funny"; "Satire"] |};
                {| Listing.title := None; Listing.tags := None |} ])
    as (out & E & N & _).
  - reflexivity.
  - vm_compute. discriminate.
  - exists out. split; [exact E | exact N].
Defined.

(** X2: the frequency of each analysis is the number of tags of the
    portfolio, duplicates included, that are the keyword up to case; it is
    at least 1, and the frequencies add up to the number of tags. *)
Theorem portfolio_frequencies_add_up iter listings :
  (forall s, iter s ≡ₚ elements s) ->
  len (listings ≫= tags_of) <= max_float ->
  exists out,
    analyze_keyword_portfolio iter listings = Ok out /\
    (forall a, a ∈ out ->
       frequency_across_listings a
       = len (filter (λ t, lower t = keyword a) (listings ≫= tags_of)) /\
       1 <= frequency_across_listings a) /\
    foldr Z.add 0 (frequency_across_listings <$> out) = len (listings ≫= tags_of).
Proof.
  intros Hiter Hbound.
  destruct (portfolio_spec iter listings Hiter Hbound) as (analyses & E & F).
  eexists. split; [exact E |].
  set (tags := listings ≫= tags_of) in *.
  assert (Hin : forall k, k ∈ iter (portfolio_keywords listings) -> k ∈ lower <$> tags).
  { intros k Hk. apply (iter_elem_of iter _ k Hiter) in Hk.
    now apply elem_of_list_to_set in Hk. }
  split.
  - intros a Ha. rewrite sorted_analyses_perm in Ha.
    apply list_elem_of_lookup in Ha as [i Hi].
    destruct (Forall2_lookup_r _ _ _ _ _ F Hi) as (k & Hk & Hk1 & Hk2 & _).
    rewrite Hk1, Hk2. split; [reflexivity |].
    apply occurrences_pos, Hin. eapply list_elem_of_lookup_2, Hk.
  - change (foldr Z.add 0) with total.
    rewrite (total_perm _ (frequency_across_listings <$> analyses))
      by (now rewrite sorted_analyses_perm).
    assert (Hf : frequency_across_listings <$> analyses
                 = (λ k, occurrences k tags) <$> iter (portfolio_keywords listings)).
    { clear - F. induction F as [| k a ks analyses (_ & H & _) _ IH]; cbn; [reflexivity |].
      now rewrite H, IH. }
    rewrite Hf. apply occurrences_total; [now apply iter_NoDup |].
    intros t Ht. apply (iter_elem_of iter _ _ Hiter). unfold portfolio_keywords.
    apply elem_of_list_to_set, list_elem_of_fmap. eauto.
Qed.

Lemma portfolio_frequencies_add_up_witness :
  let listings :=
    [ {| Listing.title := Some "Mug"; Listing.tags := Some ["Gift"; "gift"; "Mug"] |} ] in
  (forall s : gset string, elements s ≡ₚ elements s) /\
  len (listings ≫= tags_of) <= max_float /\
  exists out, analyze_keyword_portfolio elements listings = Ok out /\
              foldr Z.add 0 (frequency_across_listings <$> out) = 3.
Proof.
  cbv zeta. split; [reflexivity |]. split; [vm_compute; discriminate |].
  destruct (portfolio_frequencies_add_up elements
              [ {| Listing.title := Some "Mug"; Listing.tags := Some ["Gift"; "gift"; "Mug"] |} ])
    as (out & E & _ & T).
  - reflexivity.
  - vm_compute. discriminate.
  - exists out. split; [exact E | exact T].
Defined.

(** X3: the analyses come out sorted: no analysis has a lower relevance
    score than a later one, and of two analyses with equal relevance scores
    the one with the lower frequency comes first. *)
Theorem portfolio_is_sorted iter listings :
  (forall s, iter s ≡ₚ elements s) ->
  len (listings ≫= tags_of) <= max_float ->
  exists out,
    analyze_keyword_portfolio iter listings = Ok out /\
    forall i j a b, (i < j)%nat -> out !! i = Some a -> out !! j = Some b ->
      number_lt (relevance_score a) (relevance_score b) = false /\
      (number_eq (relevance_score a) (relevance_score b) = true ->
       frequency_across_listings a <= frequency_across_listings b).
Proof.
  intros Hiter Hbound.
  destruct (portfolio_spec iter listings Hiter Hbound) as (analyses & E & F).
  eexists. split; [exact E |].
  set (keyed := (λ x, (sort_key x, x)) <$> analyses).
  assert (Hvalid : Forall (λ y : number * Z * KeywordAnalysis, valid_key y.1) keyed).
  { unfold keyed. apply Forall_fmap, Forall_forall. intros a Ha. cbn.
    apply list_elem_of_lookup in Ha as [i Hi].
    destruct (Forall2_lookup_r _ _ _ _ _ F Hi) as (k & _ & _ & _ & Hv & _). exact Hv. }
  pose proof (sorted_desc_by_descending pair_lt valid_key pair_lt_asym pair_lt_negtrans
                keyed Hvalid) as Hd.
  assert (Hkey : forall x, x ∈ sorted_desc_by pair_lt keyed -> x.1 = sort_key x.2).
  { intros x Hx. rewrite sorted_desc_by_perm in Hx. unfold keyed in Hx.
    apply list_elem_of_fmap in Hx as (a & -> & _). reflexivity. }
  intros i j a b Hij Hi Hj. rewrite list_lookup_fmap in Hi, Hj.
  destruct (sorted_desc_by pair_lt keyed !! i) as [x |] eqn:Ex; [| discriminate].
  destruct (sorted_desc_by pair_lt keyed !! j) as [y |] eqn:Ey; [| discriminate].
  cbn in Hi, Hj. injection Hi as <-. injection Hj as <-.
  pose proof (Hd i j x y Hij Ex Ey) as Hlt.
  rewrite (Hkey x), (Hkey y) in Hlt by (eapply list_elem_of_lookup_2; eassumption).
  unfold pair_lt, sort_key in Hlt. cbn [fst snd] in Hlt.
  destruct (number_eq (relevance_score x.2) (relevance_score y.2)) eqn:Eq.
  - split; [| intros _; apply Z.ltb_ge in Hlt; lia].
    rewrite number_lt_value. rewrite number_eq_value in Eq. now apply feq_not_flt.
  - split; [exact Hlt | discriminate].
Qed.

Lemma portfolio_is_sorted_witness :
  let listings :=
    [ {| Listing.title := Some "Mug"; Listing.tags := Some ["Gift"; "Satire"; "Best"] |} ] in
  (forall s : gset string, elements s ≡ₚ elements s) /\
  len (listings ≫= tags_of) <= max_float /\
  exists out, analyze_keyword_portfolio elements listings = Ok out /\
    forall a b, out !! 0%nat = Some a -> out !! 1%nat = Some b ->
                number_lt (relevance_score a) (relevance_score b) = false.
Proof.
  cbv zeta. split; [reflexivity |]. split; [vm_compute; discriminate |].
  destruct (portfolio_is_sorted elements
              [ {| Listing.title := Some "Mug";
                   Listing.tags := Some ["Gift"; "Satire"; "Best"] |} ])
    as (out & E & S).
  - reflexivity.
  - vm_compute. discriminate.
  - exists out. split; [exact E |]. intros a b Ha Hb.
    apply (S 0%nat 1%nat a b); [lia | exact Ha | exact Hb].
Defined.

End KeywordPortfolio.

(** ** Keyword optimizer: one keyword, one listing *)

Module KeywordListing.
Import Binary64 Py PyFacts KeywordOptimizer KeywordFacts Notions LoopFacts TextFacts
  PortfolioFacts ListingFacts AdviceFacts.
Local Open Scope string_scope.
Local Open Scope list_scope.
Local Open Scope Z_scope.

(** X4: the rule of [_determine_action] that removes the quality
    descriptors "beautiful", "perfect", "amazing", "awesome" and "great" at
    relevance 4 or lower never decides an analysis: the catalogue rates all
    five at 3 or lower, where the rule for low relevance has decided
    already.  Every analysis carries one of the other five reasonings. *)
Theorem quality_descriptor_rule_never_decides kw f t a :
  _analyze_single_keyword kw f t = Ok a ->
  reasoning a <> QualityDescriptor /\
  action_recommendation a ∈ ["Remove"; "Replace"; "Keep"].
Proof.
  intros E. destruct (Z.eq_dec t 0) as [-> | Ht].
  { rewrite analyze_zero_listings in E. discriminate. }
  pose proof (analyze_spec kw f t Ht) as H. cbv zeta in H. rewrite E in H.
  destruct H as (ratio & _ & _ & _ & _ & _ & _ & _ & Ha & Hr).
  split.
  - rewrite Hr. apply quality_rule_is_dead.
  - rewrite Ha. apply action_is_one_of_three.
Qed.

Lemma quality_descriptor_rule_never_decides_witness :
  exists a, _analyze_single_keyword "Awesome" 1 4 = Ok a /\
            reasoning a <> QualityDescriptor.
Proof.
  destruct (_analyze_single_keyword "Awesome" 1 4) as [a | e] eqn:E.
  - exists a. split; [reflexivity |].
    exact (proj1 (quality_descriptor_rule_never_decides "Awesome" 1 4 a E)).
  - vm_compute in E. discriminate E.
Defined.

Lemma low_relevance_keywords k :
  relevance (default unknown_keyword (keyword_performance_db !! k)) <= 3
  <-> k ∈ ["beautiful"; "perfect"; "amazing"; "awesome"; "great"; "best"].
Proof.
  split.
  - destruct (keyword_performance_db !! k) as [d |] eqn:E; intros Hd.
    2:{ exfalso. change (5 <= 3) in Hd. lia. }
    change (relevance d <= 3) in Hd.
    assert (H : map_Forall (λ key d, 3 < relevance d \/
                  key ∈ ["beautiful"; "perfect"; "amazing"; "awesome"; "great"; "best"])
                keyword_performance_db)
      by (apply (bool_decide_unpack _); vm_compute; reflexivity).
    destruct (H k d E) as [H3 | H3]; [lia | exact H3].
  - intros H. repeat (apply elem_of_cons in H as [-> | H]; [vm_compute; discriminate |]).
    inversion H.
Qed.

(** X5: [optimize_listing_keywords] raises nothing, and the keywords it
    lists for removal are the tags of the listing, in order and with their
    duplicates, whose catalogue relevance is 3 or lower: those that are,
    lower-cased and stripped, "beautiful", "perfect", "amazing", "awesome",
    "great" or "best". *)
Theorem listing_removes_low_relevance listing :
  exists o,
    optimize_listing_keywords listing = Ok o /\
    keywords_to_remove o
    = filter (λ k, strip (lower k)
                   ∈ ["beautiful"; "perfect"; "amazing"; "awesome"; "great"; "best"])
             (tags_of listing) /\
    forall k, k ∈ keywords_to_remove o ->
      relevance (default unknown_keyword (keyword_performance_db !! strip (lower k))) <= 3.
Proof.
  destruct (optimize_listing_spec listing) as (o & E & _ & _ & Hr & _).
  exists o. split; [exact E |].
  assert (Hv : forall k, verdict k = "Remove"
                         <-> strip (lower k) ∈ ["beautiful"; "perfect"; "amazing";
                                                "awesome"; "great"; "best"]).
  { intros k. rewrite <- low_relevance_keywords. fold (keyword_data k).
    destruct (verdict_cases k) as [[-> H] | [[-> H] | [-> H]]]; split; intros H';
      try reflexivity; try discriminate; try lia. }
  split.
  - rewrite Hr. apply list_filter_iff. exact Hv.
  - intros k Hk. rewrite Hr in Hk. apply list_elem_of_filter in Hk as [Hk _].
    apply low_relevance_keywords, Hv, Hk.
Qed.

(** X6: in the optimization of a listing a tag is replaced exactly when its
    catalogue relevance (5 for a keyword outside the catalogue) lies
    between 4 and 8 and the table of replacements has suggestions for it;
    it is then replaced by the first suggestion.  A keyword rated 9 or 10
    is never replaced, whatever the table suggests. *)
Theorem listing_replaces_mid_relevance listing :
  exists o,
    optimize_listing_keywords listing = Ok o /\
    forall k r,
      keywords_to_replace o !! k = Some r <->
      k ∈ tags_of listing /\
      4 <= relevance (default unknown_keyword (keyword_performance_db !! strip (lower k))) <= 8 /\
      head (_get_replacement_suggestions (strip (lower k))) = Some r.
Proof.
  destruct (optimize_listing_spec listing) as (o & E & _ & _ & _ & Hr & _).
  exists o. split; [exact E |]. intros k r. rewrite Hr, recorded_lookup, lookup_empty.
  fold (keyword_data k).
  assert (Hrep : replacement_of k = Some r <->
            4 <= relevance (keyword_data k) <= 8 /\
            head (_get_replacement_suggestions (strip (lower k))) = Some r).
  { unfold replacement_of.
    destruct (verdict_cases k) as [[Hv H] | [[Hv H] | [Hv H]]]; rewrite Hv;
      [rewrite bool_decide_eq_false_2 by discriminate
      | rewrite bool_decide_eq_true_2 by reflexivity
      | rewrite bool_decide_eq_false_2 by discriminate].
    - split; [discriminate | lia].
    - tauto.
    - split; [discriminate | lia]. }
  destruct (decide (k ∈ filter (λ k0, verdict k0 <> "Remove") (tags_of listing)))
    as [Hin | Hnin].
  - apply list_elem_of_filter in Hin as [_ Hin].
    destruct (replacement_of k) as [r' |] eqn:Er.
    + split.
      * intros H. injection H as ->. split; [exact Hin |]. now apply Hrep.
      * intros (_ & H). apply Hrep in H. exact H.
    + split; [discriminate |]. intros (_ & H). apply Hrep in H. discriminate.
  - split; [discriminate |]. intros (Hin & H). exfalso. apply Hnin.
    apply list_elem_of_filter. split; [| exact Hin].
    apply Hrep in H. eapply replacement_of_not_removed, H.
Qed.

(** X7: an optimization adds at most three keywords, never both removes
    and replaces a tag, and changes no more tags than the listing has; its
    priority is "High" only if at least two tags are removed or replaced.
    A listing without tags removes and replaces nothing and is never of
    "High" priority. *)
Theorem listing_priority_needs_changes listing :
  exists o,
    optimize_listing_keywords listing = Ok o /\
    (length (keywords_to_add o) <= 3)%nat /\
    (forall k, k ∈ keywords_to_remove o -> keywords_to_replace o !! k = None) /\
    len (keywords_to_remove o) + Z.of_nat (size (keywords_to_replace o))
      <= len (tags_of listing) /\
    (optimization_priority o = "High" ->
     2 <= len (keywords_to_remove o) + Z.of_nat (size (keywords_to_replace o))) /\
    (tags_of listing = [] ->
     keywords_to_remove o = [] /\ keywords_to_replace o = ∅ /\
     optimization_priority o ∈ ["Medium"; "Low"]).
Proof.
  destruct (optimize_listing_spec listing) as (o & E & _ & _ & Hrm & Hrp & Hadd & Hpr).
  exists o. split; [exact E |]. cbv zeta in Hpr.
  assert (Hadd3 : (length (keywords_to_add o) <= 3)%nat)
    by (rewrite Hadd, length_take; lia).
  set (tags := tags_of listing) in *.
  assert (Hsize : len (keywords_to_remove o) + Z.of_nat (size (keywords_to_replace o))
                  <= len tags).
  { rewrite Hrm, Hrp. pose proof (recorded_size ∅ (filter (λ k, verdict k <> "Remove") tags)).
    rewrite map_size_empty in H.
    pose proof (length_filter_split (λ k, verdict k = "Remove") tags) as Hs.
    unfold len. lia. }
  split; [exact Hadd3 |]. split; [| split; [exact Hsize |]; split].
  - intros k Hk. rewrite Hrm in Hk. apply list_elem_of_filter in Hk as [Hk _].
    rewrite Hrp, recorded_lookup, lookup_empty.
    destruct (decide _); [| reflexivity].
    destruct (replacement_of k) as [r |] eqn:Er; [| reflexivity].
    exfalso. eapply replacement_of_not_removed; eassumption.
  - intros Hhigh.
    destruct (Z.leb_spec 5 (len (keywords_to_remove o)
                            + Z.of_nat (size (keywords_to_replace o))
                            + len (keywords_to_add o))) as [H5 | H5].
    + unfold len in *. lia.
    + destruct (3 <=? _); injection Hpr as Hp _; rewrite Hp in Hhigh; discriminate.
  - intros Hnil. rewrite Hnil in *.
    assert (Hr0 : keywords_to_remove o = []) by (rewrite Hrm; reflexivity).
    assert (Hp0 : keywords_to_replace o = ∅) by (rewrite Hrp; reflexivity).
    split; [exact Hr0 |]. split; [exact Hp0 |].
    rewrite Hr0, Hp0, map_size_empty in Hpr.
    change (len []) with 0 in Hpr.
    destruct (Z.leb_spec 5 (0 + Z.of_nat 0 + len (keywords_to_add o))) as [H5 | H5].
    + unfold len in H5. lia.
    + destruct (3 <=? _); injection Hpr as Hp _; rewrite Hp;
        [left | right; left].
Qed.

(** X21: cleaning a keyword ([keyword.lower().strip()]) is idempotent, so
    the analysis of a keyword and the analysis of its cleaned form agree:
    both raise the same exception, or both return, with the same
    competition, relevance score, suggestions, action and reasoning; only
    the [keyword] they carry differs. *)
Theorem analysis_depends_on_the_cleaned_keyword kw f t :
  strip (lower (strip (lower kw))) = strip (lower kw) /\
  match _analyze_single_keyword kw f t, _analyze_single_keyword (strip (lower kw)) f t with
  | Ok a, Ok b =>
      keyword a = kw /\ keyword b = strip (lower kw) /\
      frequency_across_listings a = frequency_across_listings b /\
      estimated_competition a = estimated_competition b /\
      relevance_score a = relevance_score b /\
      replacement_suggestions a = replacement_suggestions b /\
      action_recommendation a = action_recommendation b /\
      reasoning a = reasoning b
  | Raise e, Raise e' => e = e'
  | _, _ => False
  end.
Proof.
  split; [apply clean_idem |].
  unfold _analyze_single_keyword. rewrite clean_idem.
  set (kc := strip (lower kw)).
  set (d := default unknown_keyword (keyword_performance_db !! kc)).
  destruct (int_truediv f t) as [ratio | e]; cbn [mbind result_bind]; [| reflexivity].
  destruct (flt (float_literal (7 # 10)) ratio).
  - destruct (int_mul_float (relevance d) (float_literal (8 # 10))) as [x | e];
      cbn [mbind result_bind]; [| reflexivity].
    destruct (_determine_action kc d ratio) as [action why]. cbn. repeat split.
  - cbn [mbind result_bind].
    destruct (_determine_action kc d ratio) as [action why]. cbn. repeat split.
Qed.

End KeywordListing.

(** ** Keyword optimizer: suggestions, gaps and the report *)

Module KeywordReport.
Import Binary64 Py PyFacts KeywordOptimizer KeywordFacts Notions LoopFacts TextFacts
  PortfolioFacts ListingFacts AdviceFacts ReportFacts.
Local Open Scope string_scope.
Local Open Scope list_scope.
Local Open Scope Z_scope.

(** X8: [_suggest_additional_keywords] returns at most five keywords, no
    keyword twice, and never a keyword that the listing has already, in
    whatever capitalisation. *)
Theorem suggestions_are_new title tags :
  let out := _suggest_additional_keywords title tags in
  (length out <= 5)%nat /\ NoDup out /\
  forall s t, s ∈ out -> t ∈ tags -> lower s <> lower t.
Proof.
  cbv zeta. unfold _suggest_additional_keywords. cbv zeta.
  match goal with
  | |- context [foldl ?f [] ?s] =>
      pose proof (dedupe_spec (lower <$> tags) s []) as H; cbv zeta in H;
      set (unique := foldl f [] s) in *
  end.
  destruct H as [N M]; [apply NoDup_nil_2 | intros s Hs; inversion Hs |].
  split; [rewrite length_take; lia |]. split; [now apply NoDup_take |].
  intros s t Hs Ht E. apply elem_of_take in Hs. apply M in Hs as [Hs | [_ Hs]].
  - inversion Hs.
  - apply Hs. rewrite E. apply list_elem_of_fmap. eauto.
Qed.

(** X9: the suggestions do not depend on the capitalisation of the title
    or of the tags. *)
Theorem suggestions_ignore_case title tags :
  _suggest_additional_keywords (lower title) (lower <$> tags)
  = _suggest_additional_keywords title tags.
Proof.
  unfold _suggest_additional_keywords. cbv zeta. rewrite lower_idem.
  assert (E : lower <$> (lower <$> tags) = lower <$> tags).
  { rewrite <- list_fmap_compose. apply list_fmap_ext. intros _ t _. apply lower_idem. }
  rewrite E. reflexivity.
Qed.

(** X10: [_identify_portfolio_gaps] reports at most eight keywords, each a
    high-value keyword that no tag of the portfolio is up to case; a
    high-value keyword that is missing is reported exactly when fewer than
    eight high-value keywords before it are missing too. *)
Theorem portfolio_gaps_are_the_first_missing listings :
  let gaps := _identify_portfolio_gaps listings in
  (length gaps <= 8)%nat /\
  (forall k, k ∈ gaps ->
     k ∈ high_value_keywords /\ forall t, t ∈ listings ≫= tags_of -> lower t <> k) /\
  (forall i k, high_value_keywords !! i = Some k ->
     (k ∈ gaps <->
      (k ∉ portfolio_keywords listings) /\
      (length (filter (λ k', k' ∉ portfolio_keywords listings) (take i high_value_keywords))
       < 8)%nat)).
Proof.
  cbv zeta. rewrite portfolio_gaps_spec. split; [rewrite length_take; lia |]. split.
  - intros k Hk. apply elem_of_take, list_elem_of_filter in Hk as [Hm Hk].
    split; [exact Hk |]. intros t Ht E. apply Hm. unfold portfolio_keywords.
    apply elem_of_list_to_set, list_elem_of_fmap. eauto.
  - intros i k Hi.
    apply (elem_of_take_filter (λ k', k' ∉ portfolio_keywords listings));
      [apply high_value_keywords_NoDup | exact Hi].
Qed.

(** X11: [_identify_quick_wins] reports at most five quick wins; each
    stands for an optimization of "High" or "Medium" priority that removes
    at least one keyword, names how many it removes, and shows the title of
    the listing in at most 53 characters: the title itself up to 50
    characters, else its first 50 characters and three dots. *)
Theorem quick_wins_are_bounded opts :
  let out := _identify_quick_wins opts in
  (length out <= 5)%nat /\
  forall w, w ∈ out ->
    (String.length (QuickWin.listing w) <= 53)%nat /\
    exists opt,
      opt ∈ opts /\
      optimization_priority opt ∈ ["High"; "Medium"] /\
      keywords_to_remove opt <> [] /\
      QuickWin.action w = QuickWin.RemoveLowValue (len (keywords_to_remove opt)) /\
      QuickWin.impact w = expected_improvement opt /\
      QuickWin.listing w
      = if decide (String.length (listing_title opt) <= 50)%nat
        then listing_title opt
        else str_take 50 (listing_title opt) +:+ "...".
Proof.
  cbv zeta. rewrite quick_wins_spec. split; [rewrite length_take; lia |].
  intros w Hw. apply elem_of_take, list_elem_of_fmap in Hw as (opt & -> & Hopt).
  apply list_elem_of_filter in Hopt as [Hc Hopt].
  apply andb_true_iff in Hc as [Hp Hr]. apply bool_decide_eq_true in Hp.
  apply Z.ltb_lt in Hr. cbn [QuickWin.listing QuickWin.action QuickWin.impact].
  assert (Hl : (if 50 <? str_len (listing_title opt)
                then str_take 50 (listing_title opt) +:+ "..."
                else listing_title opt)
               = if decide (String.length (listing_title opt) <= 50)%nat
                 then listing_title opt
                 else str_take 50 (listing_title opt) +:+ "...").
  { unfold str_len. destruct (Z.ltb_spec 50 (Z.of_nat (String.length (listing_title opt))));
      destruct (decide _); try reflexivity; lia. }
  split.
  - rewrite Hl. destruct (decide _) as [Hs | Hs]; [lia |].
    rewrite length_append, length_str_take. cbn [String.length]. lia.
  - exists opt. split; [exact Hopt |]. split; [exact Hp |]. split.
    + intros E. rewrite E in Hr. unfold len in Hr. cbn in Hr. lia.
    + split; [reflexivity |]. split; [reflexivity | exact Hl].
Qed.

(** X12: [generate_portfolio_report] raises nothing, the empty portfolio
    included (no division by the number of listings is made there): it
    carries the analyses of [analyze_keyword_portfolio] and one
    optimization per listing; its summary counts the listings, as many
    unique keywords as there are analyses, and no more high-priority
    optimizations than listings.  For the empty portfolio the average is
    the integer 0, the gaps are the first eight high-value keywords and the
    only recommendation is the trend alignment. *)
Theorem portfolio_report_is_consistent iter listings :
  (forall s, iter s ≡ₚ elements s) ->
  len (listings ≫= tags_of) <= max_float ->
  exists r,
    generate_portfolio_report iter listings = Ok r /\
    analyze_keyword_portfolio iter listings = Ok (keyword_analyses r) /\
    Forall2 (λ l o, optimize_listing_keywords l = Ok o) listings (listing_optimizations r) /\
    total_listings (portfolio_summary r) = len listings /\
    total_unique_keywords (portfolio_summary r) = len (keyword_analyses r) /\
    0 <= high_priority_optimizations (portfolio_summary r) <= len listings /\
    (listings = [] ->
     r = {| portfolio_summary :=
              {| total_listings := 0; total_unique_keywords := 0;
                 avg_keywords_per_listing := Int 0; high_priority_optimizations := 0 |};
            keyword_analyses := [];
            listing_optimizations := [];
            portfolio_gaps :=
              ["deep state"; "transparency"; "accountability"; "oversight";
               "whistleblower"; "classified"; "security clearance"; "insider"];
            quick_wins := [];
            strategic_recommendations := [TrendAlignment] |}).
Proof.
  intros Hiter Hbound.
  destruct (portfolio_report_spec iter listings Hiter Hbound)
    as (analyses & opts & avg & Ea & Eo & Havg & Er).
  eexists. split; [exact Er |].
  cbn [keyword_analyses listing_optimizations portfolio_summary total_listings
       total_unique_keywords high_priority_optimizations].
  split; [exact Ea |]. split; [now apply MarketFacts.map_result_Ok |].
  split; [reflexivity |]. split; [| split].
  - destruct (portfolio_spec iter listings Hiter Hbound) as (analyses' & E' & F).
    rewrite E' in Ea. injection Ea as <-. unfold len.
    rewrite length_fmap, (Permutation_length (sorted_desc_by_perm _ _)), length_fmap.
    rewrite <- (Forall2_length _ _ _ F), (Permutation_length (Hiter _)).
    reflexivity.
  - pose proof (length_filter (λ opt, optimization_priority opt = "High") opts) as Hf.
    apply map_result_length in Eo. unfold len. lia.
  - intros ->. cbn in Havg. subst avg.
    assert (Ha0 : analyses = []).
    { unfold analyze_keyword_portfolio in Ea. cbn in Ea.
      change (list_to_set []) with (∅ : gset string) in Ea.
      rewrite (iter_empty iter Hiter) in Ea. cbn in Ea. now injection Ea as <-. }
    cbn in Eo. injection Eo as <-. subst analyses. reflexivity.
Qed.

Lemma portfolio_report_is_consistent_witness :
  let listings :=
    [ {| Listing.title := Some "Deep State Sticker";
         Listing.tags := Some ["Sticker"; "Beautiful"; "gift"] |} ] in
  (forall s : gset string, elements s ≡ₚ elements s) /\
  len (listings ≫= tags_of) <= max_float /\
  exists r, generate_portfolio_report elements listings = Ok r /\
            total_listings (portfolio_summary r) = 1.
Proof.
  cbv zeta. split; [reflexivity |]. split; [vm_compute; discriminate |].
  destruct (portfolio_report_is_consistent elements
              [ {| Listing.title := Some "Deep State Sticker";
                   Listing.tags := Some ["Sticker"; "Beautiful"; "gift"] |} ])
    as (r & E & _ & _ & T & _).
  - reflexivity.
  - vm_compute. discriminate.
  - exists r. split; [exact E | exact T].
Defined.

(** X13: the recommendations of the report end with the trend alignment,
    and they advise to diversify exactly when some keyword is, up to case,
    the tag of more than ten tags of the portfolio. *)
Theorem report_advises_diversification iter listings :
  (forall s, iter s ≡ₚ elements s) ->
  len (listings ≫= tags_of) <= max_float ->
  exists r,
    generate_portfolio_report iter listings = Ok r /\
    last (strategic_recommendations r) = Some TrendAlignment /\
    (KeywordDiversification ∈ strategic_recommendations r <->
     exists t, t ∈ listings ≫= tags_of /\
               10 < len (filter (λ t', lower t' = lower t) (listings ≫= tags_of))).
Proof.
  intros Hiter Hbound.
  destruct (portfolio_report_spec iter listings Hiter Hbound)
    as (analyses & opts & avg & Ea & _ & _ & Er).
  eexists. split; [exact Er |]. cbn [strategic_recommendations].
  pose proof (recommendations_spec analyses) as Hrec. cbv zeta in Hrec. rewrite Hrec.
  split.
  { rewrite !app_assoc. apply last_snoc. }
  assert (Hex : Exists (λ a, 10 < frequency_across_listings a) analyses <->
                exists t, t ∈ listings ≫= tags_of /\
                  10 < len (filter (λ t', lower t' = lower t) (listings ≫= tags_of))).
  { destruct (portfolio_spec iter listings Hiter Hbound) as (analyses' & E' & F).
    rewrite E' in Ea. injection Ea as <-. rewrite Exists_exists. split.
    - intros (a & Ha & Hf).
      rewrite sorted_desc_by_perm, snd_keyed in Ha.
      apply list_elem_of_lookup in Ha as [i Hi].
      destruct (Forall2_lookup_r _ _ _ _ _ F Hi) as (k & Hk & _ & Hfr & _).
      apply list_elem_of_lookup_2 in Hk. apply (iter_elem_of iter _ k Hiter) in Hk.
      unfold portfolio_keywords in Hk.
      apply elem_of_list_to_set, list_elem_of_fmap in Hk as (t & -> & Ht).
      exists t. split; [exact Ht |]. rewrite Hfr in Hf. exact Hf.
    - intros (t & Ht & Hf).
      assert (Hk : lower t ∈ iter (portfolio_keywords listings)).
      { apply (iter_elem_of iter _ _ Hiter). unfold portfolio_keywords.
        apply elem_of_list_to_set, list_elem_of_fmap. eauto. }
      apply list_elem_of_lookup in Hk as [i Hi].
      destruct (Forall2_lookup_l _ _ _ _ _ F Hi) as (a & Ha & _ & Hfr & _).
      exists a. split.
      + rewrite sorted_desc_by_perm, snd_keyed. eapply list_elem_of_lookup_2, Ha.
      + rewrite Hfr. exact Hf. }
  rewrite <- Hex. case_bool_decide as Hd.
  - split; [intros _; exact Hd |]. intros _.
    rewrite !elem_of_app. right. right. left. left.
  - split; [| tauto]. intros H. exfalso.
    rewrite !elem_of_app in H.
    destruct H as [H | [H | [H | H]]].
    + destruct (5 <? _); [apply list_elem_of_singleton in H; discriminate | inversion H].
    + destruct (3 <? _); [apply list_elem_of_singleton in H; discriminate | inversion H].
    + inversion H.
    + apply list_elem_of_singleton in H. discriminate.
Qed.

Lemma report_advises_diversification_witness :
  let listings :=
    [ {| Listing.title := Some "Mug"; Listing.tags := Some ["Mug"; "mug"] |} ] in
  (forall s : gset string, elements s ≡ₚ elements s) /\
  len (listings ≫= tags_of) <= max_float /\
  exists r, generate_portfolio_report elements listings = Ok r /\
            last (strategic_recommendations r) = Some TrendAlignment.
Proof.
  cbv zeta. split; [reflexivity |]. split; [vm_compute; discriminate |].
  destruct (report_advises_diversification elements
              [ {| Listing.title := Some "Mug"; Listing.tags := Some ["Mug"; "mug"] |} ])
    as (r & E & L & _).
  - reflexivity.
  - vm_compute. discriminate.
  - exists r. split; [exact E | exact L].
Defined.

End KeywordReport.

(** ** Market researcher: ranking, gaps, next actions and the report *)

Module MarketReport.
Import Binary64 Py PyFacts MarketResearch MarketFacts ImpactFacts PriorityFacts ScoringFacts
  Notions LoopFacts OpportunityFacts.
Local Open Scope string_scope.
Local Open Scope list_scope.
Local Open Scope Z_scope.

(** X14: [research_market_opportunities] ranks what it returns: for valid
    candidates it returns as many opportunities as there are feasible
    candidates, each with a priority score, and no opportunity has a lower
    priority score than a later one. *)
Theorem research_is_sorted_by_priority self cands :
  Forall Candidate.valid cands ->
  exists out,
    research_candidates self cands = Ok out /\
    length out = length (filter (λ opp, _is_opportunity_feasible self opp = true) cands) /\
    forall i j a b, (i < j)%nat -> out !! i = Some a -> out !! j = Some b ->
      exists pa pb,
        _calculate_priority_score self a = Ok pa /\
        _calculate_priority_score self b = Ok pb /\
        flt pa pb = false.
Proof.
  intros Hv. destruct (research_keyed self cands Hv) as (opps & keyed & Ec & F & E).
  eexists. split; [exact E |].
  assert (Hkeyed : forall kx, kx ∈ keyed ->
            _calculate_priority_score self kx.2 = Ok kx.1 /\ not_nan kx.1).
  { intros kx Hkx. apply list_elem_of_lookup in Hkx as [i Hi].
    destruct (Forall2_lookup_r _ _ _ _ _ F Hi) as (mo & Hmo & <- & Hp).
    split; [exact Hp |].
    destruct (Forall2_lookup_r _ _ _ _ _ (map_result_Ok _ _ _ Ec) Hmo) as (o & _ & Ho).
    destruct (created_scores self o _ Ho) as (He & Him & Hco & _).
    eapply priority_not_nan; eassumption. }
  split.
  - rewrite length_fmap, (Permutation_length (sorted_desc_perm keyed)).
    rewrite <- (Forall2_length _ _ _ F). now apply map_result_length in Ec.
  - rewrite sorted_desc_is_by.
    assert (Hd : descending flt (sorted_desc_by flt keyed)).
    { apply (sorted_desc_by_descending flt not_nan).
      - intros a b _ _. apply flt_asym.
      - apply flt_negtrans.
      - apply Forall_forall. intros kx Hkx. now apply Hkeyed. }
    intros i j a b Hij Hi Hj. rewrite list_lookup_fmap in Hi, Hj.
    destruct (sorted_desc_by flt keyed !! i) as [x |] eqn:Ex; [| discriminate].
    destruct (sorted_desc_by flt keyed !! j) as [y |] eqn:Ey; [| discriminate].
    cbn in Hi, Hj. injection Hi as <-. injection Hj as <-.
    exists x.1, y.1.
    assert (Hx : x ∈ keyed)
      by (rewrite <- (sorted_desc_by_perm flt keyed); eapply list_elem_of_lookup_2, Ex).
    assert (Hy : y ∈ keyed)
      by (rewrite <- (sorted_desc_by_perm flt keyed); eapply list_elem_of_lookup_2, Ey).
    split; [apply Hkeyed, Hx |]. split; [apply Hkeyed, Hy |].
    exact (Hd i j x y Hij Ex Ey).
Qed.

Lemma research_is_sorted_by_priority_witness :
  Forall Candidate.valid potential_opportunities /\
  exists out, research_candidates default_researcher potential_opportunities = Ok out /\
              length out = 3%nat.
Proof.
  assert (Hv : Forall Candidate.valid potential_opportunities).
  { repeat constructor; try (vm_compute; intros H; discriminate H); cbn;
      repeat (first [ left; reflexivity | right ]). }
  split; [exact Hv |].
  destruct (research_is_sorted_by_priority default_researcher potential_opportunities Hv)
    as (out & E & L & _).
  exists out. split; [exact E |]. rewrite L. vm_compute. reflexivity.
Defined.

(** X15: [_calculate_confidence_score] never needs its clamp: the score is
    3, plus the number of required skills the profile has (2 at most),
    minus 1 in a market of high competition; it lies between 2 and 5. *)
Theorem confidence_is_never_clamped self opp :
  let overlap :=
    Z.of_nat (size ((list_to_set (Opp.skill_requirements opp) : gset string)
                    ∩ skills (capability_profile self))) in
  _calculate_confidence_score self opp
  = 3 + Z.min 2 overlap
    - (if bool_decide (Opp.competition_level opp = "High") then 1 else 0) /\
  2 <= _calculate_confidence_score self opp <= 5.
Proof.
  cbv zeta. unfold _calculate_confidence_score. cbv zeta.
  destruct (bool_decide (Opp.competition_level opp = "High")); lia.
Qed.

Lemma gaps_perm self iter opps :
  _identify_capability_gaps self iter opps
  ≡ₚ (skill_gap opps <$> iter ((required_capabilities opps).1
                                ∖ skills (capability_profile self)))
     ++ (tool_gap opps <$>
         filter (λ tool, tool ∉ tools_not_available (capability_profile self))
                (iter ((required_capabilities opps).2
                       ∖ tools_available (capability_profile self)))).
Proof. rewrite capability_gaps_spec, sorted_desc_by_perm. now rewrite snd_keyed. Qed.

(** X16: whatever the order in which the sets are iterated,
    [_identify_capability_gaps] reports a skill exactly when some
    opportunity requires it and the profile lacks it, and a tool exactly
    when some opportunity requires it and it is neither available nor
    listed as not available; no gap is reported twice, and each is counted
    for the opportunities that require it, of which there is at least
    one. *)
Theorem capability_gaps_are_the_missing self iter opps :
  (forall s, iter s ≡ₚ elements s) ->
  let gaps := _identify_capability_gaps self iter opps in
  (forall s, skill_gap opps s ∈ gaps <->
     (exists opp, opp ∈ opps /\ s ∈ skill_requirements opp) /\
     s ∉ skills (capability_profile self)) /\
  (forall t, tool_gap opps t ∈ gaps <->
     (exists opp, opp ∈ opps /\ t ∈ resource_requirements opp) /\
     (t ∉ tools_available (capability_profile self)) /\
     (t ∉ tools_not_available (capability_profile self))) /\
  (forall g, g ∈ gaps ->
     (g = skill_gap opps (Gap.name g) \/ g = tool_gap opps (Gap.name g)) /\
     1 <= Gap.opportunities_unlocked g <= len opps) /\
  NoDup gaps.
Proof.
  intros Hiter. cbv zeta.
  set (ms := (required_capabilities opps).1 ∖ skills (capability_profile self)).
  set (mt := (required_capabilities opps).2 ∖ tools_available (capability_profile self)).
  assert (Hms : forall s, s ∈ iter ms <->
            (exists opp, opp ∈ opps /\ s ∈ skill_requirements opp) /\
            s ∉ skills (capability_profile self)).
  { intros s. rewrite (PortfolioFacts.iter_elem_of iter _ s Hiter). unfold ms.
    now rewrite elem_of_difference, required_skills_elem. }
  assert (Hmt : forall t,
            t ∈ filter (λ tool, tool ∉ tools_not_available (capability_profile self)) (iter mt)
            <-> (exists opp, opp ∈ opps /\ t ∈ resource_requirements opp) /\
                (t ∉ tools_available (capability_profile self)) /\
                (t ∉ tools_not_available (capability_profile self))).
  { intros t. rewrite list_elem_of_filter, (PortfolioFacts.iter_elem_of iter _ t Hiter).
    unfold mt. rewrite elem_of_difference, required_tools_elem. tauto. }
  assert (Hin : forall g, g ∈ _identify_capability_gaps self iter opps <->
            (exists s, g = skill_gap opps s /\ s ∈ iter ms) \/
            (exists t, g = tool_gap opps t /\
               t ∈ filter (λ tool, tool ∉ tools_not_available (capability_profile self))
                          (iter mt))).
  { intros g. rewrite gaps_perm, elem_of_app, !list_elem_of_fmap. reflexivity. }
  split; [| split; [| split]].
  - intros s. rewrite Hin, <- Hms. split.
    + intros [(s' & E & Hs') | (t & E & _)]; [| discriminate E].
      injection E as ->. exact Hs'.
    + intros Hs. left. eauto.
  - intros t. rewrite Hin, <- Hmt. split.
    + intros [(s & E & _) | (t' & E & Ht')]; [discriminate E |].
      injection E as ->. exact Ht'.
    + intros Ht. right. eauto.
  - intros g Hg. apply Hin in Hg as [(s & -> & Hs) | (t & -> & Ht)].
    + split; [left; reflexivity |]. cbn [skill_gap Gap.opportunities_unlocked].
      apply Hms in Hs as [(opp & Hopp & Hs) _].
      pose proof (length_filter (λ opp, s ∈ skill_requirements opp) opps) as Hle.
      assert (Hne : opp ∈ filter (λ opp, s ∈ skill_requirements opp) opps)
        by (apply list_elem_of_filter; auto).
      unfold len. destruct (filter _ opps); [inversion Hne | cbn [length] in *; lia].
    + split; [right; reflexivity |]. cbn [tool_gap Gap.opportunities_unlocked].
      apply Hmt in Ht as [(opp & Hopp & Ht) _].
      pose proof (length_filter (λ opp, t ∈ resource_requirements opp) opps) as Hle.
      assert (Hne : opp ∈ filter (λ opp, t ∈ resource_requirements opp) opps)
        by (apply list_elem_of_filter; auto).
      unfold len. destruct (filter _ opps); [inversion Hne | cbn [length] in *; lia].
  - rewrite gaps_perm. apply NoDup_app. split; [| split].
    + apply NoDup_fmap_2; [| now apply PortfolioFacts.iter_NoDup].
      intros s s' E. now injection E.
    + intros g Hs Ht. apply list_elem_of_fmap in Hs as (s & -> & _).
      apply list_elem_of_fmap in Ht as (t & E & _). discriminate E.
    + apply NoDup_fmap_2; [intros t t' E; now injection E |].
      apply NoDup_filter. now apply PortfolioFacts.iter_NoDup.
Qed.

Lemma capability_gaps_are_the_missing_witness :
  (forall s : gset string, elements s ≡ₚ elements s) /\
  exists out,
    research_candidates default_researcher potential_opportunities = Ok out /\
    NoDup (_identify_capability_gaps default_researcher elements out).
Proof.
  split; [reflexivity |].
  destruct (research_candidates default_researcher potential_opportunities) as [out | e] eqn:E.
  - exists out. split; [reflexivity |].
    destruct (capability_gaps_are_the_missing default_researcher elements out)
      as (_ & _ & _ & N); [reflexivity | exact N].
  - vm_compute in E. discriminate E.
Defined.

(** X17: the capability gaps come out by decreasing number of
    opportunities unlocked, a number between 0 and the number of
    opportunities. *)
Theorem capability_gaps_are_sorted self iter opps :
  let gaps := _identify_capability_gaps self iter opps in
  (forall g, g ∈ gaps -> 0 <= Gap.opportunities_unlocked g <= len opps) /\
  (forall i j g h, (i < j)%nat -> gaps !! i = Some g -> gaps !! j = Some h ->
     Gap.opportunities_unlocked h <= Gap.opportunities_unlocked g).
Proof.
  cbv zeta. split.
  - intros g Hg. rewrite gaps_perm in Hg.
    apply elem_of_app in Hg as [Hg | Hg]; apply list_elem_of_fmap in Hg as (x & -> & _);
      cbn [skill_gap tool_gap Gap.opportunities_unlocked]; unfold len.
    + pose proof (length_filter (λ opp, x ∈ skill_requirements opp) opps). lia.
    + pose proof (length_filter (λ opp, x ∈ resource_requirements opp) opps). lia.
  - rewrite capability_gaps_spec.
    match goal with
    | |- context [sorted_desc_by Z.ltb ?keyed] =>
        pose proof (sorted_desc_by_descending Z.ltb (λ _, True) Z_ltb_asym Z_ltb_negtrans
                      keyed) as Hd;
        assert (Hkey : forall x, x ∈ sorted_desc_by Z.ltb keyed ->
                                 x.1 = Gap.opportunities_unlocked x.2);
        [ intros x Hx; rewrite sorted_desc_by_perm in Hx;
          apply list_elem_of_fmap in Hx as (g & -> & _); reflexivity |];
        set (sorted := sorted_desc_by Z.ltb keyed) in *
    end.
    specialize (Hd ltac:(apply Forall_forall; intros; exact I)).
    intros i j g h Hij Hi Hj. rewrite list_lookup_fmap in Hi, Hj.
    destruct (sorted !! i) as [x |] eqn:Ex; [| discriminate].
    destruct (sorted !! j) as [y |] eqn:Ey; [| discriminate].
    cbn in Hi, Hj. injection Hi as <-. injection Hj as <-.
    pose proof (Hd i j x y Hij Ex Ey) as Hlt. apply Z.ltb_ge in Hlt.
    rewrite <- (Hkey x), <- (Hkey y) by (eapply list_elem_of_lookup_2; eassumption).
    exact Hlt.
Qed.

(** X18: [_generate_next_actions] looks at the first three opportunities
    only (the report hands it the first five): it plans one research action
    for each of them and a prototype besides for each that is a quick win,
    with the rank of the opportunity, from 1, as its priority. *)
Theorem next_actions_cover_the_top_three self opps :
  let actions := _generate_next_actions self opps in
  len actions
  = len (take 3 opps) + len (filter (λ opp, timeline opp = "Quick Win") (take 3 opps)) /\
  (forall a, a ∈ actions ->
     exists i opp,
       (i < 3)%nat /\ opps !! i = Some opp /\
       Action.priority a = Z.of_nat i + 1 /\ Action.opportunity a = name opp /\
       (Action.action a = Action.Research (name opp) \/
        (Action.action a = Action.CreatePrototype (name opp) /\
         timeline opp = "Quick Win"))) /\
  (forall i opp, (i < 3)%nat -> opps !! i = Some opp ->
     exists a, a ∈ actions /\ Action.priority a = Z.of_nat i + 1 /\
               Action.action a = Action.Research (name opp)) /\
  _generate_next_actions self (take 5 opps) = actions.
Proof.
  cbv zeta. rewrite !next_actions_spec. split; [| split; [| split]].
  - unfold enumerate. apply next_actions_length.
  - intros a Ha. apply list_elem_of_bind in Ha as ([z opp] & Ha & He).
    apply list_elem_of_lookup in He as [i Hi]. rewrite enumerate_lookup in Hi.
    destruct (take 3 opps !! i) as [opp' |] eqn:Ho; [| discriminate Hi].
    cbn in Hi. injection Hi as <- <-.
    apply lookup_take_Some in Ho as [Ho Hlt].
    exists i, opp'. split; [exact Hlt |]. split; [exact Ho |].
    unfold actions_for in Ha. cbn [fst snd] in Ha.
    apply elem_of_cons in Ha as [-> | Ha].
    + split; [reflexivity |]. split; [reflexivity | left; reflexivity].
    + case_bool_decide as Hq; [| inversion Ha].
      apply list_elem_of_singleton in Ha. subst a.
      split; [reflexivity |]. split; [reflexivity | right; split; [reflexivity | exact Hq]].
  - intros i opp Hlt Ho.
    exists {| Action.priority := Z.of_nat i + 1;
              Action.opportunity := name opp;
              Action.action := Action.Research (name opp);
              Action.timeline := "This week";
              Action.estimated_time := "2-3 hours" |}.
    split; [| split; reflexivity].
    apply list_elem_of_bind. exists (Z.of_nat i, opp). split.
    + unfold actions_for. cbn [fst snd]. left.
    + apply (list_elem_of_lookup_2 _ i). rewrite enumerate_lookup.
      rewrite lookup_take_lt by exact Hlt. now rewrite Ho.
  - rewrite take_take. reflexivity.
Qed.
(** X19: [generate_opportunity_report] raises [KeyError] exactly when some
    opportunity carries a timeline that is none of the four buckets. *)
Theorem report_raises_key_error self iter now opps :
  generate_opportunity_report self iter now opps = Raise KeyError <->
  exists opp, opp ∈ opps /\ timeline opp ∉ timelines.
Proof.
  unfold generate_opportunity_report, categorize.
  pose proof (categorize_from_errors empty_buckets opps) as H.
  destruct (categorize_from empty_buckets opps) as [c | e]; cbn [mbind result_bind].
  - split.
    + destruct (report_buckets self c) as [shown | e] eqn:E; cbn [mbind result_bind];
        [discriminate |].
      intros He. injection He as ->.
      destruct (report_buckets_errors _ _ _ E); discriminate.
    + intros (opp & Hopp & Hn). exfalso. apply Hn, empty_buckets_lookup, H, Hopp.
  - destruct H as (-> & opp & Hopp & Hn). split; [| reflexivity].
    intros _. exists opp. split; [exact Hopp |].
    rewrite <- empty_buckets_lookup, Hn. intros [x Hx]. discriminate.
Qed.

(** X20: the report of what the research returns raises nothing. For
    valid candidates, [research_market_opportunities] followed by
    [generate_opportunity_report] gives a report that counts the feasible
    candidates, has exactly the four buckets, shows in each bucket the
    first five, at most, of the opportunities of that timeline in ranking
    order, and recommends three opportunities at most for the season. *)
Theorem report_of_research_is_total self iter now cands :
  Forall Candidate.valid cands ->
  exists opps report,
    research_candidates self cands = Ok opps /\
    generate_opportunity_report self iter now opps = Ok report /\
    Report.generated_date report = now /\
    Report.total_opportunities report
    = len (filter (λ opp, _is_opportunity_feasible self opp = true) cands) /\
    (forall bucket, is_Some (Report.categorized_opportunities report !! bucket)
                    <-> bucket ∈ timelines) /\
    (forall bucket entries,
       Report.categorized_opportunities report !! bucket = Some entries ->
       (length entries <= 5)%nat /\
       Forall2 (λ opp entry, report_entry self opp = Ok entry)
               (take 5 (filter (λ opp, timeline opp = bucket) opps)) entries) /\
    (length (Report.seasonal_recommendations report) <= 3)%nat.
Proof.
  intros Hv. destruct (research_keyed self cands Hv) as (opps0 & keyed & Ec & F & E).
  set (opps := snd <$> sorted_desc keyed) in *.
  assert (Hperm : opps ≡ₚ opps0).
  { unfold opps. rewrite sorted_desc_perm.
    clear - F. induction F as [| mo kx l l' [H _] _ IH]; cbn; [reflexivity |].
    now rewrite H, IH. }
  assert (Hopps : forall mo, mo ∈ opps ->
            timeline mo ∈ timelines /\ exists p, _calculate_priority_score self mo = Ok p).
  { intros mo Hmo. rewrite Hperm in Hmo. apply list_elem_of_lookup in Hmo as [i Hi].
    destruct (Forall2_lookup_l _ _ _ _ _ F Hi) as (kx & _ & _ & Hp).
    destruct (Forall2_lookup_r _ _ _ _ _ (map_result_Ok _ _ _ Ec) Hi) as (o & _ & Ho).
    destruct (created_scores self o _ Ho) as (_ & _ & _ & -> & _).
    split; [apply timeline_is_a_bucket | eauto]. }
  destruct (categorize_from_spec empty_buckets opps) as (cat & Hcat & Hlook).
  { intros o Ho. apply empty_buckets_lookup, Hopps, Ho. }
  assert (Hbucket : forall k, k ∈ timelines ->
            cat !! k = Some (filter (λ o, timeline o = k) opps)).
  { intros k Hk. rewrite Hlook.
    assert (E0 : empty_buckets !! k = Some []).
    { unfold timelines in Hk.
      repeat (apply elem_of_cons in Hk as [-> | Hk]; [vm_compute; reflexivity |]).
      inversion Hk. }
    rewrite E0. reflexivity. }
  destruct (fold_insert_spec
              (λ bucket, map_result (report_entry self)
                           (take 5 (default [] (cat !! bucket))))
              timelines ∅) as (shown & Eshown & Hshown).
  { intros k Hk. apply map_result_total, Forall_forall. intros o Ho.
    rewrite (Hbucket k Hk) in Ho.
    change (default [] (Some (filter (λ o, timeline o = k) opps)))
      with (filter (λ o, timeline o = k) opps) in Ho.
    apply AdviceFacts.elem_of_take, list_elem_of_filter in Ho as [_ Ho].
    destruct (Hopps o Ho) as (_ & p & Hp). unfold report_entry. rewrite Hp.
    cbn [mbind result_bind]. eauto. }
  exists opps. eexists. split; [exact E |].
  unfold generate_opportunity_report. unfold categorize. rewrite Hcat.
  cbn [mbind result_bind]. unfold report_buckets. rewrite Eshown. cbn [mbind result_bind].
  split; [reflexivity |].
  cbn [Report.generated_date Report.total_opportunities Report.categorized_opportunities
       Report.seasonal_recommendations].
  split; [reflexivity |]. split; [| split; [| split]].
  - unfold len. rewrite (Permutation_length Hperm). f_equal.
    now apply map_result_length in Ec.
  - intros k. rewrite Hshown. destruct (decide (k ∈ timelines)) as [Hk | Hk].
    + split; [intros _; exact Hk |]. intros _.
      destruct (map_result_total (report_entry self) (take 5 (default [] (cat !! k))))
        as [entries ->]; [| eauto].
      apply Forall_forall. intros o Ho.
      rewrite (Hbucket k Hk) in Ho.
      change (default [] (Some (filter (λ o, timeline o = k) opps)))
        with (filter (λ o, timeline o = k) opps) in Ho.
      apply AdviceFacts.elem_of_take, list_elem_of_filter in Ho as [_ Ho].
      destruct (Hopps o Ho) as (_ & p & Hp). unfold report_entry. rewrite Hp.
      cbn [mbind result_bind]. eauto.
    + rewrite lookup_empty. split; [intros [? H]; discriminate | tauto].
  - intros k entries. rewrite Hshown. destruct (decide (k ∈ timelines)) as [Hk | Hk];
      [| rewrite lookup_empty; discriminate].
    rewrite (Hbucket k Hk).
    change (default [] (Some (filter (λ o, timeline o = k) opps)))
      with (filter (λ o, timeline o = k) opps).
    destruct (map_result (report_entry self)
                (take 5 (filter (λ o, timeline o = k) opps))) as [es | e] eqn:Ee;
      [| intros H; discriminate H].
    intros H. injection H as <-. pose proof (map_result_length _ _ _ Ee) as Hl.
    rewrite length_take in Hl. split; [lia |]. now apply map_result_Ok.
  - rewrite length_fmap, length_take. lia.
Qed.

Lemma report_of_research_is_total_witness :
  Forall Candidate.valid potential_opportunities /\
  exists opps report,
    research_candidates default_researcher potential_opportunities = Ok opps /\
    generate_opportunity_report default_researcher elements "2025-01-01T00:00:00" opps
    = Ok report /\
    Report.total_opportunities report = 3.
Proof.
  assert (Hv : Forall Candidate.valid potential_opportunities).
  { repeat constructor; try (vm_compute; intros H; discriminate H); cbn;
      repeat (first [ left; reflexivity | right ]). }
  split; [exact Hv |].
  destruct (report_of_research_is_total default_researcher elements "2025-01-01T00:00:00"
              potential_opportunities Hv)
    as (opps & report & E & Er & _ & T & _).
  exists opps, report. split; [exact E |]. split; [exact Er |]. rewrite T.
  vm_compute. reflexivity.
Defined.

End MarketReport.
